(** * HLH_hack: rebalancing engines, guard pipeline and vault accounting

    A shallow embedding of the two Python engines of the repository:

    - [backtest/engine.py]: the fixed-point (1e6 scale) backtest with its
      strategy loader, target sizers, guard pipeline and per-step loop;
    - [hl-vix-etf/core]: the vault ([vault.py]), the strategy helpers
      ([strategy.py]), the hard risk guards ([risk_guard.py]) and the
      one-tick engine ([engine.py]).

    Numeric conventions of the embedding:

    - a Python [int] is a [Z]; [//] is [Z.div] (both floor, both give the
      remainder the sign of the divisor), guarded against a zero divisor
      where the source can reach one;
    - a Python [float] is idealised as a rational [Q]: comparisons, [abs],
      [min], [max] are exact on floats, arithmetic is taken without
      rounding, and [log]/[sqrt] are parameters of the sections that need
      them.  [int(x)] on a float is truncation toward zero ([Qint]);
    - a [decimal.Decimal] is a rational value on which every arithmetic
      operation is followed by the rounding of the default context
      (28 significant digits, round-half-even), see [Module Dec];
    - a [dict] with string keys is a [gmap string _]; [d.get(k, v)] is
      [default v (d !! k)];
    - a raised exception is the [Raise] constructor of [result]. *)

From Stdlib Require Import ZArith QArith Qabs Qminmax Lia Lqa.
From stdpp Require Import gmap strings sorting.

Local Open Scope Z_scope.

(** ** Python primitives *)

Inductive exn : Type :=
| ValueError (msg : string)
| KeyError (key : string)
| ZeroDivisionError
| UnboundLocalError (name : string)
| NotImplementedError
| AttributeError (msg : string)
| AdapterError (msg : string)
| TypeError (msg : string)
| OverflowError.

Inductive result (A : Type) : Type :=
| Ok (a : A)
| Raise (e : exn).
Arguments Ok {A} a.
Arguments Raise {A} e.

(** The error monad of a [try]-free call chain, with stdpp's
    [x ← r; k] notation. *)
#[global] Instance result_ret : MRet result := fun A a => Ok a.
#[global] Instance result_bind : MBind result := fun A B k r =>
  match r with
  | Ok a => k a
  | Raise e => Raise e
  end.

Definition is_ok {A} (r : result A) : bool :=
  match r with Ok _ => true | Raise _ => false end.

(** [int(x)] for a float [x]: truncation toward zero. *)
Definition Qint (q : Q) : Z := Z.quot (Qnum q) (Zpos (Qden q)).

(** Comparisons on floats, as booleans. *)
Definition Qltb (x y : Q) : bool := negb (Qle_bool y x).
Definition Qleb (x y : Q) : bool := Qle_bool x y.
Definition Qeqb (x y : Q) : bool := Qeq_bool x y.

Definition E6 : Z := 10 ^ 6.
Definition E6q : Q := inject_Z E6.

(** [sum(d.values())] for a dict of ints. *)
Definition sum_values (m : gmap string Z) : Z :=
  map_fold (fun _ v acc => v + acc) 0 m.

(** [dict.get(s, 0)]. *)
Definition get0 (m : gmap string Z) (s : string) : Z := default 0 (m !! s).

(** [sum(l)], [len(l)] as a float, and [x ** 2]. *)
Definition Qsum (l : list Q) : Q := foldr Qplus 0%Q l.

Definition Qlen {A} (l : list A) : Q := inject_Z (Z.of_nat (length l)).

Definition Qsq (x : Q) : Q := (x * x)%Q.

(** ** backtest/engine.py *)

Module Backtest.

Record Config : Type := mkConfig {
  turnoverCapBps : Z;
  maxNetDeltaUSD : Q;
  perSymbolMaxUSD : gmap string Q;
  cooldownSeconds : Z;
  feeBps : Q;
  slipBps : Q;
  leverage : Q;
  rebalanceThresholdBps : Q
}.

(** The dataclass defaults, [__post_init__] included. *)
Definition default_perSymbolMaxUSD : gmap string Q :=
  {[ "default"%string := 250000%Q ]}.

Definition default_Config : Config :=
  {| turnoverCapBps := 1000;
     maxNetDeltaUSD := 50000%Q;
     perSymbolMaxUSD := default_perSymbolMaxUSD;
     cooldownSeconds := 3600;
     feeBps := 5%Q;
     slipBps := 10%Q;
     leverage := 1%Q;
     rebalanceThresholdBps := 0%Q |}.

(** The JSON value under a [bps] key: a number, with the exact value of
    the [int] or [float] that [json.load] makes of it, or [null].  Strings,
    booleans, containers and the non-finite floats are not modelled. *)
Inductive JsonValue : Type :=
| JNum (q : Q)
| JNull.

(** [int(v)]: truncation toward zero on a number, [TypeError] on [None]. *)
Definition py_int (v : JsonValue) : result Z :=
  match v with
  | JNum q => Ok (Qint q)
  | JNull =>
      Raise (TypeError "int() argument must be a string, a bytes-like object or a real number, not 'NoneType'")
  end.

(** One entry of a [longs]/[shorts] list, as [json.load] returns it: each
    key may be absent. *)
Record Alloc : Type := mkAlloc {
  symbol : option string;
  bps : option JsonValue
}.

(** An entry with both keys and an integer [bps]. *)
Definition alloc (sym : string) (b : Z) : Alloc :=
  mkAlloc (Some sym) (Some (JNum (inject_Z b))).

(** Parameters of the pair strategy, each one as [params.get] finds it. *)
Record PairParams : Type := mkPairParams {
  p_lookback : option Z;
  p_k_in : option Q;
  p_z_k : option Q;
  p_k_out : option Q;
  p_minHoldSteps : option Z;
  p_neutralDriftThresholdBps : option Q;
  p_regimeStopBps : option Q;
  p_regimeTPBps : option Q;
  p_maxSkewBps : option Q;
  p_betaMin : option Q;
  p_betaMax : option Q;
  p_useBetaHedge : option bool
}.

Definition no_params : PairParams :=
  mkPairParams None None None None None None None None None None None None.

(** The strategy JSON object: every top-level key may be absent. *)
Record Strategy : Type := mkStrategy {
  s_type : option string;
  longs : option (list Alloc);
  shorts : option (list Alloc);
  symbols : option (list string);
  params : option PairParams
}.

(** *** load_strategy *)

(** [sum(int(x.get('bps', 0)) for x in arr)]: the first entry whose [bps]
    is no number raises. *)
Fixpoint sum_bps (arr : list Alloc) : result Z :=
  match arr with
  | [] => Ok 0
  | x :: rest =>
      b ← py_int (default (JNum 0) (bps x));
      acc ← sum_bps rest;
      Ok (b + acc)
  end.

(** The [or] of the test is lazy: the shorts are only summed once the longs
    sum to 10000. *)
Definition load_strategy (s : Strategy) : result Strategy :=
  match s_type s with
  | None =>
      sum_l ← sum_bps (default [] (longs s));
      if negb (sum_l =? 10000)
      then Raise (ValueError "bps sum must be 10000 each for longs and shorts")
      else
        sum_s ← sum_bps (default [] (shorts s));
        if negb (sum_s =? 10000)
        then Raise (ValueError "bps sum must be 10000 each for longs and shorts")
        else Ok s
  | Some _ => Ok s
  end.

(** The number an entry contributes to the check: its [bps], 0 for an
    absent key; a [null] has none. *)
Definition bps_number (x : Alloc) : option Q :=
  match bps x with
  | None => Some 0%Q
  | Some (JNum q) => Some q
  | Some JNull => None
  end.

(** The two readings of "the bps of a list sum to 10000": the sum of the
    numbers as they are written, and the sum of their integer parts. *)
Definition bps_total (arr : list Alloc) : Q :=
  Qsum (map (fun x => default 0%Q (bps_number x)) arr).

Definition bps_int_total (arr : list Alloc) : Z :=
  foldr (fun x acc => Qint (default 0%Q (bps_number x)) + acc) 0 arr.

(** An entry whose [bps] is absent or a number, and one whose [bps] is
    absent or a whole number. *)
Definition numeric (x : Alloc) : Prop := is_Some (bps_number x).

Definition integral (x : Alloc) : Prop :=
  match bps_number x with
  | Some q => (q == inject_Z (Qint q))%Q
  | None => False
  end.

(** The dispatch of [backtest]: every strategy whose [type] is not
    ['pair_neutral_breakout'] runs through [guard_and_targets]. *)
Definition is_pair_breakout (s : Strategy) : bool :=
  match s_type s with
  | Some t => bool_decide (t = "pair_neutral_breakout"%string)
  | None => false
  end.

(** *** clamp_target *)

Definition cap_of (sym : string) (cfg : Config) : Z :=
  let cap_usd :=
    default (default 250000%Q (perSymbolMaxUSD cfg !! "default"%string))
            (perSymbolMaxUSD cfg !! sym) in
  Qint (cap_usd * E6q).

Definition clamp_target (sym : string) (target : Z) (cfg : Config) : Z :=
  let cap := cap_of sym cfg in
  if target >? cap then cap
  else if target <? - cap then - cap
  else target.

(** *** apply_guards, stage by stage *)

(** 1) per-symbol cap *)
Definition cap_stage (targets : gmap string Z) (cfg : Config) : gmap string Z :=
  map_imap (fun s t => Some (clamp_target s t cfg)) targets.

(** 2) net delta guard (centering) *)
Definition center_stage (targets : gmap string Z) (cfg : Config) : gmap string Z :=
  let intended := sum_values targets in
  if Z.abs intended >? Qint (maxNetDeltaUSD cfg * E6q) then
    let N := Z.max (Z.of_nat (size targets)) 1 in
    let adj := intended / N in
    (fun t => t - adj) <$> targets
  else targets.

(** The target map [apply_guards] returns. *)
Definition guarded_targets (targets : gmap string Z) (cfg : Config) : gmap string Z :=
  center_stage (cap_stage targets cfg) cfg.

(** 3) turnover cap (proportional scaling) *)
Definition deltas_of (current targets : gmap string Z) : gmap string Z :=
  map_imap (fun s t => Some (t - get0 current s)) targets.

Definition gross_of (deltas : gmap string Z) : Z :=
  sum_values (Z.abs <$> deltas).

Definition gmax_of (nav : Z) (cfg : Config) : Z :=
  (nav * turnoverCapBps cfg) / 10000.

Definition scaling_active (gross gmax : Z) : bool :=
  (gross >? gmax) && (gross >? 0).

Definition scale_of (gross gmax : Z) : Z * Z :=
  if scaling_active gross gmax then (gmax, gross) else (1, 1).

Definition turnover_stage (nav : Z) (current targets : gmap string Z)
    (cfg : Config) : gmap string Z :=
  let deltas := deltas_of current targets in
  let '(scale_num, scale_den) := scale_of (gross_of deltas) (gmax_of nav cfg) in
  map_imap (fun s d => Some (get0 current s + (d * scale_num) / scale_den)) deltas.

Definition apply_guards (nav : Z) (current targets : gmap string Z)
    (cfg : Config) : gmap string Z * gmap string Z :=
  let targets' := guarded_targets targets cfg in
  (targets', turnover_stage nav current targets' cfg).

(** *** guard_and_targets *)

(** [targets[sym] += v] on a [defaultdict(int)]. *)
Definition add_to (sym : string) (v : Z) (targets : gmap string Z) : gmap string Z :=
  <[ sym := get0 targets sym + v ]> targets.

(** One [for] loop of [guard_and_targets].  In
    [targets[L['symbol']] += (bucket * int(L['bps'])) // 10000] the
    subscript [L['symbol']] is evaluated first, then [L['bps']], then
    [int]. *)
Fixpoint fill_bucket (sign : Z) (bucket : Z) (arr : list Alloc)
    (targets : gmap string Z) : result (gmap string Z) :=
  match arr with
  | [] => Ok targets
  | x :: rest =>
      match symbol x with
      | None => Raise (KeyError "symbol")
      | Some sym =>
          match bps x with
          | None => Raise (KeyError "bps")
          | Some v =>
              b ← py_int v;
              fill_bucket sign bucket rest
                (add_to sym (sign * ((bucket * b) / 10000)) targets)
          end
      end
  end.

Definition raw_bucket_targets (nav : Z) (strat : Strategy) (cfg : Config)
    : result (gmap string Z) :=
  let long_bucket := Qint (inject_Z nav * leverage cfg) in
  let short_bucket := Qint (inject_Z nav * leverage cfg) in
  match longs strat with
  | None => Raise (KeyError "longs")
  | Some ls =>
      t1 ← fill_bucket 1 long_bucket ls ∅;
      match shorts strat with
      | None => Raise (KeyError "shorts")
      | Some ss => fill_bucket (-1) short_bucket ss t1
      end
  end.

Definition guard_and_targets (nav : Z) (current : gmap string Z)
    (strat : Strategy) (cfg : Config)
    : result (gmap string Z * gmap string Z) :=
  targets ← raw_bucket_targets nav strat cfg;
  Ok (apply_guards nav current targets cfg).

(** *** _safe_beta *)

(** [math.isfinite] holds of every rational, so the last test of the
    source never fires here. *)
Definition _safe_beta (ret_a ret_b : list Q) (beta_min beta_max : Q) : Q :=
  if negb (length ret_a =? length ret_b)%nat || (length ret_a <? 2)%nat then 1%Q
  else
    let ma := (Qsum ret_a / Qlen ret_a)%Q in
    let mb := (Qsum ret_b / Qlen ret_b)%Q in
    let cov :=
      (Qsum (zip_with (fun ra rb => (ra - ma) * (rb - mb)) ret_a ret_b)
       / (Qlen ret_a - 1))%Q in
    let var_b := (Qsum (map (fun rb => Qsq (rb - mb)) ret_b) / (Qlen ret_b - 1))%Q in
    if Qleb var_b 0 then 1%Q
    else Qmin (Qmax (cov / var_b) beta_min) beta_max.


(** *** compute_targets_pair_breakout *)

Inductive Regime : Type := neutral | long | short.

#[global] Instance Regime_eq_dec : EqDecision Regime.
Proof. solve_decision. Defined.

(** The [state] dict of the pair strategy.  [backtest] creates it as
    [{'regime': 'neutral', 'hold': 0}], so [entry_nav_e6] starts absent. *)
Record PairState : Type := mkPairState {
  regime : Regime;
  hold : Z;
  entry_nav_e6 : option Z
}.

Definition initial_pair_state : PairState := mkPairState neutral 0 None.

Record Meta : Type := mkMeta {
  meta_regime : Regime;
  neutralSkipBps : Q
}.

(** [l[-n:]] *)
Definition py_last {A} (n : Z) (l : list A) : list A :=
  if n >? 0 then drop (length l - Z.to_nat n) l
  else drop (Z.to_nat (- n)) l.

(** The parameters after their [params.get] defaults. *)
Definition lookback_of (p : PairParams) : Z := default 24 (p_lookback p).
Definition k_in_of (p : PairParams) : Q :=
  default (default 2%Q (p_z_k p)) (p_k_in p).
Definition k_out_of (p : PairParams) : Q :=
  default (Qmax 1 (k_in_of p / 2)) (p_k_out p).
Definition min_hold_of (p : PairParams) : Z := default 0 (p_minHoldSteps p).
Definition neutral_skip_bps_of (p : PairParams) : Q :=
  default 0%Q (p_neutralDriftThresholdBps p).
Definition regime_stop_bps_of (p : PairParams) : Q :=
  default 50%Q (p_regimeStopBps p).
Definition regime_tp_bps_of (p : PairParams) : Q :=
  default 100%Q (p_regimeTPBps p).
Definition max_skew_bps_of (p : PairParams) : Q := default 100%Q (p_maxSkewBps p).
Definition beta_min_of (p : PairParams) : Q := default (2 # 10)%Q (p_betaMin p).
Definition beta_max_of (p : PairParams) : Q := default 5%Q (p_betaMax p).
Definition use_beta_of (p : PairParams) : bool := default false (p_useBetaHedge p).

(** Stop loss / take profit on the NAV change since entry: the first
    [if] of the [long] and of the [short] branch. *)
Definition stop_or_tp (nav entry : Z) (stop tp : Q) (r : Regime) (h : Z)
    : Regime * Z :=
  if entry >? 0 then
    let nav_delta_bps := ((nav - entry) * 10000) / entry in
    if Qltb 0 stop && Qleb (inject_Z nav_delta_bps) (- stop) then (neutral, 0)
    else if Qltb 0 tp && Qleb tp (inject_Z nav_delta_bps) then (neutral, 0)
    else (r, h)
  else (r, h).

(** Minimum hold, then exit hysteresis: the second [if] of both branches. *)
Definition hold_or_exit (z k_out : Q) (min_hold : Z) (rh : Regime * Z)
    : Regime * Z :=
  let '(r, h) := rh in
  if h <? min_hold then (r, h + 1)
  else if Qleb (Qabs z) k_out then (neutral, 0)
  else (r, h + 1).

(** Lines 172-223: one evaluation of the regime state machine. *)
Definition regime_step (nav : Z) (z k_in k_out : Q) (min_hold : Z)
    (stop tp : Q) (st : PairState) : PairState :=
  let entry := default nav (entry_nav_e6 st) in
  match regime st with
  | neutral =>
      if Qltb 0 k_in && Qleb k_in z then mkPairState long 0 (Some nav)
      else if Qltb 0 k_in && Qleb z (- k_in) then mkPairState short 0 (Some nav)
      else mkPairState neutral (hold st) (Some entry)
  | long =>
      let '(r, h) :=
        hold_or_exit z k_out min_hold (stop_or_tp nav entry stop tp long (hold st)) in
      mkPairState r h (Some entry)
  | short =>
      let '(r, h) :=
        hold_or_exit z k_out min_hold (stop_or_tp nav entry stop tp short (hold st)) in
      mkPairState r h (Some entry)
  end.

Definition regime_step_params (nav : Z) (z : Q) (p : PairParams)
    (st : PairState) : PairState :=
  regime_step nav z (k_in_of p) (k_out_of p) (min_hold_of p)
    (regime_stop_bps_of p) (regime_tp_bps_of p) st.

(** The regime state over successive evaluations: one [(nav, z)] pair per
    call of [compute_targets_pair_breakout] that finds both prices. *)
Fixpoint regime_run (k_in k_out : Q) (min_hold : Z) (stop tp : Q)
    (steps : list (Z * Q)) (st : PairState) : PairState :=
  match steps with
  | [] => st
  | (nav, z) :: rest =>
      regime_run k_in k_out min_hold stop tp rest
        (regime_step nav z k_in k_out min_hold stop tp st)
  end.

Section PairBreakout.

(** [math.log] and [math.sqrt]. *)
Variable ln : Q -> Q.
Variable sqrt : Q -> Q.

(** Lines 152-168: the z-score of the log spread over the trailing window. *)
Definition spread_z (lookback : Z) (s : Q) (hist : list Q) : Q :=
  let use_hist := py_last lookback hist in
  if Z.max (lookback / 2) 8 <=? Z.of_nat (length use_hist) then
    let m := (Qsum use_hist / Qlen use_hist)%Q in
    let var :=
      (Qsum (map (fun x => Qsq (x - m)) use_hist)
       / inject_Z (Z.max 1 (Z.of_nat (length use_hist) - 1)))%Q in
    let std := sqrt (Qmax var 0) in
    if Qltb 0 std then ((s - m) / std)%Q else 0%Q
  else 0%Q.


(** Lines 225-236: the skew and the two notionals it shifts. *)
Definition skew_of (nav : Z) (z k_in max_skew_bps : Q) (r : Regime) : Z :=
  if negb (bool_decide (r = neutral)) && Qltb 0 k_in && Qltb k_in (Qabs z) then
    let scale := Qmin ((Qabs z - k_in) / Qmax k_in (1 # 1000000000)) 1 in
    let skew := Qint (inject_Z nav * (max_skew_bps / 10000) * scale * E6q) in
    if bool_decide (r = short) then - skew else skew
  else 0.

Definition compute_targets_pair_breakout (nav : Z) (last_px : gmap string Q)
    (ret_hist : gmap string (list Q)) (symA symB : string) (p : PairParams)
    (cfg : Config) (state : PairState)
    (spread_hist : gmap (string * string) (list Q))
    : gmap string Z * Meta * PairState * gmap (string * string) (list Q) :=
  let lookback := lookback_of p in
  match last_px !! symA, last_px !! symB with
  | Some pxA, Some pxB =>
      let ra := py_last lookback (default [] (ret_hist !! symA)) in
      let rb := py_last lookback (default [] (ret_hist !! symB)) in
      let beta :=
        if use_beta_of p then _safe_beta ra rb (beta_min_of p) (beta_max_of p)
        else 1%Q in
      let total_gross_e6 := Qint (inject_Z (2 * nav) * leverage cfg) in
      let ratio := Qmax beta (1 # 1000000) in
      let s_usd_e6 := Qint (inject_Z total_gross_e6 / (ratio + 1)) in
      let l_usd_e6 := total_gross_e6 - s_usd_e6 in
      let s := ln (Qmax pxA (1 # 1000000000000) / Qmax pxB (1 # 1000000000000)) in
      let hist := default [] (spread_hist !! (symA, symB)) ++ [s] in
      let z := spread_z lookback s hist in
      let state' := regime_step_params nav z p state in
      let skew := skew_of nav z (k_in_of p) (max_skew_bps_of p) (regime state') in
      let '(l_usd_e6, s_usd_e6) :=
        if skew =? 0 then (l_usd_e6, s_usd_e6)
        else
          let delta := skew / 2 in
          (Z.max 0 (l_usd_e6 + delta), Z.max 0 (s_usd_e6 - delta)) in
      (<[ symB := - s_usd_e6 ]> {[ symA := l_usd_e6 ]},
       mkMeta (regime state') (neutral_skip_bps_of p),
       state',
       <[ (symA, symB) := hist ]> spread_hist)
  | _, _ =>
      (∅, mkMeta (regime state) (neutral_skip_bps_of p), state, spread_hist)
  end.

End PairBreakout.

(** *** backtest *)

(** One line of [equity_curve.csv]. *)
Record EquityRow : Type := mkEquityRow {
  row_ts : Z;
  row_nav_usd : Q;
  row_gross_turnover_e6 : Z;
  row_fee_usd : Q;
  row_funding_usd : Q;
  row_note : string
}.

(** The local variables of [backtest] that live across time steps. *)
Record BtState : Type := mkBtState {
  st_nav : Z;
  st_pos : gmap string Z;
  st_last_px : gmap string Q;
  st_last_rebal_ts : option Z;
  st_ret_hist : gmap string (list Q);
  st_spread_hist : gmap (string * string) (list Q);
  st_pair_state : PairState;
  st_total_fee_usd : Q;
  st_total_funding_usd : Q;
  st_total_gross_turnover_e6 : Z;
  st_rebalances : Z;
  st_rebalances_with_trades : Z;
  st_equity : list EquityRow
}.

Definition PriceRow : Type := Z * string * Q * Q.

(** [sorted(set(sym for _, sym, _, _ in prices))] *)
Definition string_le (a b : string) : Prop := Is_true (String.leb a b).

#[global] Instance string_le_dec : RelDecision string_le.
Proof. intros a b. unfold string_le. apply _. Defined.

Definition symbols_of (prices : list PriceRow) : list string :=
  merge_sort string_le
    (elements (list_to_set (map (fun r => r.1.1.2) prices) : gset string)).

(** [rows_by_ts[ts][sym] = px] and, for a nonzero funding column,
    [funding_bps_by_ts[ts][sym] = f_bps]. *)
Definition rows_by_ts_of (prices : list PriceRow) : gmap Z (gmap string Q) :=
  foldl (fun m r =>
           let '(ts, sym, px, _) := r in
           <[ ts := <[ sym := px ]> (default ∅ (m !! ts)) ]> m) ∅ prices.

Definition funding_bps_by_ts_of (prices : list PriceRow) : gmap Z (gmap string Q) :=
  foldl (fun m r =>
           let '(ts, sym, _, f_bps) := r in
           if Qeqb f_bps 0 then m
           else <[ ts := <[ sym := f_bps ]> (default ∅ (m !! ts)) ]> m) ∅ prices.

Definition timeline_of (rows : gmap Z (gmap string Q)) : list Z :=
  merge_sort Z.le (elements (dom rows)).

(** 1) apply returns: the loop over [symbols].  A last price of zero makes
    the float division raise. *)
Fixpoint apply_returns (syms : list string) (row last_px : gmap string Q)
    (pos : gmap string Z) (pnl : Z) (ret_hist : gmap string (list Q))
    : result (Z * gmap string (list Q)) :=
  match syms with
  | [] => Ok (pnl, ret_hist)
  | s :: rest =>
      match row !! s, last_px !! s with
      | Some px, Some lp =>
          if Qeqb lp 0 then Raise ZeroDivisionError
          else
            let ret := (px / lp - 1)%Q in
            apply_returns rest row last_px pos
              (pnl + Qint (inject_Z (get0 pos s) * ret))
              (<[ s := default [] (ret_hist !! s) ++ [ret] ]> ret_hist)
      | _, _ => apply_returns rest row last_px pos pnl ret_hist
      end
  end.

(** 1.5) funding of the interval that just ended. *)
Definition funding_of (pos : gmap string Z) (fund : gmap string Q) : Q :=
  map_fold (fun s f_bps acc =>
              let p := get0 pos s in
              if negb (p =? 0) && negb (Qeqb f_bps 0)
              then (acc + - (inject_Z p / E6q) * (f_bps / 10000))%Q
              else acc) 0%Q fund.

Definition cooldown_elapsed (last : option Z) (ts : Z) (cfg : Config) : bool :=
  match last with
  | None => true
  | Some l => cooldownSeconds cfg <=? ts - l
  end.

Definition gross_turnover (pos final : gmap string Z) : Z :=
  sum_values (Z.abs <$> map_imap (fun s f => Some (f - get0 pos s)) final).

Definition gross_bps (gross_e6 nav : Z) : Z := (gross_e6 * 10000) / Z.max nav 1.

Definition nav_usd (nav : Z) : Q := (inject_Z nav / E6q)%Q.

(** Every price of the map is the constant price of its symbol, and not
    zero. *)
Definition flat_at (c : string -> Q) (m : gmap string Q) : Prop :=
  forall s px, m !! s = Some px -> (px == c s)%Q /\ ~ (px == 0)%Q.

(** A row of the price file: the constant, nonzero price of its symbol and
    no funding. *)
Definition quiet (c : string -> Q) (r : PriceRow) : Prop :=
  (r.1.2 == c r.1.1.2)%Q /\ ~ (r.1.2 == 0)%Q /\ (r.2 == 0)%Q.

(** [strat.get('symbols') or symbols] *)
Definition pair_symbols (symbols : list string) (strat : Strategy) : list string :=
  match Backtest.symbols strat with
  | Some (x :: l) => x :: l
  | _ => symbols
  end.

(** An entry that [guard_and_targets] can size: it has a [symbol] and a
    numeric [bps]. *)
Definition sized (x : Alloc) : bool :=
  match symbol x, bps x with
  | Some _, Some (JNum _) => true
  | _, _ => false
  end.

(** The strategies on which a rebalance raises nothing: a pair strategy
    with two symbols to trade, or a bucket strategy whose [longs] and
    [shorts] are present with only sizable entries. *)

Definition runnable (symbols : list string) (strat : Strategy) : bool :=
  if is_pair_breakout strat then
    match pair_symbols symbols strat with
    | _ :: _ :: _ => true
    | _ => false
    end
  else
    match longs strat, shorts strat with
    | Some ls, Some ss =>
        forallb sized ls && forallb sized ss
    | _, _ => false
    end.

(** *** compute_metrics *)

(** The max-drawdown loop of [compute_metrics] in [backtest/engine.py]
    (lines 449-456), on a NAV series that has a first element: the running
    peak starts at it, and a peak of zero makes [v / peak] raise. *)
Fixpoint drawdown_loop (nav_series : list Q) (peak mdd : Q) : result Q :=
  match nav_series with
  | [] => Ok mdd
  | v :: rest =>
      let peak := if Qltb peak v then v else peak in
      if Qeqb peak 0 then Raise ZeroDivisionError
      else
        let dd := (v / peak - 1)%Q in
        drawdown_loop rest peak (if Qltb dd mdd then dd else mdd)
  end.

Definition max_drawdown (v0 : Q) (rest : list Q) : result Q :=
  drawdown_loop (v0 :: rest) v0 0%Q.

(** The entries of the [metrics] dict that [compute_metrics] works out;
    the counters and totals of the loop complete it.  [m_cagr] is [None]
    when the power of a negative ratio is a complex number. *)
Record Metrics : Type := mkMetrics {
  m_start_nav_usd : Q;
  m_final_nav_usd : Q;
  m_total_return : Q;
  m_cagr : option Q;
  m_sharpe : Q;
  m_max_drawdown : Q;
  m_steps : Z;
  m_duration_days : Q
}.

(** The step returns: one per step that starts from a positive NAV. *)
Fixpoint step_rets (nav_series : list Q) : list Q :=
  match nav_series with
  | prev :: (cur :: _) as rest =>
      if Qltb 0 prev then (cur / prev - 1)%Q :: step_rets rest
      else step_rets rest
  | _ => []
  end.

(** The positive gaps between successive timestamps. *)
Fixpoint ts_deltas (ts_series : list Z) : list Z :=
  match ts_series with
  | a :: (b :: _) as rest =>
      if a <? b then (b - a) :: ts_deltas rest else ts_deltas rest
  | _ => []
  end.

Definition year_sec : Z := 365 * 24 * 3600.

(** [json.dump(metrics, ...)] refuses a complex number. *)
Definition json_dump (m : option Metrics) : result unit :=
  match m with
  | Some mt =>
      match m_cagr mt with
      | Some _ => Ok tt
      | None => Raise (TypeError "Object of type complex is not JSON serializable")
      end
  | None => Ok tt
  end.

Section Loop.

Variable ln : Q -> Q.
Variable sqrt : Q -> Q.

(** [x ** y] on floats: a float, a complex number ([None]) for a negative
    base under a fractional exponent, or an [OverflowError]. *)
Variable pow : Q -> Q -> result (option Q).

(** [compute_metrics].  [backtest] appends to [nav_series] and [ts_series]
    together, so the subscripts on [ts_series] succeed where those on
    [nav_series] do. *)
Definition compute_metrics (nav_series : list Q) (ts_series : list Z)
    : result (option Metrics) :=
  match nav_series with
  | start_nav :: _ :: _ =>
      let end_nav := default start_nav (last nav_series) in
      let total_return :=
        if Qltb 0 start_nav then (end_nav / start_nav - 1)%Q else 0%Q in
      let duration_sec :=
        Z.max 1 (default 0 (last ts_series) - default 0 (head ts_series)) in
      cagr ← (if Qltb 0 start_nav then
                p ← pow (end_nav / start_nav)
                      (inject_Z year_sec / inject_Z duration_sec);
                Ok (option_map (fun v => (v - 1)%Q) p)
              else Ok (Some 0%Q));
      let rets := step_rets nav_series in
      let deltas := ts_deltas ts_series in
      let avg_dt :=
        if (2 <=? length ts_series)%nat && (0 <? length deltas)%nat
        then (inject_Z (foldr Z.add 0%Z deltas) / Qlen deltas)%Q
        else 3600%Q in
      let steps_per_year := (inject_Z year_sec / Qmax 1 avg_dt)%Q in
      let sharpe :=
        if (2 <=? length rets)%nat then
          let m := (Qsum rets / Qlen rets)%Q in
          let var := (Qsum (map (fun x => Qsq (x - m)) rets) / (Qlen rets - 1))%Q in
          let std := sqrt (Qmax var 0) in
          if Qltb 0 std then (m / std * sqrt steps_per_year)%Q else 0%Q
        else 0%Q in
      mdd ← drawdown_loop nav_series start_nav 0%Q;
      Ok (Some (mkMetrics start_nav end_nav total_return cagr sharpe mdd
                  (Z.of_nat (length nav_series))
                  (inject_Z duration_sec / 86400)))
  | _ => Ok None
  end.

(** Targets and guards of one rebalance: the [if]/[else] on the strategy
    type.  A pair strategy with fewer than two symbols leaves [final]
    unbound, and the next line reads it. *)
Definition targets_and_guards (symbols : list string) (strat : Strategy)
    (cfg : Config) (st : BtState)
    : result (gmap string Z * option Meta * PairState
              * gmap (string * string) (list Q)) :=
  if is_pair_breakout strat then
    match pair_symbols symbols strat with
    | symA :: symB :: _ =>
        let '(raw_targets, meta_info, state', hist') :=
          compute_targets_pair_breakout ln sqrt (st_nav st) (st_last_px st)
            (st_ret_hist st) symA symB (default no_params (params strat))
            cfg (st_pair_state st) (st_spread_hist st) in
        Ok ((apply_guards (st_nav st) (st_pos st) raw_targets cfg).2,
            Some meta_info, state', hist')
    | _ => Raise (UnboundLocalError "final")
    end
  else
    tf ← guard_and_targets (st_nav st) (st_pos st) strat cfg;
    Ok (tf.2, None, st_pair_state st, st_spread_hist st).

(** The body of [for ts in timeline]. *)
Definition step (symbols : list string) (rows funding : gmap Z (gmap string Q))
    (strat : Strategy) (cfg : Config) (st : BtState) (ts : Z)
    : result BtState :=
  let row := default ∅ (rows !! ts) in
  pr ← apply_returns symbols row (st_last_px st) (st_pos st) 0 (st_ret_hist st);
  let '(pnl, ret_hist) := pr in
  let nav := st_nav st + pnl in
  let last_px := row ∪ st_last_px st in
  let funding_usd :=
    match funding !! ts with
    | Some f => funding_of (st_pos st) f
    | None => 0%Q
    end in
  let nav :=
    match funding !! ts with
    | Some _ => nav + Qint (funding_usd * E6q)
    | None => nav
    end in
  let total_funding :=
    match funding !! ts with
    | Some _ => (st_total_funding_usd st + funding_usd)%Q
    | None => st_total_funding_usd st
    end in
  let st1 :=
    mkBtState nav (st_pos st) last_px (st_last_rebal_ts st) ret_hist
      (st_spread_hist st) (st_pair_state st) (st_total_fee_usd st)
      total_funding (st_total_gross_turnover_e6 st) (st_rebalances st)
      (st_rebalances_with_trades st) (st_equity st) in
  let emit (s : BtState) (gross_e6 : Z) (fee_usd : Q) (note : string) :=
    mkBtState (st_nav s) (st_pos s) (st_last_px s) (st_last_rebal_ts s)
      (st_ret_hist s) (st_spread_hist s) (st_pair_state s)
      (st_total_fee_usd s) (st_total_funding_usd s)
      (st_total_gross_turnover_e6 s) (st_rebalances s)
      (st_rebalances_with_trades s)
      (st_equity s ++
       [mkEquityRow ts (nav_usd (st_nav s)) gross_e6 fee_usd funding_usd note]) in
  if cooldown_elapsed (st_last_rebal_ts st) ts cfg then
    tg ← targets_and_guards symbols strat cfg st1;
    let '(final, meta_info, pstate, shist) := tg in
    let st2 :=
      mkBtState nav (st_pos st) last_px (st_last_rebal_ts st) ret_hist
        shist pstate (st_total_fee_usd st) total_funding
        (st_total_gross_turnover_e6 st) (st_rebalances st)
        (st_rebalances_with_trades st) (st_equity st) in
    let gross_e6 := gross_turnover (st_pos st) final in
    let skip_neutral :=
      match meta_info with
      | Some m =>
          bool_decide (meta_regime m = neutral) && (nav >? 0)
          && Qltb 0 (neutralSkipBps m)
          && Qltb (inject_Z (gross_bps gross_e6 nav)) (neutralSkipBps m)
      | None => false
      end in
    if skip_neutral then Ok (emit st2 gross_e6 0%Q "skip_neutral_drift")
    else if Qltb 0 (rebalanceThresholdBps cfg) && (nav >? 0)
            && Qltb (inject_Z (gross_bps gross_e6 nav)) (rebalanceThresholdBps cfg)
    then Ok (emit st2 gross_e6 0%Q "skip_threshold")
    else
      let costs_bps := ((feeBps cfg + slipBps cfg) / 10000)%Q in
      let fee_usd := (inject_Z gross_e6 / E6q * costs_bps)%Q in
      let st3 :=
        mkBtState (nav - Qint (fee_usd * E6q)) (final ∪ st_pos st) last_px
          (Some ts) ret_hist shist pstate
          (st_total_fee_usd st + fee_usd)%Q total_funding
          (st_total_gross_turnover_e6 st + gross_e6)
          (st_rebalances st + 1)
          (if gross_e6 >? 0 then st_rebalances_with_trades st + 1
           else st_rebalances_with_trades st)
          (st_equity st) in
      Ok (emit st3 gross_e6 fee_usd "rebalance")
  else Ok (emit st1 0 0%Q "").

Fixpoint run (symbols : list string) (rows funding : gmap Z (gmap string Q))
    (strat : Strategy) (cfg : Config) (timeline : list Z) (st : BtState)
    : result BtState :=
  match timeline with
  | [] => Ok st
  | ts :: rest =>
      st' ← step symbols rows funding strat cfg st ts;
      run symbols rows funding strat cfg rest st'
  end.

Definition initial_state (symbols : list string) (start_nav_usd : Q) : BtState :=
  mkBtState (Qint (start_nav_usd * E6q))
    (list_to_map (map (fun s => (s, 0)) symbols)) ∅ None
    (list_to_map (map (fun s => (s, [])) symbols)) ∅
    initial_pair_state 0%Q 0%Q 0 0 0 [].

(** [backtest] up to the end of its loop (lines 282-409). *)
Definition backtest_loop (prices : list PriceRow) (strat : Strategy)
    (cfg : Config) (start_nav_usd : Q) : result BtState :=
  let symbols := symbols_of prices in
  let rows := rows_by_ts_of prices in
  run symbols rows (funding_bps_by_ts_of prices) strat cfg (timeline_of rows)
    (initial_state symbols start_nav_usd).

(** [backtest]: the loop, then the metrics of the equity curve and their
    dump.  The result is the final state, whose NAV is the [final_nav_usd]
    of the returned dict, and the metrics ([None] for the empty dict).
    Creating and writing the report files is left out. *)
Definition backtest (prices : list PriceRow) (strat : Strategy) (cfg : Config)
    (start_nav_usd : Q) : result (BtState * option Metrics) :=
  st ← backtest_loop prices strat cfg start_nav_usd;
  m ← compute_metrics (map row_nav_usd (st_equity st))
        (map row_ts (st_equity st));
  _ ← json_dump m;
  Ok (st, m).

(** The [final_nav_usd] entry of the returned dict. *)
Definition final_nav_usd (st : BtState) : Q := nav_usd (st_nav st).

End Loop.

End Backtest.

(** ** decimal.Decimal under the default context *)

Module Dec.

(** Significant digits of the default context. *)
Definition prec : Z := 28.

(** Number of decimal digits of a positive integer. *)
Fixpoint ndigits_fuel (fuel : nat) (n : Z) : Z :=
  match fuel with
  | O => 1
  | S f => if n <? 10 then 1 else 1 + ndigits_fuel f (n / 10)
  end.

Definition ndigits (n : Z) : Z := ndigits_fuel (Z.to_nat (Z.log2 n)) n.

(** [n / d * 10 ^ (- e)] as a numerator and a denominator. *)
Definition shifted (n d e : Z) : Z * Z :=
  if e <? 0 then (n * 10 ^ (- e), d) else (n, d * 10 ^ e).

(** The exponent [e] of the last kept digit of [n / d], for [n, d > 0]:
    [10 ^ (prec - 1) <= n / d * 10 ^ (- e) < 10 ^ prec]. *)
Definition exponent_of (n d : Z) : Z :=
  let e1 := ndigits n - ndigits d - prec in
  let '(N, D) := shifted n d e1 in
  if 10 ^ prec * D <=? N then e1 + 1 else e1.

(** ROUND_HALF_EVEN of [N / D] to an integer, for [N >= 0], [D > 0]. *)
Definition half_even (N D : Z) : Z :=
  let f := N / D in
  let r := N mod D in
  if 2 * r <? D then f
  else if D <? 2 * r then f + 1
  else if Z.even f then f else f + 1.

Definition of_mantissa (m e : Z) : Q :=
  if e <? 0 then Qred (m # Z.to_pos (10 ^ (- e))) else inject_Z (m * 10 ^ e).

(** The value a result is rounded to: 28 significant digits, half-even.
    Exponent limits (the context's Emax and Emin) are out of reach of the
    values of this program and are not modelled. *)
Definition round (q : Q) : Q :=
  let q := Qred q in
  let n := Z.abs (Qnum q) in
  let d := Zpos (Qden q) in
  if n =? 0 then 0%Q
  else
    let e := exponent_of n d in
    let '(N, D) := shifted n d e in
    of_mantissa (Z.sgn (Qnum q) * half_even N D) e.

Definition add (x y : Q) : Q := round (x + y).
Definition sub (x y : Q) : Q := round (x - y).
Definition mul (x y : Q) : Q := round (x * y).
(** Only called behind a test that [y] is not zero. *)
Definition div (x y : Q) : Q := round (x / y).

(** A value that the context represents without rounding. *)
Definition exact (q : Q) : Prop := (round q == q)%Q.

(** Two values within a factor [f] of each other. *)
Definition close (f x y : Q) : Prop := (x <= y * f)%Q /\ (y <= x * f)%Q.

(** The factor of one rounding: one plus the relative spacing of 28
    significant digits. *)
Definition spacing : Q := 1 + (1 # 1000000000000000000000000000).

(** A relative distance that a dozen roundings stay within. *)
Definition tolerance : Q := 1 # 10000000000000000000000000.

(** [y] is [x] times a ratio between [1 / f] and [f]: the two have the same
    sign and are within a factor [f] of each other. *)
Definition near (f x y : Q) : Prop :=
  exists t : Q, (y == x * t)%Q /\ (1 <= t * f)%Q /\ (t <= f)%Q.

(** The largest cancellation [(|x| + |y|) / |x + y|] of a sum that the
    tolerance is stated for. *)
Definition max_cancellation : Q := 1000000000000000000000000.

End Dec.

(** ** hl-vix-etf/core *)

Module Etf.

(** *** vault.py *)

(** [positions_usd] is created with both keys and no code path removes
    one, so a subscript on it reads through [pos_of].  Prices reach the
    vault through [Decimal(str(x))], the exact value of the decimal literal
    that prints [x]; special values (NaN, infinities) are not modelled. *)
Record Vault : Type := mkVault {
  cash : Q;
  positions_usd : gmap string Q;
  total_shares : Q;
  last_px : gmap string Q
}.

Definition new_Vault (cash_usd : Q) : Vault :=
  mkVault cash_usd {[ "BTC"%string := 0%Q; "ETH"%string := 0%Q ]} 10000%Q ∅.

Definition pos_of (v : Vault) (asset : string) : Q :=
  default 0%Q (positions_usd v !! asset).

(** One of the two [if] blocks of [nav]: the cash after the PnL of
    [asset] since its last price has been accrued. *)
Definition accrue (asset : string) (px : Q) (v : Vault) (c : Q) : Q :=
  match last_px v !! asset with
  | Some lp =>
      if Qltb 0 lp then
        let qty := if negb (Qeqb lp 0) then Dec.div (pos_of v asset) lp else 0%Q in
        Dec.add c (Dec.mul qty (Dec.sub px lp))
      else c
  | None => c
  end.

Definition nav (v : Vault) (pxs : Q * Q) : Q * Vault :=
  let '(btc_px, eth_px) := pxs in
  let c := accrue "ETH" eth_px v (accrue "BTC" btc_px v (cash v)) in
  (c, mkVault c (positions_usd v) (total_shares v)
        (<[ "ETH"%string := eth_px ]> (<[ "BTC"%string := btc_px ]> (last_px v)))).

Definition price_per_share (v : Vault) (pxs : Q * Q) : Q * Vault :=
  if negb (Qeqb (total_shares v) 0) then
    let '(n, v') := nav v pxs in (Dec.div n (total_shares v'), v')
  else (0%Q, v).

Definition deposit (v : Vault) (usd : Q) (pxs : Q * Q) : Q * Vault :=
  let '(_, v1) := nav v pxs in
  let '(pps, v2) :=
    if Qltb 0 (total_shares v1) then price_per_share v1 pxs else (1%Q, v1) in
  let shares := if negb (Qeqb pps 0) then Dec.div usd pps else usd in
  (shares,
   mkVault (Dec.add (cash v2) usd) (positions_usd v2)
     (Dec.add (total_shares v2) shares) (last_px v2)).

Definition withdraw (v : Vault) (shares : Q) (pxs : Q * Q) : Q * Vault :=
  let '(pps, v1) := price_per_share v pxs in
  let usd := Dec.mul shares pps in
  (usd,
   mkVault (Dec.sub (cash v1) usd) (positions_usd v1)
     (Dec.sub (total_shares v1) shares) (last_px v1)).

(** The vault was last marked at the prices [(b, e)]. *)
Definition settled (v : Vault) (b e : Q) : Prop :=
  last_px v !! "BTC"%string = Some b /\ last_px v !! "ETH"%string = Some e.

(** The quotients and sums of a deposit of [usd] at prices [pxs] that the
    decimal context represents without rounding: the NAV, the price per
    share, the shares minted, the new cash and the new share count. *)
Definition deposit_exact (v : Vault) (usd : Q) (pxs : Q * Q) : Prop :=
  let n := (nav v pxs).1 in
  let pps := (n / total_shares v)%Q in
  let shares := (usd / pps)%Q in
  Dec.exact n /\ Dec.exact pps /\ Dec.exact shares
  /\ Dec.exact (n + usd) /\ Dec.exact (total_shares v + shares).

(** *** strategy.py *)

Definition targets_mode_a (nav w_btc w_eth L_base : Q) : Q * Q * Q :=
  let L := L_base in
  ((nav * L * w_btc)%Q, (nav * L * w_eth)%Q, L).

Definition eps6 : Q := 1 # 1000000.
Definition eps9 : Q := 1 # 1000000000.


Definition sign_of (s : Q) : Q := if Qleb 0 s then 1%Q else (-1)%Q.

Definition inv_vol (sig : Q) : Q :=
  if Qltb 0 sig then (1 / Qmax sig eps9)%Q else 0%Q.

Definition risk_parity_weights (sig_b sig_e sign_b sign_e : Q) : Q * Q :=
  let inv_b := inv_vol sig_b in
  let inv_e := inv_vol sig_e in
  let wB_raw := (inv_b * sign_of sign_b)%Q in
  let wE_raw := (inv_e * sign_of sign_e)%Q in
  let s := (Qabs wB_raw + Qabs wE_raw)%Q in
  if Qeqb s 0 then (1 # 2, - (1 # 2))%Q
  else ((wB_raw / s)%Q, (wE_raw / s)%Q).




(** *** risk_guard.py *)

(** The messages of the leverage and slippage errors interpolate the
    offending numbers; the embedding keeps their fixed part. *)
Definition check_leverage (target_b target_e nav L_max : Q) : result unit :=
  if Qleb nav 0 then Raise (ValueError "NAV must be positive")
  else
    let lev := ((Qabs target_b + Qabs target_e) / nav)%Q in
    if Qltb L_max lev then Raise (ValueError "leverage exceeds cap")
    else Ok tt.

Definition check_asset_caps (target_b target_e nav cap : Q) : result unit :=
  let limit := (cap * nav)%Q in
  if Qltb limit (Qabs target_b) then
    Raise (ValueError "BTC target exceeds per-asset cap")
  else if Qltb limit (Qabs target_e) then
    Raise (ValueError "ETH target exceeds per-asset cap")
  else Ok tt.

(** *** The adapter: the market and execution collaborator *)

Inductive Side : Type := BUY | SELL.

(** The duck-typed adapter object, over its own state [A].  Every call
    may raise; [place_order_usd] also moves the adapter's state and
    returns the [new_pos_usd] entry of its answer. *)
Class Adapter (A : Type) : Type := {
  get_prices : A -> result (Q * Q);
  get_funding_bp_day : A -> result (Q * Q);
  estimate_slippage_bps : A -> string -> Q -> result Z;
  place_order_usd : A -> string -> Side -> Q -> result (Q * A)
}.

Definition check_slippage {A} `{Adapter A} (a : A) (asset : string)
    (delta_usd : Q) (cap_bps : Z) : result Z :=
  bps ← estimate_slippage_bps a asset delta_usd;
  if bps >? cap_bps then Raise (ValueError "slippage exceeds cap")
  else Ok bps.

(** *** index_calc.py and index_store.py *)

Record IndexCalculator : Type := mkIndex {
  alpha : Q;
  beta : Q;
  kF : Q;
  ix_last_px : gmap string Q;
  ewma_var : gmap string Q;
  ewma_fund : gmap string Q
}.

Definition new_IndexCalculator : IndexCalculator :=
  mkIndex (1 # 10) (2 # 10) 8 ∅
    {[ "BTC"%string := 0%Q; "ETH"%string := 0%Q ]}
    {[ "BTC"%string := 0%Q; "ETH"%string := 0%Q ]}.

Definition getq (m : gmap string Q) (k : string) : Q := default 0%Q (m !! k).

Section Index.

Variable ln : Q -> Q.
Variable sqrt : Q -> Q.

(** [math.log] and [math.sqrt] raise outside their domain. *)
Definition py_log (x : Q) : result Q :=
  if Qleb x 0 then Raise (ValueError "math domain error") else Ok (ln x).

Definition py_sqrt (x : Q) : result Q :=
  if Qltb x 0 then Raise (ValueError "math domain error") else Ok (sqrt x).

(** The first loop of [update]: seed a missing or non-positive last price. *)
Definition seed_px (asset : string) (px : Q) (m : gmap string Q) : gmap string Q :=
  match m !! asset with
  | Some lp => if Qleb lp 0 then <[ asset := px ]> m else m
  | None => <[ asset := px ]> m
  end.

Definition log_return (px lp : Q) : result Q :=
  if Qltb 0 lp then py_log (px / lp) else Ok 0%Q.

Definition update (ix : IndexCalculator) (pxs fund_bps_day : Q * Q) (wB wE : Q)
    : result (Q * IndexCalculator) :=
  let '(btc_px, eth_px) := pxs in
  let '(fb, fe) := fund_bps_day in
  let lp := seed_px "ETH" eth_px (seed_px "BTC" btc_px (ix_last_px ix)) in
  r_b ← log_return btc_px (getq lp "BTC");
  r_e ← log_return eth_px (getq lp "ETH");
  let a := alpha ix in
  let var :=
    <[ "ETH"%string := ((1 - a) * getq (ewma_var ix) "ETH" + a * (r_e * r_e))%Q ]>
      (<[ "BTC"%string := ((1 - a) * getq (ewma_var ix) "BTC" + a * (r_b * r_b))%Q ]>
         (ewma_var ix)) in
  let b := beta ix in
  let fund :=
    <[ "ETH"%string :=
         ((1 - b) * getq (ewma_fund ix) "ETH" + b * Qsq (fe / 10000))%Q ]>
      (<[ "BTC"%string :=
            ((1 - b) * getq (ewma_fund ix) "BTC" + b * Qsq (fb / 10000))%Q ]>
         (ewma_fund ix)) in
  let lp' := <[ "ETH"%string := eth_px ]> (<[ "BTC"%string := btc_px ]> lp) in
  let w_sum := (Qabs wB + Qabs wE)%Q in
  let wBn := if Qeqb w_sum 0 then (1 # 2)%Q else (Qabs wB / w_sum)%Q in
  let wEn := if Qeqb w_sum 0 then (1 # 2)%Q else (Qabs wE / w_sum)%Q in
  let v := (wBn * getq var "BTC" + wEn * getq var "ETH")%Q in
  let f := (wBn * getq fund "BTC" + wEn * getq fund "ETH")%Q in
  vix ← py_sqrt (Qmax (v + kF ix * f) 0);
  Ok ((100 * vix)%Q, mkIndex (alpha ix) (beta ix) (kF ix) lp' var fund).

Definition get_sigmas (ix : IndexCalculator) : result (Q * Q) :=
  sb ← py_sqrt (getq (ewma_var ix) "BTC");
  se ← py_sqrt (getq (ewma_var ix) "ETH");
  Ok (sb, se).

End Index.

(** *** engine.py *)

(** The [cfg] dict of [config.json]. *)
Record EtfConfig : Type := mkEtfConfig {
  w_BTC : Q;
  w_ETH : Q;
  L_base : Q;
  L_max : Q;
  asset_cap : Q;
  min_trade_frac : Q;
  slippage_cap_bps : Z
}.

Inductive Mode : Type := ModeA | ModeB.

(** The result row, without the columns that echo the arguments ([slot],
    [rebalance_mode], the three caps of [cfg]), read the clock ([ts],
    [latency_ms]), are left blank ([portvol_ewma], [vol_track_err_pp]) or
    repeat other columns ([delta_residual]). *)
Record Row : Type := mkRow {
  nav_before : Q;
  hl_vix14 : Q;
  L_used : Q;
  btc_px : Q;
  eth_px : Q;
  btc_pos_usd_before : Q;
  eth_pos_usd_before : Q;
  btc_target_usd : Q;
  eth_target_usd : Q;
  btc_delta_usd : Q;
  eth_delta_usd : Q;
  btc_order_usd : Q;
  eth_order_usd : Q;
  btc_slip_bps : option Z;
  eth_slip_bps : option Z;
  btc_pos_usd_after : Q;
  eth_pos_usd_after : Q;
  nav_after : Q;
  funding_btc_bp_day : Q;
  funding_eth_bp_day : Q;
  fund_residual_bp_day : Q;
  orders_count_btc : Z;
  orders_count_eth : Z;
  min_trade_usd : Q;
  status : string;
  err_reason : string
}.

(** [str(e)] *)
Definition str_of_exn (e : exn) : string :=
  match e with
  | ValueError m => m
  | KeyError k => k
  | ZeroDivisionError => "float division by zero"
  | UnboundLocalError n => n
  | NotImplementedError => ""
  | AttributeError m => m
  | AdapterError m => m
  | TypeError m => m
  | OverflowError => "(34, 'Numerical result out of range')"
  end.

(** The local variables of the trading loop. *)
Record Trade (A : Type) : Type := mkTrade {
  t_adapter : A;
  t_vault : Vault;
  ord_b : Q;
  ord_e : Q;
  slp_b : option Z;
  slp_e : option Z;
  orders_b : Z;
  orders_e : Z;
  pos_b_after : Q;
  pos_e_after : Q;
  t_status : string;
  t_err_reason : string
}.
Arguments mkTrade {A}.
Arguments t_adapter {A}.
Arguments t_vault {A}.
Arguments ord_b {A}.
Arguments ord_e {A}.
Arguments slp_b {A}.
Arguments slp_e {A}.
Arguments orders_b {A}.
Arguments orders_e {A}.
Arguments pos_b_after {A}.
Arguments pos_e_after {A}.
Arguments t_status {A}.
Arguments t_err_reason {A}.

Definition set_position (v : Vault) (asset : string) (p : Q) : Vault :=
  mkVault (cash v) (<[ asset := p ]> (positions_usd v)) (total_shares v) (last_px v).

(** The proxy volatility and the leverage of Mode B (lines 69-72). *)
Definition proxy_vol_pct (sqrt : Q -> Q) (wB wE sig_b sig_e : Q) : Q :=
  (100 * sqrt (Qsq (wB * sig_b) + Qsq (wE * sig_e)))%Q.

Definition mode_b_leverage (L_max v_target_pct v_proxy_pct : Q) : Q :=
  Qmin L_max (Qmax v_target_pct 0 / Qmax v_proxy_pct eps6).

Section Engine.

Context {A : Type} `{Adapter A}.
Variable ln : Q -> Q.
Variable sqrt : Q -> Q.

(** One pass of [for i in range(chunks)]: slippage check, order, tallies.
    The first exception ends the loop of this asset; what earlier chunks
    did stays done. *)
Definition chunk (is_btc : bool) (asset : string) (part : Q) (cap_bps : Z)
    (dry_run : bool) (t : Trade A) : Trade A * option exn :=
  match check_slippage (t_adapter t) asset part cap_bps with
  | Raise e => (t, Some e)
  | Ok slp =>
      let t1 :=
        if is_btc then
          mkTrade (t_adapter t) (t_vault t) (ord_b t) (ord_e t) (Some slp)
            (slp_e t) (orders_b t) (orders_e t) (pos_b_after t)
            (pos_e_after t) (t_status t) (t_err_reason t)
        else
          mkTrade (t_adapter t) (t_vault t) (ord_b t) (ord_e t) (slp_b t)
            (Some slp) (orders_b t) (orders_e t) (pos_b_after t)
            (pos_e_after t) (t_status t) (t_err_reason t) in
      let side := if Qltb 0 part then BUY else SELL in
      let placed : result (Trade A) :=
        if dry_run then Ok t1
        else
          match place_order_usd (t_adapter t1) asset side (Qabs part) with
          | Raise e => Raise e
          | Ok (new_pos, a') =>
              Ok (if is_btc then
                    mkTrade a' (set_position (t_vault t1) "BTC" new_pos)
                      (ord_b t1) (ord_e t1) (slp_b t1) (slp_e t1)
                      (orders_b t1) (orders_e t1) new_pos (pos_e_after t1)
                      (t_status t1) (t_err_reason t1)
                  else
                    mkTrade a' (set_position (t_vault t1) "ETH" new_pos)
                      (ord_b t1) (ord_e t1) (slp_b t1) (slp_e t1)
                      (orders_b t1) (orders_e t1) (pos_b_after t1) new_pos
                      (t_status t1) (t_err_reason t1))
          end in
      match placed with
      | Raise e => (t1, Some e)
      | Ok t2 =>
          (if is_btc then
             mkTrade (t_adapter t2) (t_vault t2) (ord_b t2 + Qabs part)%Q
               (ord_e t2) (slp_b t2) (slp_e t2) (orders_b t2 + 1)
               (orders_e t2) (pos_b_after t2) (pos_e_after t2)
               (t_status t2) (t_err_reason t2)
           else
             mkTrade (t_adapter t2) (t_vault t2) (ord_b t2)
               (ord_e t2 + Qabs part)%Q (slp_b t2) (slp_e t2) (orders_b t2)
               (orders_e t2 + 1) (pos_b_after t2) (pos_e_after t2)
               (t_status t2) (t_err_reason t2),
           None)
      end
  end.

Fixpoint chunks_loop (n : nat) (is_btc : bool) (asset : string) (part : Q)
    (cap_bps : Z) (dry_run : bool) (t : Trade A) : Trade A * option exn :=
  match n with
  | O => (t, None)
  | S n' =>
      match chunk is_btc asset part cap_bps dry_run t with
      | (t', Some e) => (t', Some e)
      | (t', None) => chunks_loop n' is_btc asset part cap_bps dry_run t'
      end
  end.

(** The body of [for asset, delta, px in ...], with its [try]/[except]. *)
Definition trade_asset (is_btc : bool) (asset : string) (delta min_trade : Q)
    (cap_bps : Z) (dry_run : bool) (t : Trade A) : Trade A :=
  if Qltb (Qabs delta) min_trade then t
  else
    let chunks := if Qleb (Qabs delta) 5000 then 1%nat else 3%nat in
    let part := (delta / inject_Z (Z.of_nat chunks))%Q in
    match chunks_loop chunks is_btc asset part cap_bps dry_run t with
    | (t', None) => t'
    | (t', Some e) =>
        let sep := if bool_decide (t_err_reason t' = ""%string)
                   then ""%string else "; "%string in
        mkTrade (t_adapter t') (t_vault t') (ord_b t') (ord_e t') (slp_b t')
          (slp_e t') (orders_b t') (orders_e t') (pos_b_after t')
          (pos_e_after t') "ERROR"
          (t_err_reason t' +:+ sep +:+ asset +:+ ": " +:+ str_of_exn e)
    end.

(** The two adapter calls of the opening [try]. *)
Definition fetch (a : A) : result ((Q * Q) * (Q * Q)) :=
  pxs ← get_prices a;
  fs ← get_funding_bp_day a;
  Ok (pxs, fs).

(** The placeholder prices of the error row. *)
Definition placeholder_pxs : Q * Q := (60000%Q, 2400%Q).

(** Targets and leverage of the selected mode: [(tb, te, L)]. *)
Definition targets_of (mode : Mode) (ix : IndexCalculator) (cfg : EtfConfig)
    (nav_before hl_vix14 : Q) (v_target_override : option Q)
    : result (Q * Q * Q) :=
  match mode with
  | ModeB =>
      sg ← get_sigmas sqrt ix;
      let '(sig_b, sig_e) := sg in
      let '(wB, wE) :=
        risk_parity_weights sig_b sig_e (sign_of (w_BTC cfg)) (sign_of (w_ETH cfg)) in
      let v_proxy_pct := proxy_vol_pct sqrt wB wE sig_b sig_e in
      let v_target_pct := default hl_vix14 v_target_override in
      let L := mode_b_leverage (L_max cfg) v_target_pct v_proxy_pct in
      Ok ((nav_before * L * wB)%Q, (nav_before * L * wE)%Q, L)
  | ModeA => Ok (targets_mode_a nav_before (w_BTC cfg) (w_ETH cfg) (L_base cfg))
  end.

(** [engine_tick]: the row, and the vault, index and adapter it leaves.
    An exception that no [try] of the function catches is a [Raise]. *)
Definition engine_tick (a : A) (vault : Vault) (index : IndexCalculator)
    (cfg : EtfConfig) (mode : Mode) (dry_run : bool)
    (v_target_override : option Q)
    : result (Row * Vault * IndexCalculator * A) :=
  match fetch a with
  | Raise e =>
      let '(nav_before, vault') := nav vault placeholder_pxs in
      Ok (mkRow nav_before 0 (L_base cfg) 0 0 0 0 0 0 0 0 0 0 None None 0 0
            nav_before 0 0 0 0 0 (nav_before * min_trade_frac cfg)%Q
            "ERROR" (str_of_exn e),
          vault', index, a)
  | Ok ((btc_px, eth_px), (fb, fe)) =>
      upd ← update ln sqrt index (btc_px, eth_px) (fb, fe) (w_BTC cfg) (w_ETH cfg);
      let '(hl_vix14, index') := upd in
      let '(nav_before, vault1) := nav vault (btc_px, eth_px) in
      let pos_b := pos_of vault1 "BTC" in
      let pos_e := pos_of vault1 "ETH" in
      tg ← targets_of mode index' cfg nav_before hl_vix14 v_target_override;
      let '(tb, te, L) := tg in
      let dB := (tb - pos_b)%Q in
      let dE := (te - pos_e)%Q in
      match (_ ← check_leverage tb te nav_before (L_max cfg);
             check_asset_caps tb te nav_before (asset_cap cfg)) with
      | Raise e =>
          Ok (mkRow nav_before hl_vix14 L btc_px eth_px pos_b pos_e tb te dB dE
                0 0 None None pos_b pos_e nav_before fb fe 0 0 0
                (nav_before * min_trade_frac cfg)%Q "ERROR" (str_of_exn e),
              vault1, index', a)
      | Ok _ =>
          let min_trade :=
            if Qltb 0 nav_before then (nav_before * min_trade_frac cfg)%Q
            else 0%Q in
          let cap_bps := slippage_cap_bps cfg in
          let t0 := mkTrade a vault1 0%Q 0%Q None None 0 0 pos_b pos_e "OK" "" in
          let t1 := trade_asset true "BTC" dB min_trade cap_bps dry_run t0 in
          let t2 := trade_asset false "ETH" dE min_trade cap_bps dry_run t1 in
          let '(nav_after, vault2) := nav (t_vault t2) (btc_px, eth_px) in
          let fund_residual :=
            (10000 * Qabs (pos_b_after t2 * fb / 10000 + pos_e_after t2 * fe / 10000)
             / Qmax nav_after eps9)%Q in
          Ok (mkRow nav_before hl_vix14 L btc_px eth_px pos_b pos_e tb te dB dE
                (ord_b t2) (ord_e t2) (slp_b t2) (slp_e t2) (pos_b_after t2)
                (pos_e_after t2) nav_after fb fe fund_residual (orders_b t2)
                (orders_e t2) min_trade (t_status t2) (t_err_reason t2),
              vault2, index', t_adapter t2)
      end
  end.

End Engine.

(** The stub of [adapter_hypercore.py]: every call raises
    [NotImplementedError]; it has no [get_funding_bp_day] at all. *)
#[global] Instance hypercore_stub : Adapter unit := {
  get_prices := fun _ => Raise NotImplementedError;
  get_funding_bp_day := fun _ =>
    Raise (AttributeError "'Adapter' object has no attribute 'get_funding_bp_day'");
  estimate_slippage_bps := fun _ _ _ => Raise NotImplementedError;
  place_order_usd := fun _ _ _ _ => Raise NotImplementedError
}.

(** [adapters/mock_adapter.py] *)
Record MockAdapter : Type := mkMock {
  m_prices : Q * Q;
  m_funding_bp_day : Q * Q;
  m_pos_usd : gmap string Q;
  m_cash_usd : Q
}.

Definition new_MockAdapter : MockAdapter :=
  mkMock (60000%Q, 2400%Q) (4%Q, (-5)%Q)
    {[ "BTC"%string := 10800%Q; "ETH"%string := (-7920)%Q ]} 10000%Q.

Definition mock_slippage (delta_usd : Q) : Z :=
  let a := Qabs delta_usd in
  if Qleb a 1000 then 5
  else if Qleb a 5000 then 12
  else if Qleb a 20000 then 25
  else 35.

Definition mock_place (m : MockAdapter) (asset : string) (side : Side)
    (delta_usd : Q) : Q * MockAdapter :=
  let filled := Qabs delta_usd in
  let p := getq (m_pos_usd m) asset in
  let p' := match side with BUY => (p + filled)%Q | SELL => (p - filled)%Q end in
  (p', mkMock (m_prices m) (m_funding_bp_day m) (<[ asset := p' ]> (m_pos_usd m))
         (m_cash_usd m)).

#[global] Instance mock_adapter : Adapter MockAdapter := {
  get_prices := fun m => Ok (m_prices m);
  get_funding_bp_day := fun m => Ok (m_funding_bp_day m);
  estimate_slippage_bps := fun _ _ d => Ok (mock_slippage d);
  place_order_usd := fun m asset side d => Ok (mock_place m asset side d)
}.

End Etf.

(** ** Summary statistics of [hl-vix-etf/main.py] *)

Module Metrics.

(** [s[k]] on a list, with Python's negative indices; [None] is the
    [IndexError] of an index out of range. *)
Definition py_index {A} (s : list A) (k : Z) : option A :=
  if (0 <=? k) && (k <? Z.of_nat (length s)) then s !! Z.to_nat k
  else if (k <? 0) && (- Z.of_nat (length s) <=? k)
       then s !! Z.to_nat (Z.of_nat (length s) + k)
  else None.

(** [_percentile] of [hl-vix-etf/main.py]. *)
Definition _percentile (vals : list Z) (p : Q) : option Z :=
  match vals with
  | [] => Some 0
  | _ =>
      let s := merge_sort Z.le vals in
      let k := Qint (p / 100 * inject_Z (Z.of_nat (length s) - 1)) in
      py_index s k
  end.

End Metrics.

(** ** Concrete inputs used by the examples below *)

Module Scenarios.

Import Backtest.

(** Whole dollars on the fixed-point scale. *)
Definition usd (n : Z) : Z := n * E6.

(** A book with one dust-sized target next to two large ones. *)
Definition dust_targets : gmap string Z :=
  {[ "BTC"%string := usd 200000; "ETH"%string := - usd 200000;
     "SOL"%string := 1 ]}.

(** Two longs and one short, each beyond the default cap. *)
Definition lopsided_targets : gmap string Z :=
  {[ "BTC"%string := usd 300000; "ETH"%string := usd 300000;
     "SOL"%string := - usd 300000 ]}.

(** A bucket strategy that carries a [type] key and whose longs sum to
    6000 bps. *)
Definition typed_bucket : Strategy :=
  mkStrategy (Some "fixed_bucket"%string)
    (Some [alloc "BTC" 6000]) (Some [alloc "ETH" 10000])
    None None.

(** The same strategy without the [type] key. *)
Definition untyped_bucket : Strategy :=
  mkStrategy None
    (Some [alloc "BTC" 6000]) (Some [alloc "ETH" 10000])
    None None.

(** A bucket without a [type] whose two longs are 5000.9 bps each. *)
Definition fractional_bucket : Strategy :=
  mkStrategy None
    (Some [mkAlloc (Some "BTC"%string) (Some (JNum (50009 # 10)));
           mkAlloc (Some "SOL"%string) (Some (JNum (50009 # 10)))])
    (Some [alloc "ETH" 10000]) None None.

(** The strategy of the two-symbol scenario of the specification. *)
Definition btc_eth_bucket : Strategy :=
  mkStrategy None
    (Some [alloc "BTC" 10000]) (Some [alloc "ETH" 10000])
    None None.

(** [Config(turnoverCapBps=10000, cooldownSeconds=0, leverage=1.0)]: the
    fields the scenario leaves out keep their dataclass defaults. *)
Definition scenario_config : Config :=
  mkConfig 10000 50000%Q default_perSymbolMaxUSD 0 5%Q 10%Q 1%Q 0%Q.

(** The scenario with the per-symbol caps lifted to 1,000,000 USD. *)
Definition scenario_config_wide : Config :=
  mkConfig 10000 50000%Q {[ "default"%string := 1000000%Q ]} 0 5%Q 10%Q 1%Q 0%Q.

(** The default config without costs. *)
Definition free_config : Config :=
  mkConfig 1000 50000%Q default_perSymbolMaxUSD 3600 0%Q 0%Q 1%Q 0%Q.

(** Two hourly bars of constant prices, without funding. *)
Definition flat_prices : list PriceRow :=
  [ (0, "BTC"%string, 60000%Q, 0%Q); (0, "ETH"%string, 2400%Q, 0%Q);
    (3600, "BTC"%string, 60000%Q, 0%Q); (3600, "ETH"%string, 2400%Q, 0%Q) ].

Definition flat_price_of (s : string) : Q :=
  if bool_decide (s = "BTC"%string) then 60000%Q else 2400%Q.

(** Two bars of a symbol quoted at zero. *)
Definition zero_prices : list PriceRow :=
  [ (0, "BTC"%string, 0%Q, 0%Q); (3600, "BTC"%string, 0%Q, 0%Q) ].

(** One symbol only, at a constant positive price. *)
Definition single_prices : list PriceRow :=
  [ (0, "BTC"%string, 60000%Q, 0%Q); (3600, "BTC"%string, 60000%Q, 0%Q) ].

Definition pair_strategy : Strategy :=
  mkStrategy (Some "pair_neutral_breakout"%string) None None None None.

(** Stand-ins for [math.log] and [math.sqrt] where a run needs neither. *)
Definition no_log (x : Q) : Q := 0%Q.
Definition no_sqrt (x : Q) : Q := 0%Q.

(** A stand-in for [**] that is right on a base of 1. *)
Definition no_pow (x y : Q) : result (option Q) := Ok (Some 1%Q).

(** The vault after a fill of 3,000 USD of BTC marked at 30,000. *)
Definition marked_vault : Etf.Vault :=
  Etf.mkVault 10000%Q {[ "BTC"%string := 3000%Q; "ETH"%string := 0%Q ]} 10000%Q
    {[ "BTC"%string := 30000%Q; "ETH"%string := 2400%Q ]}.

(** A [cfg] dict: 60/40 long-short weights, base leverage 1, leverage cap 3. *)
Definition etf_config : Etf.EtfConfig :=
  Etf.mkEtfConfig (6 # 10) (- (4 # 10)) 1 3 2 (1 # 1000) 50.

Definition market : Q * Q := (60000%Q, 2400%Q).

(** A long held for five evaluations, entered at a NAV of 1,000,000 USD. *)
Definition held_long : PairState := mkPairState long 5 (Some (usd 1000000)).

(** Both prices of the pair, and nothing else. *)
Definition pair_prices : gmap string Q :=
  {[ "BTC"%string := 60000%Q; "ETH"%string := 2400%Q ]}.

(** An index that has seen the mock prices once. *)
Definition seen_index : Etf.IndexCalculator :=
  Etf.mkIndex (1 # 10) (2 # 10) 8
    {[ "BTC"%string := 60000%Q; "ETH"%string := 2400%Q ]}
    {[ "BTC"%string := 0%Q; "ETH"%string := 0%Q ]}
    {[ "BTC"%string := 0%Q; "ETH"%string := 0%Q ]}.

(** The mock adapter after [nudge_prices(btc=0)]. *)
Definition halted_mock : Etf.MockAdapter :=
  Etf.mkMock (0%Q, 2400%Q) (4%Q, (-5)%Q)
    {[ "BTC"%string := 10800%Q; "ETH"%string := (-7920)%Q ]} 10000%Q.

Definition flat_btc_eth : gmap string Z :=
  {[ "BTC"%string := 0; "ETH"%string := 0 ]}.

Definition scenario_targets : gmap string Z :=
  {[ "BTC"%string := usd 1000000; "ETH"%string := - usd 1000000 ]}.

Definition scenario_final : gmap string Z :=
  {[ "BTC"%string := usd 500000; "ETH"%string := - usd 500000 ]}.

End Scenarios.

(** * Properties *)

(** ** Arithmetic of the Python primitives *)

Lemma Qint_inject_Z (z : Z) : Qint (inject_Z z) = z.
Proof. unfold Qint. simpl. apply Z.quot_1_r. Qed.

Lemma Qint_Qeq (x y : Q) : (x == y)%Q -> Qint x = Qint y.
Proof.
  intros Hxy. unfold Qint. destruct x as [a b], y as [c d]. unfold Qeq in Hxy.
  simpl in *.
  assert (Hb : 0 < Z.pos b) by lia. assert (Hd : 0 < Z.pos d) by lia.
  rewrite <- (Z.quot_mul_cancel_r a (Z.pos b) (Z.pos d)) by lia.
  rewrite Hxy.
  rewrite (Z.mul_comm (Z.pos b) (Z.pos d)).
  rewrite Z.quot_mul_cancel_r by lia. reflexivity.
Qed.

Lemma Qint_zero (x : Q) : (x == 0)%Q -> Qint x = 0.
Proof. intros Hx. rewrite (Qint_Qeq _ _ Hx). reflexivity. Qed.

Lemma Qltb_lt (x y : Q) : Qltb x y = true <-> (x < y)%Q.
Proof.
  unfold Qltb. rewrite negb_true_iff. split.
  - intros Hb. apply Qnot_le_lt. intros Hle.
    apply Qle_bool_iff in Hle. congruence.
  - intros Hlt. destruct (Qle_bool y x) eqn:E; [|reflexivity].
    apply Qle_bool_iff in E. apply Qlt_not_le in Hlt. contradiction.
Qed.

Lemma Qltb_ge (x y : Q) : Qltb x y = false <-> (y <= x)%Q.
Proof.
  unfold Qltb. rewrite negb_false_iff. apply Qle_bool_iff.
Qed.

Lemma Qleb_le (x y : Q) : Qleb x y = true <-> (x <= y)%Q.
Proof. apply Qle_bool_iff. Qed.

Lemma Qleb_gt (x y : Q) : Qleb x y = false <-> (y < x)%Q.
Proof.
  unfold Qleb. split.
  - intros Hb. apply Qnot_le_lt. intros Hle. apply Qle_bool_iff in Hle. congruence.
  - intros Hlt. destruct (Qle_bool x y) eqn:E; [|reflexivity].
    apply Qle_bool_iff in E. apply Qlt_not_le in Hlt. contradiction.
Qed.

Lemma Qeqb_eq (x y : Q) : Qeqb x y = true <-> (x == y)%Q.
Proof. apply Qeq_bool_iff. Qed.

Lemma Qeqb_neq (x y : Q) : Qeqb x y = false <-> ~ (x == y)%Q.
Proof.
  unfold Qeqb. split.
  - intros Hb Heq. apply Qeq_bool_iff in Heq. congruence.
  - intros Hne. destruct (Qeq_bool x y) eqn:E; [|reflexivity].
    apply Qeq_bool_iff in E. contradiction.
Qed.

(** ** Sums over a dict *)

Lemma sum_values_empty : sum_values ∅ = 0.
Proof. unfold sum_values. apply map_fold_empty. Qed.

Lemma sum_values_insert (m : gmap string Z) (i : string) (x : Z) :
  m !! i = None -> sum_values (<[ i := x ]> m) = x + sum_values m.
Proof.
  intros Hi. unfold sum_values.
  rewrite map_fold_insert_L; [reflexivity | | assumption].
  intros. lia.
Qed.

Lemma sum_values_shift (m : gmap string Z) (adj : Z) :
  sum_values ((fun t => t - adj) <$> m) = sum_values m - Z.of_nat (size m) * adj.
Proof.
  induction m as [|i x m Hi IH] using map_ind.
  - rewrite fmap_empty, sum_values_empty, map_size_empty. lia.
  - rewrite fmap_insert.
    rewrite !sum_values_insert by (rewrite ?lookup_fmap, ?Hi; reflexivity).
    rewrite IH, map_size_insert_None by assumption. lia.
Qed.



Lemma map_imap_id_on (f : string -> Z -> option Z) (m : gmap string Z) :
  (forall i x, m !! i = Some x -> f i x = Some x) -> map_imap f m = m.
Proof.
  intros Hf. apply map_eq. intros i. rewrite map_lookup_imap.
  destruct (m !! i) as [x|] eqn:E; simpl; [apply Hf; assumption | reflexivity].
Qed.

(** ** The guard pipeline and the loader of [backtest/engine.py] *)

Module GuardFacts.

Import Backtest Scenarios.

Lemma lookup_cap_stage (targets : gmap string Z) (cfg : Config) (s : string) :
  cap_stage targets cfg !! s = (fun t => clamp_target s t cfg) <$> targets !! s.
Proof.
  unfold cap_stage. rewrite map_lookup_imap. destruct (targets !! s); reflexivity.
Qed.

Lemma lookup_deltas_of (current targets : gmap string Z) (s : string) :
  deltas_of current targets !! s = (fun t => t - get0 current s) <$> targets !! s.
Proof.
  unfold deltas_of. rewrite map_lookup_imap. destruct (targets !! s); reflexivity.
Qed.

Lemma lookup_turnover_stage (nav : Z) (current targets : gmap string Z)
    (cfg : Config) (s : string) :
  turnover_stage nav current targets cfg !! s =
  (fun t =>
     get0 current s +
     ((t - get0 current s)
      * (scale_of (gross_of (deltas_of current targets)) (gmax_of nav cfg)).1)
     / (scale_of (gross_of (deltas_of current targets)) (gmax_of nav cfg)).2)
  <$> targets !! s.
Proof.
  unfold turnover_stage.
  destruct (scale_of _ _) as [num den]. simpl.
  rewrite map_lookup_imap, lookup_deltas_of.
  destruct (targets !! s); reflexivity.
Qed.

(** A scaled delta keeps the direction of the raw one and never exceeds it. *)
Lemma scaled_delta_bounds (d gmax gross : Z) :
  0 <= gmax -> gmax < gross ->
  (0 < d -> 0 <= (d * gmax) / gross <= d) /\
  (d < 0 -> d <= (d * gmax) / gross <= 0 /\ (0 < gmax -> (d * gmax) / gross < 0)).
Proof.
  intros Hg Hlt. split.
  - intros Hd. split.
    + apply Z.div_pos; nia.
    + apply Z.div_le_upper_bound; nia.
  - intros Hd. repeat split.
    + apply Z.div_le_lower_bound; nia.
    + assert ((d * gmax) / gross <= 0 / gross) as Hle
        by (apply Z.div_le_mono; nia).
      rewrite Z.div_0_l in Hle by lia. exact Hle.
    + intros Hpos. apply Z.div_lt_upper_bound; nia.
Qed.

(** C3, as amended.  When the turnover cap scales the trades of a book with
    a non-negative cap [gmax], no per-symbol delta changes direction or
    grows: a positive raw delta yields a final delta between zero and the
    raw one (it may be floored to zero), a negative raw delta yields a final
    delta between the raw one and zero, strictly negative when [gmax] is
    positive. *)
Theorem turnover_scaling_keeps_direction (nav : Z) (current targets : gmap string Z)
    (cfg : Config) (s : string) (t f : Z) :
  scaling_active (gross_of (deltas_of current (guarded_targets targets cfg)))
                 (gmax_of nav cfg) = true ->
  0 <= gmax_of nav cfg ->
  (apply_guards nav current targets cfg).1 !! s = Some t ->
  (apply_guards nav current targets cfg).2 !! s = Some f ->
  let rawDelta := t - get0 current s in
  let finalDelta := f - get0 current s in
  (0 < rawDelta -> 0 <= finalDelta <= rawDelta) /\
  (rawDelta < 0 ->
   rawDelta <= finalDelta <= 0 /\ (0 < gmax_of nav cfg -> finalDelta < 0)).
Proof.
  intros Hact Hg Ht Hf. simpl in Ht, Hf.
  rewrite lookup_turnover_stage, Ht in Hf. simpl in Hf.
  unfold scale_of in Hf. rewrite Hact in Hf. simpl in Hf.
  injection Hf as <-.
  unfold scaling_active in Hact. apply andb_prop in Hact as [H1 H2].
  apply Z.gtb_lt in H1.
  intros rawDelta finalDelta.
  assert (finalDelta
          = (rawDelta * gmax_of nav cfg)
            / gross_of (deltas_of current (guarded_targets targets cfg))) as ->
    by (subst finalDelta rawDelta; lia).
  apply scaled_delta_bounds; assumption.
Qed.

(** The amended C3 applied to the short leg of [dust_targets]. *)
Lemma turnover_scaling_keeps_direction_witness :
  (apply_guards (usd 1000000) ∅ dust_targets default_Config).2 !! "ETH"%string
  = Some (- 50000000000)
  /\ - usd 200000 <= - 50000000000 - 0 <= 0.
Proof.
  split; [vm_compute; reflexivity|].
  pose proof (turnover_scaling_keeps_direction (usd 1000000) ∅ dust_targets
                default_Config "ETH" (- usd 200000) (- 50000000000)) as H.
  destruct H as [_ H]; try (vm_compute; reflexivity).
  - vm_compute. discriminate.
  - apply H. vm_compute. reflexivity.
Defined.

(** C3 as stated fails: with the default config, NAV 1,000,000 USD and no
    open position, the turnover cap is active on [dust_targets], the raw
    delta of SOL is 1 (sign +1) and its final delta is 0 (sign 0). *)
Lemma turnover_scaling_loses_sign :
  scaling_active
    (gross_of (deltas_of ∅ (guarded_targets dust_targets default_Config)))
    (gmax_of (usd 1000000) default_Config) = true
  /\ (apply_guards (usd 1000000) ∅ dust_targets default_Config).1 !! "SOL"%string
     = Some 1
  /\ (apply_guards (usd 1000000) ∅ dust_targets default_Config).2 !! "SOL"%string
     = Some 0
  /\ Z.sgn (1 - get0 ∅ "SOL") = 1
  /\ Z.sgn (0 - get0 ∅ "SOL") = 0.
Proof. repeat split; vm_compute; reflexivity. Qed.

(** *** Idempotence of the guarded target map *)

Lemma fmap_sub_zero (m : gmap string Z) : (fun t => t - 0) <$> m = m.
Proof.
  rewrite <- (map_fmap_id m) at 2. apply map_fmap_ext. intros. simpl. lia.
Qed.







(** *** load_strategy *)

Lemma sum_bps_numeric (arr : list Alloc) :
  Forall numeric arr -> sum_bps arr = Ok (bps_int_total arr).
Proof.
  induction 1 as [|x rest Hx _ IH]; [reflexivity|].
  cbn [sum_bps bps_int_total foldr]. rewrite IH.
  unfold numeric, bps_number in *.
  destruct (bps x) as [[q|]|]; [reflexivity | destruct Hx; discriminate | reflexivity].
Qed.

Lemma sum_bps_null (arr : list Alloc) :
  Exists (fun x => bps x = Some JNull) arr -> is_ok (sum_bps arr) = false.
Proof.
  induction arr as [|x rest IH]; intros Hex; [inversion Hex|].
  cbn [sum_bps]. destruct (bps x) as [[q|]|] eqn:E; cbn.
  - apply Exists_cons in Hex as [Hx|Hr]; [congruence|].
    specialize (IH Hr). destruct (sum_bps rest); [discriminate | reflexivity].
  - reflexivity.
  - apply Exists_cons in Hex as [Hx|Hr]; [congruence|].
    specialize (IH Hr). destruct (sum_bps rest); [discriminate | reflexivity].
Qed.

Lemma bps_total_integral (arr : list Alloc) :
  Forall integral arr -> (inject_Z (bps_int_total arr) == bps_total arr)%Q.
Proof.
  induction 1 as [|x rest Hx _ IH]; [reflexivity|].
  unfold bps_total, bps_int_total in *. cbn [map foldr Qsum].
  rewrite inject_Z_plus, IH.
  unfold integral in Hx. destruct (bps_number x) as [q|]; [|contradiction].
  cbn [default]. rewrite <- Hx. reflexivity.
Qed.

Lemma integral_numeric (arr : list Alloc) :
  Forall integral arr -> Forall numeric arr.
Proof.
  intros H. eapply Forall_impl; [exact H|].
  intros x. unfold integral, numeric.
  destruct (bps_number x); [eauto | contradiction].
Qed.

(** What [load_strategy] does with a strategy without a [type] key whose
    bps are numbers. *)
Lemma load_strategy_untyped (s : Strategy) :
  s_type s = None ->
  Forall numeric (default [] (longs s)) ->
  Forall numeric (default [] (shorts s)) ->
  load_strategy s
  = if (bps_int_total (default [] (longs s)) =? 10000)
       && (bps_int_total (default [] (shorts s)) =? 10000)
    then Ok s
    else Raise (ValueError "bps sum must be 10000 each for longs and shorts").
Proof.
  intros Hty Hl Hs. unfold load_strategy. rewrite Hty.
  rewrite (sum_bps_numeric _ Hl). cbn [mbind result_bind].
  destruct (bps_int_total (default [] (longs s)) =? 10000); [|reflexivity].
  rewrite (sum_bps_numeric _ Hs). cbn [mbind result_bind].
  destruct (bps_int_total (default [] (shorts s)) =? 10000); reflexivity.
Qed.

(** C5, as amended.  What [load_strategy] checks on a strategy without a
    [type] key are the integer parts of the bps: with numbers for bps (an
    absent list or key counting as 0) it returns the strategy unchanged
    exactly when the integer parts of the bps of [longs] and of [shorts]
    each sum to 10000, and raises the [ValueError] otherwise.  When every
    bps is a whole number this is the claim: the strategy loads exactly
    when the bps of each list sum to 10000.  A [null] bps makes the loader
    raise.  A strategy that carries a [type] key is returned unchanged
    without any check. *)
Theorem load_strategy_checks_untyped (s : Strategy) :
  (s_type s = None ->
   Forall numeric (default [] (longs s)) ->
   Forall numeric (default [] (shorts s)) ->
   (load_strategy s = Ok s
    <-> bps_int_total (default [] (longs s)) = 10000
        /\ bps_int_total (default [] (shorts s)) = 10000)
   /\ (load_strategy s = Ok s
       \/ load_strategy s
          = Raise (ValueError "bps sum must be 10000 each for longs and shorts")))
  /\ (s_type s = None ->
      Forall integral (default [] (longs s)) ->
      Forall integral (default [] (shorts s)) ->
      (load_strategy s = Ok s
       <-> (bps_total (default [] (longs s)) == 10000)%Q
           /\ (bps_total (default [] (shorts s)) == 10000)%Q))
  /\ (s_type s = None ->
      Exists (fun x => bps x = Some JNull) (default [] (longs s)) ->
      is_ok (load_strategy s) = false)
  /\ (s_type s <> None -> load_strategy s = Ok s).
Proof.
  assert (Hnum : s_type s = None ->
            Forall numeric (default [] (longs s)) ->
            Forall numeric (default [] (shorts s)) ->
            (load_strategy s = Ok s
             <-> bps_int_total (default [] (longs s)) = 10000
                 /\ bps_int_total (default [] (shorts s)) = 10000)
            /\ (load_strategy s = Ok s
                \/ load_strategy s
                   = Raise (ValueError "bps sum must be 10000 each for longs and shorts"))).
  { intros Hty Hl Hs. rewrite (load_strategy_untyped s Hty Hl Hs).
    destruct (bps_int_total (default [] (longs s)) =? 10000) eqn:E1;
      [apply Z.eqb_eq in E1 | apply Z.eqb_neq in E1];
      (destruct (bps_int_total (default [] (shorts s)) =? 10000) eqn:E2;
       [apply Z.eqb_eq in E2 | apply Z.eqb_neq in E2]);
      cbn [andb].
    - split; [|left; reflexivity].
      split; [intros _; split; assumption | reflexivity].
    - split; [|right; reflexivity].
      split; [discriminate | intros [_ H2]; contradiction].
    - split; [|right; reflexivity].
      split; [discriminate | intros [H1 _]; contradiction].
    - split; [|right; reflexivity].
      split; [discriminate | intros [H1 _]; contradiction]. }
  split; [exact Hnum|]. split; [|split].
  - intros Hty Hl Hs.
    destruct (Hnum Hty (integral_numeric _ Hl) (integral_numeric _ Hs)) as [Hiff _].
    rewrite Hiff.
    rewrite <- (bps_total_integral _ Hl), <- (bps_total_integral _ Hs).
    split.
    + intros [-> ->]. split; reflexivity.
    + intros [H1 H2]. unfold Qeq in H1, H2. simpl in H1, H2. lia.
  - intros Hty Hex. unfold load_strategy. rewrite Hty.
    pose proof (sum_bps_null _ Hex) as Hr.
    destruct (sum_bps (default [] (longs s))); [discriminate | reflexivity].
  - intros Hty. unfold load_strategy.
    destruct (s_type s); [reflexivity | contradiction].
Qed.

(** C5 as stated fails: [typed_bucket] is dispatched to the fixed-bucket
    path by [backtest], its longs sum to 6000 bps, and it loads; and
    [fractional_bucket], without a [type], loads with longs that sum to
    10001.8 bps. *)
Lemma load_strategy_accepts_typed_bucket :
  is_pair_breakout typed_bucket = false
  /\ sum_bps (default [] (longs typed_bucket)) = Ok 6000
  /\ load_strategy typed_bucket = Ok typed_bucket
  /\ is_ok (guard_and_targets (usd 1000000) flat_btc_eth typed_bucket
              default_Config) = true
  /\ s_type fractional_bucket = None
  /\ (bps_total (default [] (longs fractional_bucket)) == 100018 # 10)%Q
  /\ load_strategy fractional_bucket = Ok fractional_bucket.
Proof. repeat split; vm_compute; reflexivity. Qed.

(** *** The two-symbol scenario *)

Lemma clamp_target_within (sym : string) (t : Z) (cfg : Config) :
  - cap_of sym cfg <= t <= cap_of sym cfg -> clamp_target sym t cfg = t.
Proof.
  intros [Hlo Hhi]. unfold clamp_target.
  destruct (t >? cap_of sym cfg) eqn:E1; [apply Z.gtb_lt in E1; lia|].
  destruct (t <? - cap_of sym cfg) eqn:E2; [apply Z.ltb_lt in E2; lia|].
  reflexivity.
Qed.

Lemma center_stage_balanced (m : gmap string Z) (cfg : Config) :
  sum_values m = 0 -> center_stage m cfg = m.
Proof.
  intros Hsum. unfold center_stage. rewrite Hsum.
  destruct (_ >? _); [|reflexivity].
  rewrite Z.div_0_l by lia. apply fmap_sub_zero.
Qed.

Lemma unit_leverage_bucket (nav : Z) (cfg : Config) :
  (leverage cfg == 1)%Q -> Qint (inject_Z nav * leverage cfg) = nav.
Proof.
  intros Hlev. rewrite <- (Qint_inject_Z nav) at 2.
  apply Qint_Qeq. rewrite Hlev. ring.
Qed.

(** C8, as amended.  In the scenario (start NAV 1,000,000 USD, no open
    position, longs BTC 10000 bps, shorts ETH 10000 bps, leverage 1,
    turnoverCapBps 10000), provided the per-symbol caps of BTC and ETH are
    at least 1,000,000 USD, the first step computes the targets
    BTC +1,000,000 and ETH -1,000,000 exactly; the turnover cap of one NAV
    then halves the trades, so the positions adopted are +500,000 and
    -500,000. *)
Theorem scenario_first_step_targets (cfg : Config) :
  (leverage cfg == 1)%Q ->
  turnoverCapBps cfg = 10000 ->
  usd 1000000 <= cap_of "BTC" cfg ->
  usd 1000000 <= cap_of "ETH" cfg ->
  st_nav (initial_state ["BTC"; "ETH"]%string 1000000) = usd 1000000
  /\ st_pos (initial_state ["BTC"; "ETH"]%string 1000000) = flat_btc_eth
  /\ guard_and_targets (usd 1000000) flat_btc_eth btc_eth_bucket cfg
     = Ok (scenario_targets, scenario_final).
Proof.
  intros Hlev Hcap Hb He.
  split; [vm_compute; reflexivity|]. split; [vm_compute; reflexivity|].
  assert (Hraw : raw_bucket_targets (usd 1000000) btc_eth_bucket cfg
                 = Ok scenario_targets).
  { unfold raw_bucket_targets. cbv zeta.
    rewrite (unit_leverage_bucket _ _ Hlev). vm_compute. reflexivity. }
  unfold guard_and_targets. rewrite Hraw. simpl. f_equal.
  assert (Hg : guarded_targets scenario_targets cfg = scenario_targets).
  { unfold guarded_targets.
    assert (Hc : cap_stage scenario_targets cfg = scenario_targets).
    { apply map_imap_id_on. intros i x Hix. f_equal.
      apply clamp_target_within.
      unfold scenario_targets in Hix.
      apply lookup_insert_Some in Hix as [[<- <-]|[_ Hix]].
      - change (usd 1000000) with 1000000000000 in *. lia.
      - apply lookup_singleton_Some in Hix as [<- <-].
        change (usd 1000000) with 1000000000000 in *. lia. }
    rewrite Hc. apply center_stage_balanced. vm_compute. reflexivity. }
  unfold apply_guards. rewrite Hg. f_equal.
  unfold turnover_stage, gmax_of. rewrite Hcap. vm_compute. reflexivity.
Qed.

(** The amended C8 under the scenario's config with caps of 1,000,000 USD. *)
Lemma scenario_first_step_targets_witness :
  guard_and_targets (usd 1000000) flat_btc_eth btc_eth_bucket scenario_config_wide
  = Ok (scenario_targets, scenario_final).
Proof.
  apply (scenario_first_step_targets scenario_config_wide).
  - reflexivity.
  - reflexivity.
  - vm_compute. discriminate.
  - vm_compute. discriminate.
Defined.

(** C8 as stated fails: with the fields the scenario does not mention at
    their defaults, the per-symbol cap of 250,000 USD clamps both targets. *)
Lemma scenario_default_caps_clamp :
  guard_and_targets (usd 1000000) flat_btc_eth btc_eth_bucket scenario_config
  = Ok ({[ "BTC"%string := usd 250000; "ETH"%string := - usd 250000 ]},
        {[ "BTC"%string := usd 250000; "ETH"%string := - usd 250000 ]}).
Proof. vm_compute. reflexivity. Qed.

End GuardFacts.

(** ** The regime state machine of the pair strategy *)

Module RegimeFacts.

Import Backtest.

Lemma stop_or_tp_regime (nav entry : Z) (stop tp : Q) (r : Regime) (h : Z) :
  (stop_or_tp nav entry stop tp r h).1 = r
  \/ (stop_or_tp nav entry stop tp r h).1 = neutral.
Proof.
  unfold stop_or_tp.
  destruct (entry >? 0); [|left; reflexivity].
  destruct (_ && _); [right; reflexivity|].
  destruct (_ && _); [right; reflexivity | left; reflexivity].
Qed.

Lemma hold_or_exit_regime (z k_out : Q) (min_hold : Z) (rh : Regime * Z) :
  (hold_or_exit z k_out min_hold rh).1 = rh.1
  \/ (hold_or_exit z k_out min_hold rh).1 = neutral.
Proof.
  unfold hold_or_exit. destruct rh as [r h]. simpl.
  destruct (h <? min_hold); [left; reflexivity|].
  destruct (Qleb _ _); [right; reflexivity | left; reflexivity].
Qed.

(** From [long] or [short] one evaluation leads to the same regime or to
    [neutral]. *)
Lemma regime_step_from_position (nav : Z) (z k_in k_out : Q) (min_hold : Z)
    (stop tp : Q) (st : PairState) :
  regime st <> neutral ->
  regime (regime_step nav z k_in k_out min_hold stop tp st) = regime st
  \/ regime (regime_step nav z k_in k_out min_hold stop tp st) = neutral.
Proof.
  intros Hne. unfold regime_step.
  destruct (regime st) eqn:Er; [contradiction | |].
  - pose proof (stop_or_tp_regime nav (default nav (entry_nav_e6 st)) stop tp
                  long (hold st)) as H1.
    pose proof (hold_or_exit_regime z k_out min_hold
                  (stop_or_tp nav (default nav (entry_nav_e6 st)) stop tp
                     long (hold st))) as H2.
    destruct (hold_or_exit _ _ _ _) as [r h]. simpl in *.
    destruct H2 as [H2|H2]; [|right; assumption].
    rewrite H2. destruct H1 as [H1|H1]; [left|right]; assumption.
  - pose proof (stop_or_tp_regime nav (default nav (entry_nav_e6 st)) stop tp
                  short (hold st)) as H1.
    pose proof (hold_or_exit_regime z k_out min_hold
                  (stop_or_tp nav (default nav (entry_nav_e6 st)) stop tp
                     short (hold st))) as H2.
    destruct (hold_or_exit _ _ _ _) as [r h]. simpl in *.
    destruct H2 as [H2|H2]; [|right; assumption].
    rewrite H2. destruct H1 as [H1|H1]; [left|right]; assumption.
Qed.

Lemma regime_step_stays_neutral (nav : Z) (z k_in k_out : Q) (min_hold : Z)
    (stop tp : Q) (st : PairState) :
  regime st = neutral -> (- k_in < z)%Q -> (z < k_in)%Q ->
  regime (regime_step nav z k_in k_out min_hold stop tp st) = neutral.
Proof.
  intros Hr Hlo Hhi. unfold regime_step. rewrite Hr.
  assert (E1 : Qleb k_in z = false) by (apply Qleb_gt; assumption).
  assert (E2 : Qleb z (- k_in) = false) by (apply Qleb_gt; assumption).
  rewrite E1, E2, !andb_false_r. reflexivity.
Qed.

(** C6, as amended.  (1) Starting in [neutral], the regime stays [neutral]
    over any number of evaluations in which [-k_in < z < k_in] (a [z] at or
    below [-k_in] enters [short]).  (2) With [k_in > 0], an evaluation in
    [neutral] with [z >= k_in] enters [long] in that same evaluation, with
    the hold counter reset and the entry NAV recorded.  (3) No single
    evaluation takes [long] to [short] or [short] to [long]. *)
Theorem regime_machine (k_in k_out : Q) (min_hold : Z) (stop tp : Q) :
  (forall (steps : list (Z * Q)) (st : PairState),
     regime st = neutral ->
     Forall (fun nz => (- k_in < nz.2)%Q /\ (nz.2 < k_in)%Q) steps ->
     regime (regime_run k_in k_out min_hold stop tp steps st) = neutral)
  /\ (forall (nav : Z) (z : Q) (st : PairState),
        regime st = neutral -> (0 < k_in)%Q -> (k_in <= z)%Q ->
        regime_step nav z k_in k_out min_hold stop tp st
        = mkPairState long 0 (Some nav))
  /\ (forall (nav : Z) (z : Q) (st : PairState),
        (regime st = long ->
         regime (regime_step nav z k_in k_out min_hold stop tp st) <> short)
        /\ (regime st = short ->
            regime (regime_step nav z k_in k_out min_hold stop tp st) <> long)).
Proof.
  split; [|split].
  - intros steps. induction steps as [|[nav z] rest IH]; intros st Hr Hall.
    + exact Hr.
    + inversion Hall as [|? ? [Hlo Hhi] Hrest]; subst. simpl in *.
      apply IH; [|assumption].
      apply regime_step_stays_neutral; assumption.
  - intros nav z st Hr Hk Hz. unfold regime_step. rewrite Hr.
    assert (E1 : Qltb 0 k_in = true) by (apply Qltb_lt; assumption).
    assert (E2 : Qleb k_in z = true) by (apply Qleb_le; assumption).
    rewrite E1, E2. reflexivity.
  - intros nav z st. split; intros Hr.
    + destruct (regime_step_from_position nav z k_in k_out min_hold stop tp st)
        as [H|H]; rewrite ?Hr in *; congruence.
    + destruct (regime_step_from_position nav z k_in k_out min_hold stop tp st)
        as [H|H]; rewrite ?Hr in *; congruence.
Qed.

(** C6 as stated fails: with [k_in = 2], a first evaluation with
    [z = -3 < k_in] leaves [neutral] for [short]; and with [k_in = 0] an
    evaluation with [z = 0 >= k_in] stays [neutral]. *)
Lemma regime_below_k_in_enters_short :
  (-3 < 2)%Q
  /\ regime_step (10 ^ 12) (-3) 2 1 0 50 100 initial_pair_state
     = mkPairState short 0 (Some (10 ^ 12))
  /\ (0 <= 0)%Q
  /\ regime (regime_step (10 ^ 12) 0 0 1 0 50 100 initial_pair_state) = neutral.
Proof. repeat split; vm_compute; congruence. Qed.

End RegimeFacts.

(** ** NAV accounting of the backtest loop *)

Module BacktestFacts.

Import Backtest Scenarios.

Lemma flat_at_empty (c : string -> Q) : flat_at c ∅.
Proof. intros s px H. rewrite lookup_empty in H. discriminate. Qed.

Lemma flat_at_union (c : string -> Q) (m1 m2 : gmap string Q) :
  flat_at c m1 -> flat_at c m2 -> flat_at c (m1 ∪ m2).
Proof.
  intros H1 H2 s px Hs. apply lookup_union_Some_raw in Hs as [Hs|[_ Hs]].
  - apply (H1 s px Hs).
  - apply (H2 s px Hs).
Qed.

Lemma rows_fold_flat (c : string -> Q) (prices : list PriceRow)
    (m : gmap Z (gmap string Q)) :
  Forall (quiet c) prices ->
  (forall ts row, m !! ts = Some row -> flat_at c row) ->
  forall ts row,
    foldl (fun m r =>
             let '(ts, sym, px, _) := r in
             <[ ts := <[ sym := px ]> (default ∅ (m !! ts)) ]> m) m prices
    !! ts = Some row ->
    flat_at c row.
Proof.
  intros Hall. revert m.
  induction Hall as [|[[[ts0 sym] px] fb] rest Hq _ IH]; intros m Hm ts row.
  - simpl. apply Hm.
  - simpl. apply IH. clear ts row. intros ts row Hrow.
    destruct (decide (ts0 = ts)) as [->|Hne].
    + rewrite lookup_insert_eq in Hrow. injection Hrow as <-.
      intros s p Hs. destruct (decide (sym = s)) as [->|Hns].
      * rewrite lookup_insert_eq in Hs. injection Hs as <-.
        destruct Hq as (Hc & Hnz & _). simpl in *. split; assumption.
      * rewrite lookup_insert_ne in Hs by assumption.
        destruct (m !! ts) as [row0|] eqn:E; simpl in Hs.
        -- apply (Hm ts row0 E s p Hs).
        -- rewrite lookup_empty in Hs. discriminate.
    + rewrite lookup_insert_ne in Hrow by assumption. apply (Hm ts row Hrow).
Qed.

Lemma rows_by_ts_flat (c : string -> Q) (prices : list PriceRow) (ts : Z) :
  Forall (quiet c) prices ->
  flat_at c (default ∅ (rows_by_ts_of prices !! ts)).
Proof.
  intros Hall. destruct (rows_by_ts_of prices !! ts) as [row|] eqn:E; simpl.
  - apply (rows_fold_flat c prices ∅ Hall) with (ts := ts); [|exact E].
    intros ts' row' H. rewrite lookup_empty in H. discriminate.
  - apply flat_at_empty.
Qed.

Lemma funding_fold_quiet (c : string -> Q) (prices : list PriceRow)
    (m : gmap Z (gmap string Q)) :
  Forall (quiet c) prices ->
  foldl (fun m r =>
           let '(ts, sym, _, f_bps) := r in
           if Qeqb f_bps 0 then m
           else <[ ts := <[ sym := f_bps ]> (default ∅ (m !! ts)) ]> m) m prices
  = m.
Proof.
  intros Hall. revert m.
  induction Hall as [|[[[ts0 sym] px] fb] rest Hq _ IH]; intros m.
  - reflexivity.
  - simpl. destruct Hq as (_ & _ & Hf). simpl in Hf.
    apply Qeqb_eq in Hf. rewrite Hf. apply IH.
Qed.

Lemma funding_quiet (c : string -> Q) (prices : list PriceRow) :
  Forall (quiet c) prices -> funding_bps_by_ts_of prices = ∅.
Proof. intros Hall. apply (funding_fold_quiet c prices ∅ Hall). Qed.

(** With flat prices the return of every symbol is zero and books no PnL. *)
Lemma apply_returns_flat (c : string -> Q) (syms : list string)
    (row last_px : gmap string Q) (pos : gmap string Z) (pnl : Z)
    (ret_hist : gmap string (list Q)) :
  flat_at c row -> flat_at c last_px ->
  exists ret_hist',
    apply_returns syms row last_px pos pnl ret_hist = Ok (pnl, ret_hist').
Proof.
  intros Hrow Hlast. revert pnl ret_hist.
  induction syms as [|s rest IH]; intros pnl ret_hist.
  - eexists. reflexivity.
  - simpl. destruct (row !! s) as [px|] eqn:Er; [|apply IH].
    destruct (last_px !! s) as [lp|] eqn:El; [|apply IH].
    destruct (Hrow s px Er) as [Hpx Hpx0].
    destruct (Hlast s lp El) as [Hlp Hlp0].
    apply Qeqb_neq in Hlp0 as Hb. rewrite Hb.
    assert (Hret : (px / lp - 1 == 0)%Q).
    { rewrite Hpx, <- Hlp. field. assumption. }
    rewrite (Qint_zero (inject_Z (get0 pos s) * (px / lp - 1))).
    + rewrite Z.add_0_r. apply IH.
    + rewrite Hret. ring.
Qed.

Lemma fill_bucket_ok (sign bucket : Z) (arr : list Alloc) (targets : gmap string Z) :
  forallb sized arr = true ->
  exists m, fill_bucket sign bucket arr targets = Ok m.
Proof.
  revert targets. induction arr as [|x rest IH]; intros targets Hall.
  - eexists. reflexivity.
  - cbn [forallb fill_bucket] in *. apply andb_prop in Hall as [Hx Hrest].
    unfold sized in Hx.
    destruct (symbol x) as [sym|]; [|discriminate].
    destruct (bps x) as [[q|]|]; try discriminate.
    cbn [py_int mbind result_bind]. apply IH, Hrest.
Qed.

Section Run.

Variable ln : Q -> Q.
Variable sqrt : Q -> Q.

Lemma targets_and_guards_ok (symbols : list string) (strat : Strategy)
    (cfg : Config) (st : BtState) :
  runnable symbols strat = true ->
  exists tg, targets_and_guards ln sqrt symbols strat cfg st = Ok tg.
Proof.
  unfold runnable, targets_and_guards. intros Hrun.
  destruct (is_pair_breakout strat).
  - destruct (pair_symbols symbols strat) as [|a [|b l]]; try discriminate.
    destruct (compute_targets_pair_breakout _ _ _ _ _ _ _ _ _ _ _)
      as [[[raw meta] st'] hist]. eexists. reflexivity.
  - unfold guard_and_targets, raw_bucket_targets.
    destruct (longs strat) as [ls|]; [|discriminate].
    destruct (shorts strat) as [ss|]; [|discriminate].
    apply andb_prop in Hrun as [Hl Hs].
    destruct (fill_bucket_ok 1 (Qint (inject_Z (st_nav st) * leverage cfg)) ls ∅ Hl)
      as [m1 H1].
    rewrite H1. simpl.
    destruct (fill_bucket_ok (-1) (Qint (inject_Z (st_nav st) * leverage cfg)) ss m1 Hs)
      as [m2 H2].
    rewrite H2. simpl. eexists. reflexivity.
Qed.

Lemma no_cost_no_fee (cfg : Config) (gross_e6 : Z) :
  (feeBps cfg == 0)%Q -> (slipBps cfg == 0)%Q ->
  Qint (inject_Z gross_e6 / E6q * ((feeBps cfg + slipBps cfg) / 10000) * E6q) = 0.
Proof.
  intros Hfee Hslip. apply Qint_zero. rewrite Hfee, Hslip.
  unfold Qdiv. ring.
Qed.

(** One time step with flat prices, no funding and no costs returns and
    leaves the NAV where it was. *)
Lemma step_keeps_nav (c : string -> Q) (symbols : list string)
    (rows funding : gmap Z (gmap string Q)) (strat : Strategy) (cfg : Config)
    (st : BtState) (ts : Z) :
  funding !! ts = None ->
  flat_at c (default ∅ (rows !! ts)) ->
  flat_at c (st_last_px st) ->
  (feeBps cfg == 0)%Q -> (slipBps cfg == 0)%Q ->
  runnable symbols strat = true ->
  exists st',
    step ln sqrt symbols rows funding strat cfg st ts = Ok st'
    /\ st_nav st' = st_nav st
    /\ flat_at c (st_last_px st').
Proof.
  intros Hfund Hrow Hlast Hfee Hslip Hrun. unfold step.
  destruct (apply_returns_flat c symbols (default ∅ (rows !! ts)) (st_last_px st)
              (st_pos st) 0 (st_ret_hist st) Hrow Hlast) as [rh Happ].
  rewrite Happ. cbn [mbind result_bind]. rewrite Hfund, Z.add_0_r.
  pose proof (flat_at_union c _ _ Hrow Hlast) as Hflat.
  destruct (cooldown_elapsed (st_last_rebal_ts st) ts cfg).
  - match goal with
    | |- context [targets_and_guards ln sqrt symbols strat cfg ?s1] =>
        destruct (targets_and_guards_ok symbols strat cfg s1 Hrun) as [tg Htg];
        rewrite Htg
    end.
    cbn [mbind result_bind]. destruct tg as [[[final meta] pstate] shist].
    destruct (match meta with Some _ => _ | None => _ end).
    + eexists. split; [reflexivity|]. split; [reflexivity|]. exact Hflat.
    + destruct (_ && _ && _).
      * eexists. split; [reflexivity|]. split; [reflexivity|]. exact Hflat.
      * eexists. split; [reflexivity|]. cbn [st_nav st_last_px]. split.
        -- rewrite (no_cost_no_fee cfg _ Hfee Hslip). lia.
        -- exact Hflat.
  - eexists. split; [reflexivity|]. split; [reflexivity|]. exact Hflat.
Qed.

Lemma run_keeps_nav (c : string -> Q) (symbols : list string)
    (rows funding : gmap Z (gmap string Q)) (strat : Strategy) (cfg : Config)
    (timeline : list Z) (st : BtState) :
  funding = ∅ ->
  (forall ts, flat_at c (default ∅ (rows !! ts))) ->
  flat_at c (st_last_px st) ->
  (feeBps cfg == 0)%Q -> (slipBps cfg == 0)%Q ->
  runnable symbols strat = true ->
  exists st',
    run ln sqrt symbols rows funding strat cfg timeline st = Ok st'
    /\ st_nav st' = st_nav st.
Proof.
  intros -> Hrows Hlast Hfee Hslip Hrun. revert st Hlast.
  induction timeline as [|ts rest IH]; intros st Hlast.
  - eexists. split; reflexivity.
  - simpl.
    destruct (step_keeps_nav c symbols rows ∅ strat cfg st ts
                (lookup_empty ts) (Hrows ts) Hlast Hfee Hslip Hrun)
      as (st1 & Hstep & Hnav & Hflat).
    rewrite Hstep. cbn [mbind result_bind].
    destruct (IH st1 Hflat) as (st2 & Hrun2 & Hnav2).
    exists st2. split; [exact Hrun2 | congruence].
Qed.

End Run.

(** The loop keeps the NAV on flat prices: for every price series whose
    rows carry, per symbol, one constant nonzero price and zero funding,
    every strategy the loop can run and every config with [feeBps = 0] and
    [slipBps = 0], the loop of [backtest] completes and its final
    fixed-point NAV is the starting one, [int(start_nav_usd * 1e6)],
    whatever rebalances occurred. *)
Lemma backtest_loop_nav_round_trip (ln sqrt : Q -> Q) (c : string -> Q)
    (prices : list PriceRow) (strat : Strategy) (cfg : Config)
    (start_nav_usd : Q) :
  Forall (quiet c) prices ->
  (feeBps cfg == 0)%Q -> (slipBps cfg == 0)%Q ->
  runnable (symbols_of prices) strat = true ->
  exists st,
    backtest_loop ln sqrt prices strat cfg start_nav_usd = Ok st
    /\ st_nav st = Qint (start_nav_usd * E6q)
    /\ (final_nav_usd st == nav_usd (Qint (start_nav_usd * E6q)))%Q.
Proof.
  intros Hall Hfee Hslip Hrun. unfold backtest_loop.
  destruct (run_keeps_nav ln sqrt c (symbols_of prices) (rows_by_ts_of prices)
              (funding_bps_by_ts_of prices) strat cfg
              (timeline_of (rows_by_ts_of prices))
              (initial_state (symbols_of prices) start_nav_usd))
    as (st & Hst & Hnav); try assumption.
  - apply (funding_quiet c). assumption.
  - intros ts. apply rows_by_ts_flat. assumption.
  - apply flat_at_empty.
  - exists st. split; [exact Hst|]. split; [exact Hnav|].
    unfold final_nav_usd. rewrite Hnav. reflexivity.
Qed.

(** C7.  On constant prices, without fees, slippage or funding, [backtest]
    does not always reach a final NAV.  The pair strategy on a series with
    one symbol takes the branch [if len(syms) < 2: targets = {}], which
    binds [targets] but not [final], and the next line reads [final]: the
    first step raises [UnboundLocalError].  A price constant at zero makes
    the second bar divide by the last price.  And from a starting NAV of
    zero the loop completes on two flat bars with the NAV it started from,
    but [compute_metrics] then divides by the first NAV of the series in
    its max-drawdown loop, although it guards the same division for the
    total return and the CAGR ([if start_nav > 0 else 0.0]).  None of this
    depends on what [log], [sqrt] and [**] return. *)
Theorem backtest_raises_on_constant_prices (ln sqrt : Q -> Q)
    (pow : Q -> Q -> result (option Q)) :
  backtest ln sqrt pow single_prices pair_strategy free_config 1000000
  = Raise (UnboundLocalError "final")
  /\ backtest ln sqrt pow zero_prices btc_eth_bucket free_config 1000000
     = Raise ZeroDivisionError
  /\ (exists st,
        backtest_loop ln sqrt flat_prices btc_eth_bucket free_config 0 = Ok st
        /\ st_nav st = 0
        /\ map row_nav_usd (st_equity st) = [nav_usd 0; nav_usd 0])
  /\ backtest ln sqrt pow flat_prices btc_eth_bucket free_config 0
     = Raise ZeroDivisionError.
Proof.
  split; [vm_compute; reflexivity|]. split; [vm_compute; reflexivity|].
  split; [|vm_compute; reflexivity].
  eexists. split; [vm_compute; reflexivity|]. split; reflexivity.
Qed.

End BacktestFacts.

(** ** The vault, the solver and the guards of [hl-vix-etf] *)

Module EtfFacts.

Import Etf Scenarios.

(** *** The error path of [engine_tick] *)

(** Whatever adapter fails in the opening [try], the tick returns the error
    row and hands back the vault as [nav] leaves it at the placeholder
    prices; index and adapter are untouched. *)
Lemma engine_tick_on_fetch_error {A} `{Adapter A} (ln sqrt : Q -> Q) (a : A)
    (vault : Vault) (index : IndexCalculator) (cfg : EtfConfig) (mode : Mode)
    (dry_run : bool) (ov : option Q) (e : exn) :
  fetch a = Raise e ->
  exists row,
    engine_tick ln sqrt a vault index cfg mode dry_run ov
    = Ok (row, (nav vault placeholder_pxs).2, index, a)
    /\ status row = "ERROR"%string
    /\ nav_before row = (nav vault placeholder_pxs).1.
Proof.
  intros Hf. unfold engine_tick. rewrite Hf.
  destruct (nav vault placeholder_pxs) as [n v'].
  eexists. split; [reflexivity|]. split; reflexivity.
Qed.

(** C1 fails on the code.  The hypercore stub raises in [get_prices]; the
    tick on [marked_vault] (3,000 USD of BTC last marked at 30,000, cash
    10,000) answers with an ERROR row, yet the cash it leaves is 13,000 and
    the last BTC price 60,000: the placeholder prices of the error row were
    booked as a price move. *)
Lemma engine_tick_error_books_placeholder_pnl :
  fetch tt = Raise NotImplementedError
  /\ cash marked_vault = 10000%Q
  /\ last_px marked_vault !! "BTC"%string = Some 30000%Q
  /\ exists row v',
       engine_tick no_log no_sqrt tt marked_vault new_IndexCalculator etf_config
         ModeA false None
       = Ok (row, v', new_IndexCalculator, tt)
       /\ status row = "ERROR"%string
       /\ cash v' = 13000%Q
       /\ last_px v' !! "BTC"%string = Some 60000%Q
       /\ positions_usd v' = positions_usd marked_vault
       /\ total_shares v' = total_shares marked_vault.
Proof.
  split; [reflexivity|]. split; [reflexivity|]. split; [reflexivity|].
  eexists. eexists. split; [vm_compute; reflexivity|].
  repeat split; vm_compute; reflexivity.
Qed.

(** *** Degenerate arithmetic *)










(** *** The risk-parity solver and the leverage of Mode B *)








(** *** Deposits and the price per share *)

Lemma round_Qeq (x y : Q) : (x == y)%Q -> Dec.round x = Dec.round y.
Proof. intros H. unfold Dec.round. rewrite (Qred_complete x y H). reflexivity. Qed.

Lemma round_zero (x : Q) : (x == 0)%Q -> Dec.round x = 0%Q.
Proof. intros H. rewrite (round_Qeq x 0 H). reflexivity. Qed.

Lemma exact_Qeq (x y : Q) : (x == y)%Q -> Dec.exact x -> Dec.exact y.
Proof.
  unfold Dec.exact. intros Hxy Hx. rewrite <- (round_Qeq x y Hxy), Hx. exact Hxy.
Qed.

Lemma round_exact (x y : Q) : (x == y)%Q -> Dec.exact y -> (Dec.round x == y)%Q.
Proof. intros Hxy Hy. rewrite (round_Qeq x y Hxy). exact Hy. Qed.

(** Accruing an asset at the price it was last marked at books nothing. *)
Lemma accrue_settled (asset : string) (px : Q) (v : Vault) (c : Q) :
  last_px v !! asset = Some px -> Dec.exact c ->
  (accrue asset px v c == c)%Q.
Proof.
  intros Hlp Hc. unfold accrue. rewrite Hlp.
  destruct (Qltb 0 px); [|reflexivity].
  unfold Dec.add, Dec.mul, Dec.sub.
  rewrite (round_zero (px - px)) by ring.
  rewrite (round_zero (_ * 0)) by ring.
  apply round_exact; [ring | exact Hc].
Qed.

Lemma nav_first (v : Vault) (b e : Q) :
  (nav v (b, e)).1 = accrue "ETH" e v (accrue "BTC" b v (cash v)).
Proof. reflexivity. Qed.

Lemma nav_second (v : Vault) (b e : Q) :
  (nav v (b, e)).2
  = mkVault (nav v (b, e)).1 (positions_usd v) (total_shares v)
      (<[ "ETH"%string := e ]> (<[ "BTC"%string := b ]> (last_px v))).
Proof. reflexivity. Qed.

Lemma nav_settles (v : Vault) (b e : Q) : settled (nav v (b, e)).2 b e.
Proof.
  rewrite nav_second. split; simpl.
  - rewrite lookup_insert_ne by discriminate. apply lookup_insert_eq.
  - apply lookup_insert_eq.
Qed.

Lemma nav_settled (v : Vault) (b e : Q) :
  settled v b e -> Dec.exact (cash v) -> ((nav v (b, e)).1 == cash v)%Q.
Proof.
  intros [Hb He] Hc. rewrite nav_first.
  pose proof (accrue_settled "BTC" b v (cash v) Hb Hc) as H1.
  rewrite (accrue_settled "ETH" e v _ He).
  - exact H1.
  - apply (exact_Qeq (cash v)); [symmetry; exact H1 | exact Hc].
Qed.

Lemma price_per_share_settled (v : Vault) (b e : Q) :
  settled v b e -> Dec.exact (cash v) -> ~ (total_shares v == 0)%Q ->
  (price_per_share v (b, e)).1 = Dec.round (cash v / total_shares v)
  /\ ((nav v (b, e)).1 == cash v)%Q
  /\ (price_per_share v (b, e)).2 = (nav v (b, e)).2.
Proof.
  intros Hs Hc HT. unfold price_per_share.
  apply Qeqb_neq in HT as Hb. rewrite Hb. simpl negb. cbv iota.
  pose proof (nav_settled v b e Hs Hc) as Hn.
  destruct (nav v (b, e)) as [n v'] eqn:En.
  assert (HT' : total_shares v' = total_shares v)
    by (change v' with (n, v').2; rewrite <- En, nav_second; reflexivity).
  simpl in *. rewrite HT'. split; [|split; [exact Hn | reflexivity]].
  unfold Dec.div. apply round_Qeq. rewrite Hn. reflexivity.
Qed.

(** The exact case.  For a vault with shares outstanding and a nonzero NAV
    at the given prices, and a deposit [usd] that does not bring the NAV to
    zero, whenever the decimal context represents the quotients and sums of
    the deposit without rounding, the deposit mints [usd / pps] shares, adds
    [usd] to the cash, and the price per share at those prices is the same
    after the deposit as before it. *)
Lemma deposit_exact_preserves_pps (v : Vault) (usd : Q) (pxs : Q * Q) :
  (0 < total_shares v)%Q ->
  ~ ((nav v pxs).1 == 0)%Q ->
  ~ ((nav v pxs).1 + usd == 0)%Q ->
  deposit_exact v usd pxs ->
  let pps := (price_per_share v pxs).1 in
  ((deposit v usd pxs).1 == usd / pps)%Q
  /\ (cash (deposit v usd pxs).2 == (nav v pxs).1 + usd)%Q
  /\ (total_shares (deposit v usd pxs).2 == total_shares v + usd / pps)%Q
  /\ ((price_per_share (deposit v usd pxs).2 pxs).1 == pps)%Q.
Proof.
  destruct pxs as [b e]. intros HT Hn Hnu (En & Epps & Esh & Ecash & Eshares).
  set (n := (nav v (b, e)).1) in *. set (T := total_shares v) in *.
  assert (HT0 : ~ (T == 0)%Q).
  { intros H0. rewrite H0 in HT. apply (Qlt_irrefl 0). exact HT. }
  (* the price per share before *)
  assert (Hpps : (price_per_share v (b, e)).1 = Dec.round (n / T)).
  { unfold price_per_share. fold T. apply Qeqb_neq in HT0 as Hb. rewrite Hb.
    simpl negb. cbv iota. subst n.
    destruct (nav v (b, e)) as [n0 v0] eqn:E0.
    assert (total_shares v0 = T)
      by (change v0 with (n0, v0).2; rewrite <- E0, nav_second; reflexivity).
    simpl. rewrite H. reflexivity. }
  assert (Hppsq : (Dec.round (n / T) == n / T)%Q) by exact Epps.
  assert (Hpps0 : ~ (Dec.round (n / T) == 0)%Q).
  { rewrite Hppsq. intros H0. apply Hn.
    assert (Hm : (n == n / T * T)%Q) by (field; exact HT0).
    rewrite Hm, H0. ring. }
  (* the vault after the first [nav] of [deposit] *)
  set (v1 := (nav v (b, e)).2).
  assert (Hs1 : settled v1 b e) by apply nav_settles.
  assert (Hc1 : cash v1 = n) by reflexivity.
  assert (HT1 : total_shares v1 = T) by reflexivity.
  assert (Hex1 : Dec.exact (cash v1)) by (rewrite Hc1; exact En).
  assert (HT10 : ~ (total_shares v1 == 0)%Q) by (rewrite HT1; exact HT0).
  destruct (price_per_share_settled v1 b e Hs1 Hex1 HT10) as (Hp1 & Hn1 & Hv2).
  rewrite Hc1, HT1 in Hp1. rewrite Hc1 in Hn1.
  (* the components of the deposit *)
  assert (Hd : deposit v usd (b, e)
               = (Dec.round (usd / Dec.round (n / T)),
                  mkVault (Dec.round ((nav v1 (b, e)).1 + usd))
                    (positions_usd (nav v1 (b, e)).2)
                    (Dec.round (T + Dec.round (usd / Dec.round (n / T))))
                    (last_px (nav v1 (b, e)).2))).
  { unfold deposit. fold v1.
    change (nav v (b, e)) with ((nav v (b, e)).1, v1).
    cbv iota beta. rewrite HT1.
    apply Qltb_lt in HT as HTb. rewrite HTb.
    destruct (price_per_share v1 (b, e)) as [p v2] eqn:E2.
    simpl in Hp1, Hv2. subst p v2.
    apply Qeqb_neq in Hpps0 as Hb0. rewrite Hb0. simpl negb. cbv iota.
    unfold Dec.div, Dec.add.
    reflexivity. }
  set (v' := (deposit v usd (b, e)).2).
  assert (Hsh : ((deposit v usd (b, e)).1 == usd / (n / T))%Q).
  { rewrite Hd. cbn [fst]. apply round_exact; [|exact Esh].
    rewrite Hppsq. reflexivity. }
  assert (Hcash : (cash v' == n + usd)%Q).
  { subst v'. rewrite Hd. cbn [snd cash]. apply round_exact; [|exact Ecash].
    rewrite Hn1. reflexivity. }
  assert (Hshares : (total_shares v' == T + usd / (n / T))%Q).
  { subst v'. rewrite Hd. cbn [snd total_shares].
    apply round_exact; [|exact Eshares].
    rewrite (round_exact (usd / Dec.round (n / T)) (usd / (n / T)));
      [reflexivity | rewrite Hppsq; reflexivity | exact Esh]. }
  assert (Hs' : settled v' b e).
  { subst v'. rewrite Hd. unfold settled. cbn [snd last_px].
    apply (nav_settles v1 b e). }
  assert (Hex' : Dec.exact (cash v')).
  { apply (exact_Qeq (n + usd)); [symmetry; exact Hcash | exact Ecash]. }
  assert (Hratio : (T + usd / (n / T) == T * (n + usd) / n)%Q)
    by (field; split; assumption).
  assert (HT' : ~ (total_shares v' == 0)%Q).
  { rewrite Hshares, Hratio. intros H0.
    assert (Hm : (T * (n + usd) == T * (n + usd) / n * n)%Q) by (field; exact Hn).
    rewrite H0 in Hm.
    assert (Hz : (T * (n + usd) == 0)%Q) by (rewrite Hm; ring).
    apply Qmult_integral in Hz as [Hz|Hz]; contradiction. }
  destruct (price_per_share_settled v' b e Hs' Hex' HT') as (Hp' & _ & _).
  cbv zeta. rewrite Hpps.
  split; [rewrite Hsh, Hppsq; reflexivity|].
  split; [exact Hcash|].
  split; [rewrite Hshares, Hppsq; reflexivity|].
  fold v'. rewrite Hp'.
  rewrite (round_Qeq (cash v' / total_shares v') (n / T)); [reflexivity|].
  rewrite Hcash, Hshares, Hratio. field.
  repeat split; assumption.
Qed.

(** *** Rounding to 28 significant digits *)

Lemma ndigits_fuel_spec (fuel : nat) (n : Z) :
  0 < n -> n < 10 ^ (Z.of_nat fuel + 1) ->
  1 <= Dec.ndigits_fuel fuel n
  /\ 10 ^ (Dec.ndigits_fuel fuel n - 1) <= n < 10 ^ Dec.ndigits_fuel fuel n.
Proof.
  revert n. induction fuel as [|f IH]; intros n Hpos Hlt.
  - cbn [Dec.ndigits_fuel]. change (10 ^ (Z.of_nat 0 + 1)) with 10 in Hlt.
    change (10 ^ (1 - 1)) with 1. change (10 ^ 1) with 10. lia.
  - cbn [Dec.ndigits_fuel]. destruct (n <? 10) eqn:E.
    + apply Z.ltb_lt in E. change (10 ^ (1 - 1)) with 1. change (10 ^ 1) with 10. lia.
    + apply Z.ltb_ge in E.
      assert (Hq : 0 < n / 10) by (apply Z.div_str_pos; lia).
      assert (Hlt' : n / 10 < 10 ^ (Z.of_nat f + 1)).
      { apply Z.div_lt_upper_bound; [lia|].
        replace (Z.of_nat (S f) + 1) with (Z.succ (Z.of_nat f + 1)) in Hlt by lia.
        rewrite Z.pow_succ_r in Hlt by lia. exact Hlt. }
      destruct (IH (n / 10) Hq Hlt') as (H1 & Hlo & Hhi).
      set (r := Dec.ndigits_fuel f (n / 10)) in *.
      split; [lia|].
      replace (1 + r - 1) with (Z.succ (r - 1)) by lia.
      replace (1 + r) with (Z.succ r) by lia.
      rewrite !Z.pow_succ_r by lia.
      pose proof (Z.mul_div_le n 10 ltac:(lia)).
      pose proof (Z.mul_succ_div_gt n 10 ltac:(lia)).
      split; lia.
Qed.

Lemma ndigits_spec (n : Z) :
  0 < n ->
  1 <= Dec.ndigits n /\ 10 ^ (Dec.ndigits n - 1) <= n < 10 ^ Dec.ndigits n.
Proof.
  intros Hpos. unfold Dec.ndigits. apply ndigits_fuel_spec; [exact Hpos|].
  rewrite Z2Nat.id by apply Z.log2_nonneg.
  destruct (Z.log2_spec n Hpos) as [_ Hhi].
  eapply Z.lt_le_trans; [exact Hhi|].
  replace (Z.succ (Z.log2 n)) with (Z.log2 n + 1) by lia.
  apply Z.pow_le_mono_l. lia.
Qed.

Lemma shifted_pos (n d e : Z) : 0 < d -> 0 < (Dec.shifted n d e).2.
Proof.
  intros Hd. unfold Dec.shifted. destruct (e <? 0) eqn:E; cbn [snd]; [exact Hd|].
  apply Z.ltb_ge in E. apply Z.mul_pos_pos; [exact Hd|].
  apply Z.pow_pos_nonneg; lia.
Qed.

(** Scaling by one more power of ten divides the ratio by ten. *)
Lemma shifted_succ (n d e : Z) :
  (Dec.shifted n d e).1 * (Dec.shifted n d (e + 1)).2
  = 10 * (Dec.shifted n d (e + 1)).1 * (Dec.shifted n d e).2.
Proof.
  unfold Dec.shifted.
  destruct (e <? 0) eqn:E1; destruct (e + 1 <? 0) eqn:E2; cbn [fst snd].
  - apply Z.ltb_lt in E1, E2.
    replace (- e) with (Z.succ (- (e + 1))) by lia.
    rewrite Z.pow_succ_r by lia. ring.
  - apply Z.ltb_lt in E1. apply Z.ltb_ge in E2.
    assert (e = -1) by lia. subst e.
    change (- -1) with 1. change (-1 + 1) with 0.
    rewrite Z.pow_1_r, Z.pow_0_r. ring.
  - apply Z.ltb_ge in E1. apply Z.ltb_lt in E2. lia.
  - apply Z.ltb_ge in E1.
    replace (e + 1) with (Z.succ e) by lia.
    rewrite Z.pow_succ_r by lia. ring.
Qed.

(** The ratio that is rounded to an integer has at least [prec] digits. *)
Lemma exponent_of_lower (n d : Z) :
  0 < n -> 0 < d ->
  10 ^ (Dec.prec - 1) * (Dec.shifted n d (Dec.exponent_of n d)).2
  <= (Dec.shifted n d (Dec.exponent_of n d)).1.
Proof.
  intros Hn Hd.
  destruct (ndigits_spec n Hn) as (Ha1 & Hna & _).
  destruct (ndigits_spec d Hd) as (Hb1 & _ & Hdb).
  set (a := Dec.ndigits n) in *. set (b := Dec.ndigits d) in *.
  assert (H1 : 10 ^ (Dec.prec - 1) * (Dec.shifted n d (a - b - Dec.prec)).2
               <= (Dec.shifted n d (a - b - Dec.prec)).1).
  { unfold Dec.shifted, Dec.prec.
    destruct (a - b - 28 <? 0) eqn:E; cbn [fst snd].
    - apply Z.ltb_lt in E.
      assert (Hp : 10 ^ (a - 1) * 10 ^ (- (a - b - 28)) = 10 ^ (28 - 1) * 10 ^ b).
      { rewrite <- !Z.pow_add_r by lia. f_equal. lia. }
      assert (0 < 10 ^ (- (a - b - 28))) by (apply Z.pow_pos_nonneg; lia).
      assert (0 < 10 ^ (28 - 1)) by (apply Z.pow_pos_nonneg; lia).
      nia.
    - apply Z.ltb_ge in E.
      assert (Hp : 10 ^ (28 - 1) * 10 ^ b * 10 ^ (a - b - 28) = 10 ^ (a - 1)).
      { rewrite <- !Z.pow_add_r by lia. f_equal. lia. }
      assert (0 < 10 ^ (a - b - 28)) by (apply Z.pow_pos_nonneg; lia).
      assert (0 < 10 ^ (28 - 1)) by (apply Z.pow_pos_nonneg; lia).
      nia. }
  unfold Dec.exponent_of. fold a b. cbv zeta.
  destruct (Dec.shifted n d (a - b - Dec.prec)) as [N1 D1] eqn:E1.
  cbn [fst snd] in H1.
  destruct (10 ^ Dec.prec * D1 <=? N1) eqn:E2.
  - apply Z.leb_le in E2.
    pose proof (shifted_succ n d (a - b - Dec.prec)) as Hs.
    rewrite E1 in Hs. cbn [fst snd] in Hs.
    pose proof (shifted_pos n d (a - b - Dec.prec + 1) Hd) as HD.
    pose proof (shifted_pos n d (a - b - Dec.prec) Hd) as HD1.
    rewrite E1 in HD1. cbn [snd] in HD1.
    set (N := (Dec.shifted n d (a - b - Dec.prec + 1)).1) in *.
    set (D := (Dec.shifted n d (a - b - Dec.prec + 1)).2) in *.
    assert (Hp : 10 ^ Dec.prec = 10 * 10 ^ (Dec.prec - 1)) by reflexivity.
    rewrite Hp in E2.
    set (P := 10 ^ (Dec.prec - 1)) in *.
    assert (0 < P) by reflexivity.
    nia.
  - rewrite E1. cbn [fst snd]. exact H1.
Qed.

Lemma shifted_nonneg (n d e : Z) : 0 <= n -> 0 <= (Dec.shifted n d e).1.
Proof.
  intros Hn. unfold Dec.shifted. destruct (e <? 0) eqn:E; cbn [fst]; [|exact Hn].
  apply Z.mul_nonneg_nonneg; [exact Hn|]. apply Z.pow_nonneg. lia.
Qed.

(** Rounding to an integer moves the ratio by at most one half. *)
Lemma half_even_error (N D : Z) :
  0 <= N -> 0 < D ->
  0 <= Dec.half_even N D /\ 2 * Z.abs (Dec.half_even N D * D - N) <= D.
Proof.
  intros HN HD. unfold Dec.half_even. cbv zeta.
  pose proof (Z.div_mod N D ltac:(lia)) as Hdm.
  pose proof (Z.mod_pos_bound N D HD) as Hr.
  pose proof (Z.div_pos N D HN HD) as Hf.
  set (f := N / D) in *. set (r := N mod D) in *.
  destruct (2 * r <? D) eqn:E1.
  - apply Z.ltb_lt in E1. split; [exact Hf|]. nia.
  - apply Z.ltb_ge in E1. destruct (D <? 2 * r) eqn:E2.
    + apply Z.ltb_lt in E2. split; [lia|]. nia.
    + apply Z.ltb_ge in E2. destruct (Z.even f); (split; [lia|]); nia.
Qed.

Lemma of_mantissa_value (m e : Z) :
  (Dec.of_mantissa m e
   == if e <? 0 then m # Z.to_pos (10 ^ (- e)) else inject_Z (m * 10 ^ e))%Q.
Proof.
  unfold Dec.of_mantissa. destruct (e <? 0); [apply Qred_correct | reflexivity].
Qed.

Lemma spacing_value :
  (Dec.spacing == (10 ^ 27 + 1) # Z.to_pos (10 ^ 27))%Q.
Proof. reflexivity. Qed.

(** The two integer inequalities behind one rounding. *)
Lemma rounding_bounds (N D m : Z) :
  0 < D -> 10 ^ 27 * D <= N -> 2 * Z.abs (m * D - N) <= D ->
  N * 10 ^ 27 <= m * D * (10 ^ 27 + 1)
  /\ m * D * 10 ^ 27 <= N * (10 ^ 27 + 1).
Proof.
  intros HD HN Hm.
  assert (HP : 1 <= 10 ^ 27) by (vm_compute; discriminate).
  set (P := 10 ^ 27) in *. clearbody P. nia.
Qed.

(** A positive fraction and its rounding are within one spacing of each
    other. *)
Lemma round_fraction_close (a : Z) (d : positive) :
  0 < a ->
  let e := Dec.exponent_of a (Zpos d) in
  let m := Dec.half_even (Dec.shifted a (Zpos d) e).1 (Dec.shifted a (Zpos d) e).2 in
  Dec.close Dec.spacing (a # d) (Dec.of_mantissa m e)
  /\ (0 <= Dec.of_mantissa m e)%Q.
Proof.
  intros Ha e m.
  pose proof (exponent_of_lower a (Zpos d) Ha ltac:(lia)) as Hlow. fold e in Hlow.
  pose proof (shifted_pos a (Zpos d) e ltac:(lia)) as HD.
  pose proof (shifted_nonneg a (Zpos d) e ltac:(lia)) as HN.
  destruct (half_even_error _ _ HN HD) as [Hm0 Hm]. fold m in Hm0, Hm.
  change (Dec.prec - 1) with 27 in Hlow.
  destruct (rounding_bounds _ _ m HD Hlow Hm) as [B1 B2].
  unfold Dec.close. rewrite of_mantissa_value, spacing_value.
  unfold Dec.shifted in *.
  destruct (e <? 0) eqn:E; cbn [fst snd] in *.
  - apply Z.ltb_lt in E.
    assert (HP : 0 < 10 ^ (- e)) by (apply Z.pow_pos_nonneg; lia).
    set (P := 10 ^ (- e)) in *.
    unfold Qle, Qmult. cbn [Qnum Qden].
    rewrite !Pos2Z.inj_mul, !Z2Pos.id by (try exact HP; reflexivity).
    split; [split|]; nia.
  - apply Z.ltb_ge in E.
    assert (HP : 0 < 10 ^ e) by (apply Z.pow_pos_nonneg; lia).
    set (P := 10 ^ e) in *.
    unfold Qle, Qmult, inject_Z. cbn [Qnum Qden].
    rewrite ?Pos2Z.inj_mul, ?Z2Pos.id by reflexivity.
    split; [split|]; nia.
Qed.

(** One rounding: a non-negative value and the value the context rounds it
    to are within one spacing of each other. *)
Lemma round_close (q : Q) :
  (0 <= q)%Q -> Dec.close Dec.spacing q (Dec.round q) /\ (0 <= Dec.round q)%Q.
Proof.
  intros Hq. unfold Dec.round. cbv zeta.
  assert (Hred : (Qred q == q)%Q) by apply Qred_correct.
  assert (Hq' : (0 <= Qred q)%Q) by (rewrite Hred; exact Hq).
  assert (Hc : forall r, Dec.close Dec.spacing (Qred q) r ->
                         Dec.close Dec.spacing q r).
  { intros r [H1 H2]. split; rewrite <- Hred; assumption. }
  destruct (Qred q) as [a d] eqn:E. cbn [Qnum Qden] in *.
  assert (Ha : 0 <= a) by (unfold Qle in Hq'; cbn in Hq'; lia).
  destruct (Z.abs a =? 0) eqn:E0.
  - apply Z.eqb_eq in E0. assert (a = 0) by lia. subst a.
    split; [|apply Qle_refl]. apply Hc.
    split; unfold Qle, Qmult; cbn [Qnum Qden]; lia.
  - apply Z.eqb_neq in E0. assert (Hpos : 0 < a) by lia.
    rewrite (Z.abs_eq a) by exact Ha. rewrite (Z.sgn_pos a) by exact Hpos.
    destruct (Dec.shifted a (Z.pos d) (Dec.exponent_of a (Z.pos d)))
      as [N D] eqn:Es.
    rewrite Z.mul_1_l.
    pose proof (round_fraction_close a d Hpos) as H. cbv zeta in H.
    rewrite Es in H. cbn [fst snd] in H. destruct H as [H1 H2].
    split; [apply Hc; exact H1 | exact H2].
Qed.

Lemma close_pos (f x y : Q) :
  (0 < x)%Q -> (0 <= y)%Q -> Dec.close f x y -> (0 < y)%Q.
Proof.
  intros Hx Hy [H1 _].
  destruct (Qlt_le_dec 0 y) as [H|H]; [exact H|].
  assert (Hy0 : (y == 0)%Q) by (apply Qle_antisym; assumption).
  rewrite Hy0, Qmult_0_l in H1. exfalso.
  apply (Qlt_irrefl 0). eapply Qlt_le_trans; eassumption.
Qed.

Lemma round_pos (q : Q) : (0 < q)%Q -> (0 < Dec.round q)%Q.
Proof.
  intros Hq. destruct (round_close q (Qlt_le_weak _ _ Hq)) as [Hc H0].
  exact (close_pos _ _ _ Hq H0 Hc).
Qed.

(** *** Values of one sign within a factor of each other *)

Lemma Qeq_Qle (x y : Q) : (x == y)%Q -> (x <= y)%Q.
Proof. intros ->. apply Qle_refl. Qed.

Lemma spacing_ge_1 : (1 <= Dec.spacing)%Q.
Proof. vm_compute. discriminate. Qed.

Lemma ratio_pos (f t : Q) : (1 <= f)%Q -> (1 <= t * f)%Q -> (0 < t)%Q.
Proof.
  intros Hf Ht. destruct (Qlt_le_dec 0 t) as [H|H]; [exact H|].
  exfalso. assert (A : (t * f <= 0)%Q) by nra. lra.
Qed.

Lemma ratio_lower (f t : Q) : (1 <= f)%Q -> (1 <= t * f)%Q -> (2 - f <= t)%Q.
Proof.
  intros Hf Ht. assert (Hp := ratio_pos f t Hf Ht).
  destruct (Qlt_le_dec t (2 - f)) as [H|H]; [|exact H].
  exfalso. assert (A : (t * f < (2 - f) * f)%Q) by nra.
  assert (B : ((2 - f) * f <= 1)%Q) by nra. lra.
Qed.

Lemma Qmult_ge_1 (a b : Q) : (1 <= a)%Q -> (1 <= b)%Q -> (1 <= a * b)%Q.
Proof. intros Ha Hb. nra. Qed.

Lemma near_refl (f x : Q) : (1 <= f)%Q -> Dec.near f x x.
Proof. intros Hf. exists 1%Q. split; [ring|]. split; lra. Qed.

Lemma near_Qeq (f x x' y y' : Q) :
  (x == x')%Q -> (y == y')%Q -> Dec.near f x y -> Dec.near f x' y'.
Proof.
  intros Hx Hy (t & E & H1 & H2). exists t.
  split; [rewrite <- Hx, <- Hy; exact E|]. split; assumption.
Qed.

Lemma near_weaken (f g x y : Q) :
  (1 <= f)%Q -> (f <= g)%Q -> Dec.near f x y -> Dec.near g x y.
Proof.
  intros Hf Hfg (t & E & H1 & H2). exists t. split; [exact E|].
  assert (Hp := ratio_pos f t Hf H1). split; [nra | lra].
Qed.

Lemma near_trans (f g x y z : Q) :
  (1 <= f)%Q -> (1 <= g)%Q ->
  Dec.near f x y -> Dec.near g y z -> Dec.near (f * g) x z.
Proof.
  intros Hf Hg (t & E & H1 & H2) (s & E' & H1' & H2').
  assert (Hp := ratio_pos f t Hf H1). assert (Hq := ratio_pos g s Hg H1').
  exists (t * s)%Q. split; [rewrite E', E; ring|]. split.
  - assert (A : (1 * 1 <= (t * f) * (s * g))%Q) by nra.
    apply Qle_trans with ((t * f) * (s * g))%Q; [lra|].
    apply Qeq_Qle. ring.
  - nra.
Qed.

Lemma near_sym (f x y : Q) : (1 <= f)%Q -> Dec.near f x y -> Dec.near f y x.
Proof.
  intros Hf (t & E & H1 & H2). assert (Hp := ratio_pos f t Hf H1).
  assert (Ht : ~ (t == 0)%Q) by (intros E0; rewrite E0 in Hp; discriminate).
  exists (/ t)%Q. split; [rewrite E; field; exact Ht|]. split.
  - apply Qle_trans with (f / t)%Q; [|apply Qeq_Qle; unfold Qdiv; ring].
    apply Qle_shift_div_l; [exact Hp | lra].
  - apply Qle_trans with (1 / t)%Q; [apply Qeq_Qle; unfold Qdiv; ring|].
    apply Qle_shift_div_r; [exact Hp | lra].
Qed.

Lemma near_mul (f g x y a b : Q) :
  (1 <= f)%Q -> (1 <= g)%Q ->
  Dec.near f x y -> Dec.near g a b -> Dec.near (f * g) (x * a) (y * b).
Proof.
  intros Hf Hg (t & E & H1 & H2) (s & E' & H1' & H2').
  assert (Hp := ratio_pos f t Hf H1). assert (Hq := ratio_pos g s Hg H1').
  exists (t * s)%Q. split; [rewrite E', E; ring|]. split.
  - assert (A : (1 * 1 <= (t * f) * (s * g))%Q) by nra.
    apply Qle_trans with ((t * f) * (s * g))%Q; [lra|].
    apply Qeq_Qle. ring.
  - nra.
Qed.

Lemma near_inv (f x y : Q) :
  (1 <= f)%Q -> Dec.near f x y -> Dec.near f (/ x) (/ y).
Proof.
  intros Hf (t & E & H1 & H2). assert (Hp := ratio_pos f t Hf H1).
  exists (/ t)%Q. split; [rewrite E; apply Qinv_mult_distr|]. split.
  - apply Qle_trans with (f / t)%Q; [|apply Qeq_Qle; unfold Qdiv; ring].
    apply Qle_shift_div_l; [exact Hp | lra].
  - apply Qle_trans with (1 / t)%Q; [apply Qeq_Qle; unfold Qdiv; ring|].
    apply Qle_shift_div_r; [exact Hp | lra].
Qed.

Lemma near_div (f g x y a b : Q) :
  (1 <= f)%Q -> (1 <= g)%Q ->
  Dec.near f x y -> Dec.near g a b -> Dec.near (f * g) (x / a) (y / b).
Proof.
  intros Hf Hg Hxy Hab. unfold Qdiv.
  apply near_mul; [assumption.. |]. apply near_inv; assumption.
Qed.

Lemma near_nonzero (f x y : Q) :
  (1 <= f)%Q -> Dec.near f x y -> ~ (x == 0)%Q -> ~ (y == 0)%Q.
Proof.
  intros Hf (t & E & H1 & H2) Hx Hy. assert (Hp := ratio_pos f t Hf H1).
  rewrite E in Hy. apply Qmult_integral in Hy. destruct Hy as [Hy|Hy].
  - exact (Hx Hy).
  - rewrite Hy in Hp. discriminate.
Qed.

(** The distance of two values within a factor [f] of each other. *)
Lemma near_abs (f tol x y : Q) :
  (1 <= f)%Q -> (f - 1 <= tol)%Q ->
  Dec.near f x y -> (Qabs (y - x) <= tol * Qabs x)%Q.
Proof.
  intros Hf Htol (t & E & H1 & H2).
  assert (Hl := ratio_lower f t Hf H1).
  assert (Ht : (Qabs (t - 1) <= tol)%Q) by (apply Qabs_Qle_condition; split; lra).
  assert (Ey : (y - x == x * (t - 1))%Q) by (rewrite E; ring).
  rewrite Ey, Qabs_Qmult, (Qmult_comm (Qabs x)).
  apply Qmult_le_compat_r; [exact Ht | apply Qabs_nonneg].
Qed.

(** *** Rounding a value of either sign *)

Lemma Qabs_le_0 (x : Q) : (Qabs x <= 0)%Q -> (x == 0)%Q.
Proof.
  intros H. apply Qabs_Qle_condition in H. destruct H as [H1 H2].
  apply Qle_antisym; [exact H2 | lra].
Qed.

Lemma close_near (f x y : Q) :
  (1 <= f)%Q -> (0 <= x)%Q -> Dec.close f x y -> Dec.near f x y.
Proof.
  intros Hf Hx [H1 H2].
  destruct (Qlt_le_dec 0 x) as [Hp|Hz].
  - assert (Hx0 : ~ (x == 0)%Q) by (intros E; rewrite E in Hp; discriminate).
    exists (y / x)%Q. split; [field; exact Hx0|]. split.
    + apply Qle_trans with (y * f / x)%Q; [|apply Qeq_Qle; unfold Qdiv; ring].
      apply Qle_shift_div_l; [exact Hp | lra].
    + apply Qle_shift_div_r; [exact Hp | lra].
  - assert (E : (x == 0)%Q) by (apply Qle_antisym; assumption).
    assert (Ey : (y == 0)%Q) by nra.
    exists 1%Q. split; [rewrite E, Ey; ring|]. split; lra.
Qed.

Lemma of_mantissa_opp (m e : Z) :
  Dec.of_mantissa (- m) e = (- Dec.of_mantissa m e)%Q.
Proof.
  unfold Dec.of_mantissa. destruct (e <? 0).
  - change (- m # Z.to_pos (10 ^ (- e)))%Q with (- (m # Z.to_pos (10 ^ (- e))))%Q.
    apply Qred_opp.
  - unfold inject_Z, Qopp. cbn [Qnum Qden]. f_equal. lia.
Qed.

Lemma round_opp (q : Q) : Dec.round (- q) = (- Dec.round q)%Q.
Proof.
  unfold Dec.round. cbv zeta. rewrite Qred_opp.
  destruct (Qred q) as [n d]. cbn [Qopp Qnum Qden].
  rewrite Z.abs_opp.
  destruct (Z.abs n =? 0); [reflexivity|].
  destruct (Dec.shifted (Z.abs n) (Z.pos d) (Dec.exponent_of (Z.abs n) (Z.pos d)))
    as [N D].
  rewrite Z.sgn_opp, Z.mul_opp_l. apply of_mantissa_opp.
Qed.

(** One rounding moves a value by at most the spacing, whatever its sign. *)
Lemma near_round (q : Q) : Dec.near Dec.spacing q (Dec.round q).
Proof.
  destruct (Qlt_le_dec q 0) as [Hn|Hp].
  - assert (Hq : (0 <= - q)%Q) by lra.
    destruct (round_close (- q) Hq) as [C _].
    destruct (close_near _ _ _ spacing_ge_1 Hq C) as (t & E & H1 & H2).
    exists t. split; [|split; assumption].
    rewrite round_opp in E.
    assert (E' : (Dec.round q == - (- Dec.round q))%Q) by ring.
    rewrite E', E. ring.
  - destruct (round_close q Hp) as [C _].
    exact (close_near _ _ _ spacing_ge_1 Hp C).
Qed.

(** A sum keeps the closeness of a term up to its cancellation: with
    [|y| <= M * |x + y|], a relative distance [f - 1] of [y] becomes at most
    [M * (f - 1)] of [x + y]. *)
Lemma near_add (f M x y y' : Q) :
  (1 <= f)%Q -> (0 <= M)%Q -> (M * (f - 1) <= 1 # 2)%Q ->
  (Qabs y <= M * Qabs (x + y))%Q ->
  Dec.near f y y' -> Dec.near (1 + 2 * (M * (f - 1))) (x + y) (x + y').
Proof.
  intros Hf HM Hm Hy (t & E & H1 & H2).
  assert (Hl := ratio_lower f t Hf H1).
  assert (Hm0 : (0 <= M * (f - 1))%Q) by nra.
  destruct (Qeq_dec (x + y) 0) as [Hz|Hnz].
  - assert (Ey : (y == 0)%Q).
    { apply Qabs_le_0. rewrite Hz in Hy. change (Qabs 0) with 0%Q in Hy.
      rewrite Qmult_0_r in Hy. exact Hy. }
    exists 1%Q. split; [rewrite E, Ey; ring|]. split; lra.
  - set (r := (y / (x + y))%Q).
    assert (Hr : (Qabs r <= M)%Q).
    { unfold r, Qdiv. rewrite Qabs_Qmult, Qabs_Qinv.
      assert (Hpos : (0 < Qabs (x + y))%Q).
      { destruct (Qlt_le_dec 0 (Qabs (x + y))) as [H|H]; [exact H|].
        exfalso. apply Hnz. apply Qabs_le_0. exact H. }
      apply Qle_shift_div_r; [exact Hpos | exact Hy]. }
    apply Qabs_Qle_condition in Hr. destruct Hr as [Hr1 Hr2].
    exists (1 + r * (t - 1))%Q. split.
    + rewrite E. unfold r. field. exact Hnz.
    + assert (Hd1 : (r * (t - 1) <= M * (f - 1))%Q) by nra.
      assert (Hd2 : (- (M * (f - 1)) <= r * (t - 1))%Q) by nra.
      split; [nra | lra].
Qed.

(** *** The deposit *)

(** Marking a vault at the price it was last marked at books nothing: the
    cash is at most rounded. *)
Lemma accrue_settled_near (asset : string) (px : Q) (v : Vault) (c : Q) :
  last_px v !! asset = Some px ->
  Dec.near Dec.spacing c (accrue asset px v c).
Proof.
  intros Hlp. unfold accrue. rewrite Hlp.
  destruct (Qltb 0 px).
  - unfold Dec.add, Dec.mul, Dec.sub.
    rewrite (round_zero (px - px)) by ring.
    rewrite (round_zero (_ * 0)) by ring.
    rewrite (round_Qeq (c + 0) c) by ring.
    apply near_round.
  - apply near_refl, spacing_ge_1.
Qed.

Lemma nav_settled_near (v : Vault) (b e : Q) :
  settled v b e ->
  Dec.near (Dec.spacing * Dec.spacing) (cash v) (nav v (b, e)).1.
Proof.
  intros [Hb He]. rewrite nav_first.
  eapply near_trans; [apply spacing_ge_1 | apply spacing_ge_1
                     | apply accrue_settled_near; exact Hb
                     | apply accrue_settled_near; exact He].
Qed.

(** The factor of a chain of roundings through two sums of cancellation at
    most [M]. *)
Lemma cancel_bound (A a b tol M L : Q) :
  (1 <= A)%Q -> (0 <= a)%Q -> (0 <= b)%Q -> (1 <= M)%Q -> (M <= L)%Q ->
  ((A - 1) + A * (a + b + a * b * L) <= tol)%Q ->
  (A * (1 + a * M) * (1 + b * M) - 1 <= tol * M)%Q.
Proof.
  intros HA Ha Hb HM HL Htol.
  assert (H1 : (A - 1 <= (A - 1) * M)%Q) by nra.
  assert (Hab : (0 <= A * a * b)%Q).
  { apply Qmult_le_0_compat; [apply Qmult_le_0_compat; lra | exact Hb]. }
  assert (HabM : (0 <= A * a * b * M)%Q) by (apply Qmult_le_0_compat; lra).
  assert (H2 : (A * a * b * M * M <= A * a * b * M * L)%Q).
  { rewrite !(Qmult_comm (A * a * b * M)).
    apply Qmult_le_compat_r; assumption. }
  assert (H3 : (((A - 1) + A * (a + b + a * b * L)) * M <= tol * M)%Q).
  { apply Qmult_le_compat_r; [exact Htol | lra]. }
  apply Qle_trans with (((A - 1) + A * (a + b + a * b * L)) * M)%Q; [|exact H3].
  apply Qle_trans with
    ((A - 1) * M + A * (a + b) * M + A * a * b * M * L)%Q;
    [|apply Qeq_Qle; ring].
  apply Qle_trans with
    ((A - 1) + A * (a + b) * M + A * a * b * M * M)%Q;
    [apply Qeq_Qle; ring | lra].
Qed.

Lemma price_per_share_value (v : Vault) (b e : Q) :
  ~ (total_shares v == 0)%Q ->
  price_per_share v (b, e)
  = (Dec.round ((nav v (b, e)).1 / total_shares v), (nav v (b, e)).2).
Proof.
  intros HT. unfold price_per_share.
  apply Qeqb_neq in HT as Hb. rewrite Hb. cbn [negb].
  rewrite (surjective_pairing (nav v (b, e))). rewrite nav_second.
  cbn [total_shares fst snd]. reflexivity.
Qed.

Ltac factor := vm_compute; discriminate.
Ltac ge1 :=
  repeat match goal with
         | |- (1 <= _ * _)%Q => apply Qmult_ge_1
         end;
  first [assumption | exact spacing_ge_1 | apply Qle_refl].

(** C10, as amended.  For a vault with shares outstanding and a nonzero NAV
    at the given prices, and any deposit [usd], let [M] bound the
    cancellation of [NAV + usd]: [|NAV| + |usd| <= M * |NAV + usd|] ([M = 1]
    for a deposit [usd >= 0] into a positive NAV; no [M] exists for
    [usd = - NAV]).  For [M] up to 1e24 the deposit mints [usd / pps] shares
    within a relative distance of 1e-25, brings the cash to [NAV + usd]
    within [1e-25 * M], and leaves the price per share at those prices
    within [1e-25 * M] of its value before: the roundings of the decimal
    context and nothing else.  Whenever [NAV + usd] is not zero and the
    context represents the quotients and sums of the deposit without
    rounding, the three hold exactly. *)
Theorem deposit_keeps_pps (v : Vault) (usd : Q) (pxs : Q * Q) :
  (0 < total_shares v)%Q -> ~ ((nav v pxs).1 == 0)%Q ->
  let n := (nav v pxs).1 in
  let pps := (price_per_share v pxs).1 in
  let out := deposit v usd pxs in
  (forall M : Q,
     (Qabs n + Qabs usd <= M * Qabs (n + usd))%Q ->
     (M <= Dec.max_cancellation)%Q ->
     (Qabs (out.1 - usd / pps) <= Dec.tolerance * Qabs (usd / pps))%Q
     /\ (Qabs (cash out.2 - (n + usd)) <= Dec.tolerance * M * Qabs (n + usd))%Q
     /\ (Qabs ((price_per_share out.2 pxs).1 - pps)
         <= Dec.tolerance * M * Qabs pps)%Q)
  /\ (~ (n + usd == 0)%Q -> deposit_exact v usd pxs ->
      (out.1 == usd / pps)%Q
      /\ (cash out.2 == n + usd)%Q
      /\ ((price_per_share out.2 pxs).1 == pps)%Q).
Proof.
  intros HT Hn0. cbv zeta. split.
  2:{ intros Hsum Hex.
      destruct (deposit_exact_preserves_pps v usd pxs HT Hn0 Hsum Hex)
        as (E1 & E2 & _ & E4).
      split; [exact E1|]. split; [exact E2 | exact E4]. }
  intros M Hc HL. revert HT Hn0 Hc.
  destruct pxs as [b e]. intros HT Hn0 Hc.
  set (T := total_shares v) in *. set (n1 := (nav v (b, e)).1) in *.
  set (v1 := (nav v (b, e)).2).
  assert (HT0 : ~ (T == 0)%Q) by (intros E; rewrite E in HT; discriminate).
  (* the cancellation of the deposit *)
  assert (Hsum0 : ~ (n1 + usd == 0)%Q).
  { intros E. rewrite E in Hc. change (Qabs 0) with 0%Q in Hc.
    rewrite Qmult_0_r in Hc. apply Hn0, Qabs_le_0.
    assert (A := Qabs_nonneg usd). lra. }
  assert (Hsumpos : (0 < Qabs (n1 + usd))%Q).
  { destruct (Qlt_le_dec 0 (Qabs (n1 + usd))) as [H|H]; [exact H|].
    exfalso. apply Hsum0, Qabs_le_0, H. }
  assert (HM : (1 <= M)%Q).
  { assert (A := Qabs_triangle n1 usd).
    destruct (Qlt_le_dec M 1) as [H|H]; [|exact H]. exfalso.
    assert (B : (M * Qabs (n1 + usd) < 1 * Qabs (n1 + usd))%Q)
      by (apply Qmult_lt_compat_r; assumption).
    lra. }
  assert (HM0 : (0 <= M)%Q) by lra.
  assert (Hcu : (Qabs usd <= M * Qabs (n1 + usd))%Q)
    by (assert (A := Qabs_nonneg n1); lra).
  assert (Hcn : (Qabs n1 <= M * Qabs (n1 + usd))%Q)
    by (assert (A := Qabs_nonneg usd); lra).
  assert (Hq0 : ~ (n1 / T == 0)%Q).
  { intros E. apply Hn0.
    assert (E' : (n1 == n1 / T * T)%Q) by (field; exact HT0).
    rewrite E', E. ring. }
  (* the price per share before *)
  assert (Hpps0 : (price_per_share v (b, e)).1 = Dec.round (n1 / T)).
  { rewrite price_per_share_value by exact HT0. reflexivity. }
  assert (C0 := near_round (n1 / T)).
  set (pps0 := Dec.round (n1 / T)) in *.
  (* the vault after the first [nav] of [deposit] *)
  assert (Hs1 : settled v1 b e) by apply nav_settles.
  assert (Hc1 : cash v1 = n1) by reflexivity.
  assert (HT1 : total_shares v1 = T) by reflexivity.
  assert (C2 := nav_settled_near v1 b e Hs1). rewrite Hc1 in C2.
  set (n2 := (nav v1 (b, e)).1) in *. set (v2 := (nav v1 (b, e)).2).
  assert (C2T : Dec.near (Dec.spacing * Dec.spacing * 1) (n1 / T) (n2 / T)).
  { apply near_div; [ge1 | ge1 | exact C2 | apply near_refl; lra]. }
  assert (C3 := near_round (n2 / T)).
  set (pps := Dec.round (n2 / T)) in *.
  assert (Cpps : Dec.near (Dec.spacing * Dec.spacing * 1 * Dec.spacing)
                   (n1 / T) pps).
  { eapply near_trans; [ge1 | ge1 | exact C2T | exact C3]. }
  assert (Hppsnz : ~ (pps == 0)%Q).
  { refine (near_nonzero _ _ _ _ Cpps Hq0). ge1. }
  (* the deposit *)
  assert (Hd : deposit v usd (b, e)
               = (Dec.round (usd / pps),
                  mkVault (Dec.round (n2 + usd)) (positions_usd v2)
                    (Dec.round (T + Dec.round (usd / pps))) (last_px v2))).
  { unfold deposit. rewrite (surjective_pairing (nav v (b, e))).
    fold v1. cbv iota beta. rewrite HT1.
    apply Qltb_lt in HT as HTb. rewrite HTb.
    rewrite price_per_share_value by (rewrite HT1; exact HT0).
    rewrite HT1. fold n2 v2 pps.
    assert (Hb0 : Qeqb pps 0 = false) by (apply Qeqb_neq; exact Hppsnz).
    rewrite Hb0. cbn [negb]. unfold Dec.div, Dec.add. reflexivity. }
  assert (C4 := near_round (usd / pps)).
  set (shares := Dec.round (usd / pps)) in *.
  assert (C5 : Dec.near (1 * (Dec.spacing * Dec.spacing * 1 * Dec.spacing))
                 (usd / (n1 / T)) (usd / pps)).
  { apply near_div; [ge1 | ge1 | apply near_refl; lra | exact Cpps]. }
  assert (Csh : Dec.near
                  (1 * (Dec.spacing * Dec.spacing * 1 * Dec.spacing) * Dec.spacing)
                  (usd / (n1 / T)) shares).
  { eapply near_trans; [ge1 | ge1 | exact C5 | exact C4]. }
  (* the shares after *)
  assert (Eideal : (T + usd / (n1 / T) == (n1 + usd) * (T / n1))%Q)
    by (field; split; assumption).
  assert (Hy : (Qabs (usd / (n1 / T)) <= M * Qabs (T + usd / (n1 / T)))%Q).
  { rewrite Eideal.
    assert (Eu : (usd / (n1 / T) == usd * (T / n1))%Q)
      by (field; split; assumption).
    rewrite Eu, !Qabs_Qmult, Qmult_assoc.
    apply Qmult_le_compat_r; [exact Hcu | apply Qabs_nonneg]. }
  assert (Hm1 : (M * (1 * (Dec.spacing * Dec.spacing * 1 * Dec.spacing)
                      * Dec.spacing - 1) <= 1 # 2)%Q).
  { assert (A : (0 <= 1 * (Dec.spacing * Dec.spacing * 1 * Dec.spacing)
                      * Dec.spacing - 1)%Q) by factor.
    assert (B : (Dec.max_cancellation
                 * (1 * (Dec.spacing * Dec.spacing * 1 * Dec.spacing)
                    * Dec.spacing - 1) <= 1 # 2)%Q) by factor.
    eapply Qle_trans; [|exact B].
    apply Qmult_le_compat_r; assumption. }
  set (g1 := (1 + 2 * (M * (1 * (Dec.spacing * Dec.spacing * 1 * Dec.spacing)
                            * Dec.spacing - 1)))%Q).
  assert (Csum : Dec.near g1 (T + usd / (n1 / T)) (T + shares)).
  { refine (near_add _ M T _ _ _ HM0 Hm1 Hy Csh). ge1. }
  assert (Hg1 : (1 <= g1)%Q).
  { unfold g1.
    assert (A : (0 <= 1 * (Dec.spacing * Dec.spacing * 1 * Dec.spacing)
                      * Dec.spacing - 1)%Q) by factor.
    assert (B := Qmult_le_0_compat _ _ HM0 A). lra. }
  assert (C6 := near_round (T + shares)).
  set (T' := Dec.round (T + shares)) in *.
  assert (CT' : Dec.near (g1 * Dec.spacing) (T + usd / (n1 / T)) T').
  { eapply near_trans; [ge1 | ge1 | exact Csum | exact C6]. }
  assert (Hideal : ~ (T + usd / (n1 / T) == 0)%Q).
  { intros E. apply Hsum0.
    assert (E' : (n1 + usd == (T + usd / (n1 / T)) * (n1 / T))%Q)
      by (field; split; assumption).
    rewrite E', E. ring. }
  assert (HT'0 : ~ (T' == 0)%Q).
  { refine (near_nonzero _ _ _ _ CT' Hideal). ge1. }
  (* the cash after *)
  assert (Hm2 : (M * (Dec.spacing * Dec.spacing - 1) <= 1 # 2)%Q).
  { assert (A : (0 <= Dec.spacing * Dec.spacing - 1)%Q) by factor.
    assert (B : (Dec.max_cancellation * (Dec.spacing * Dec.spacing - 1)
                 <= 1 # 2)%Q) by factor.
    eapply Qle_trans; [|exact B].
    apply Qmult_le_compat_r; assumption. }
  assert (Hyn : (Qabs n1 <= M * Qabs (usd + n1))%Q).
  { assert (E : (usd + n1 == n1 + usd)%Q) by ring. rewrite E. exact Hcn. }
  set (g2 := (1 + 2 * (M * (Dec.spacing * Dec.spacing - 1)))%Q).
  assert (Ccash0 : Dec.near g2 (usd + n1) (usd + n2)).
  { refine (near_add _ M usd _ _ _ HM0 Hm2 Hyn C2). ge1. }
  assert (Hg2 : (1 <= g2)%Q).
  { unfold g2.
    assert (A : (0 <= Dec.spacing * Dec.spacing - 1)%Q) by factor.
    assert (B := Qmult_le_0_compat _ _ HM0 A). lra. }
  apply (near_Qeq _ _ (n1 + usd) _ (n2 + usd)) in Ccash0; [|ring|ring].
  assert (C7 := near_round (n2 + usd)).
  set (cash' := Dec.round (n2 + usd)) in *.
  assert (Ccash : Dec.near (g2 * Dec.spacing) (n1 + usd) cash').
  { eapply near_trans; [ge1 | ge1 | exact Ccash0 | exact C7]. }
  (* the vault after, marked again *)
  set (v' := mkVault cash' (positions_usd v2) T' (last_px v2)).
  assert (Hs' : settled v' b e) by (apply (nav_settles v1 b e)).
  assert (C8 := nav_settled_near v' b e Hs').
  cbn [cash] in C8. set (n3 := (nav v' (b, e)).1) in *.
  assert (Cn3 : Dec.near (g2 * Dec.spacing * (Dec.spacing * Dec.spacing))
                  (n1 + usd) n3).
  { eapply near_trans; [ge1 | ge1 | exact Ccash | exact C8]. }
  assert (Hpps' : (price_per_share v' (b, e)).1 = Dec.round (n3 / T')).
  { rewrite price_per_share_value by exact HT'0. reflexivity. }
  assert (Cq : Dec.near
                 (g2 * Dec.spacing * (Dec.spacing * Dec.spacing)
                  * (g1 * Dec.spacing))
                 (n1 / T) (n3 / T')).
  { apply (near_Qeq _ ((n1 + usd) / (T + usd / (n1 / T))) _ (n3 / T'));
      [field; split; [exact HT0|]; split; [exact Hn0|]; intros E;
       apply Hsum0;
       assert (E' : (n1 + usd == (T * n1 + usd * T) / T)%Q)
         by (field; exact HT0);
       rewrite E', E; field; exact HT0
      | reflexivity |].
    apply near_div; [ge1 | ge1 | exact Cn3 | exact CT']. }
  assert (C9 := near_round (n3 / T')).
  set (pps' := Dec.round (n3 / T')) in *.
  (* the three distances *)
  rewrite Hpps0, Hd. cbn [fst snd cash]. fold v'. rewrite Hpps'.
  fold pps'.
  split; [|split].
  - apply (near_abs (1 * Dec.spacing
                     * (1 * (Dec.spacing * Dec.spacing * 1 * Dec.spacing)
                        * Dec.spacing))); [factor | factor |].
    eapply near_trans; [ge1 | ge1 | | exact Csh].
    apply near_sym; [ge1|].
    apply near_div; [ge1 | ge1 | apply near_refl; lra | exact C0].
  - apply (near_abs (g2 * Dec.spacing)); [ge1 | | exact Ccash].
    apply Qle_trans with
      (Dec.spacing * (1 + 2 * (Dec.spacing * Dec.spacing - 1) * M)
       * (1 + 0 * M) - 1)%Q; [apply Qeq_Qle; unfold g2; ring|].
    apply (cancel_bound _ _ _ _ _ Dec.max_cancellation);
      [factor | factor | factor | exact HM | exact HL | factor].
  - apply (near_abs
             (Dec.spacing
              * (g2 * Dec.spacing * (Dec.spacing * Dec.spacing)
                 * (g1 * Dec.spacing) * Dec.spacing))); [ge1 | |].
    + apply Qle_trans with
        (Dec.spacing * Dec.spacing * Dec.spacing * Dec.spacing * Dec.spacing
         * Dec.spacing
         * (1 + 2 * (1 * (Dec.spacing * Dec.spacing * 1 * Dec.spacing)
                     * Dec.spacing - 1) * M)
         * (1 + 2 * (Dec.spacing * Dec.spacing - 1) * M) - 1)%Q;
        [apply Qeq_Qle; unfold g1, g2; ring|].
      apply (cancel_bound _ _ _ _ _ Dec.max_cancellation);
        [factor | factor | factor | exact HM | exact HL | factor].
    + eapply near_trans; [ge1 | ge1 | apply near_sym; [ge1 | exact C0] |].
      eapply near_trans; [ge1 | ge1 | exact Cq | exact C9].
Qed.

(** The amended C10 on [marked_vault], a NAV of 13,000 USD on 10,000 shares
    and a price per share of 1.3: a deposit of 100 USD, for which
    [100 / 1.3] is not a value of the context ([M = 1]), and a deposit of
    -6,500 USD, half the NAV ([M = 3]). *)
Lemma deposit_keeps_pps_witness :
  ((price_per_share marked_vault market).1 == 13 # 10)%Q
  /\ (Qabs ((price_per_share (deposit marked_vault 100 market).2 market).1
            - (price_per_share marked_vault market).1)
      <= Dec.tolerance * 1 * Qabs (price_per_share marked_vault market).1)%Q
  /\ (Qabs ((price_per_share (deposit marked_vault (-6500) market).2 market).1
            - (price_per_share marked_vault market).1)
      <= Dec.tolerance * 3 * Qabs (price_per_share marked_vault market).1)%Q.
Proof.
  split; [vm_compute; reflexivity|].
  assert (HT : (0 < total_shares marked_vault)%Q) by reflexivity.
  assert (Hn : ~ ((nav marked_vault market).1 == 0)%Q)
    by (vm_compute; discriminate).
  split.
  - destruct (deposit_keeps_pps marked_vault 100 market HT Hn) as [H _].
    destruct (H 1%Q) as (_ & _ & H3);
      [vm_compute; discriminate | vm_compute; discriminate | exact H3].
  - destruct (deposit_keeps_pps marked_vault (-6500) market HT Hn) as [H _].
    destruct (H 3%Q) as (_ & _ & H3);
      [vm_compute; discriminate | vm_compute; discriminate | exact H3].
Defined.

(** C10 as stated fails.  A deposit of minus the NAV leaves no share, and
    the price per share of a vault without shares is 0: on a fresh vault of
    10,000 USD it goes from 1 to 0.  And the quotients are rounded to 28
    digits: on a vault opened with 3 USD (10,000 shares) a deposit of 1 USD
    mints 3333.333...3 shares and moves the price per share from 0.0003 to
    0.0003000000000000000000000000001. *)
Lemma deposit_moves_pps :
  ((price_per_share (new_Vault 10000) market).1 == 1)%Q
  /\ ((price_per_share (deposit (new_Vault 10000) (-10000) market).2 market).1
      == 0)%Q
  /\ ((price_per_share (new_Vault 3) market).1 == 3 # 10000)%Q
  /\ ((price_per_share (deposit (new_Vault 3) 1 market).2 market).1
      == 3000000000000000000000000001
         # 10000000000000000000000000000000)%Q.
Proof. repeat split; vm_compute; reflexivity. Qed.

End EtfFacts.

(** ** Further properties of the guard pipeline and the loader *)

Module GuardExtras.

Import Backtest Scenarios.

Lemma dom_imap_total (f : string -> Z -> Z) (m : gmap string Z) :
  dom (map_imap (fun s t => Some (f s t)) m) = dom m.
Proof.
  apply set_eq. intros s. rewrite !elem_of_dom, map_lookup_imap.
  destruct (m !! s); simpl; split; intros [y Hy]; eauto; discriminate.
Qed.

Lemma size_imap_total (f : string -> Z -> Z) (m : gmap string Z) :
  size (map_imap (fun s t => Some (f s t)) m) = size m.
Proof. rewrite <- !size_dom, dom_imap_total. reflexivity. Qed.

Lemma dom_guarded_targets (targets : gmap string Z) (cfg : Config) :
  dom (guarded_targets targets cfg) = dom targets.
Proof.
  unfold guarded_targets, center_stage.
  destruct (_ >? _); rewrite ?dom_fmap_L; apply dom_imap_total.
Qed.

Lemma dom_turnover_stage (nav : Z) (current targets : gmap string Z) (cfg : Config) :
  dom (turnover_stage nav current targets cfg) = dom targets.
Proof.
  unfold turnover_stage. destruct (scale_of _ _) as [num den].
  rewrite dom_imap_total. apply dom_imap_total.
Qed.

(** The guard pipeline neither drops nor invents a symbol: the guarded
    target map and the final position map both have exactly the symbols of
    the raw target map. *)
Theorem apply_guards_keeps_symbols (nav : Z) (current targets : gmap string Z)
    (cfg : Config) :
  dom (apply_guards nav current targets cfg).1 = dom targets
  /\ dom (apply_guards nav current targets cfg).2 = dom targets.
Proof.
  unfold apply_guards. simpl. split.
  - apply dom_guarded_targets.
  - rewrite dom_turnover_stage. apply dom_guarded_targets.
Qed.

Lemma clamp_target_bounds (sym : string) (t : Z) (cfg : Config) :
  0 <= cap_of sym cfg ->
  - cap_of sym cfg <= clamp_target sym t cfg <= cap_of sym cfg.
Proof.
  intros Hcap. unfold clamp_target.
  destruct (t >? cap_of sym cfg) eqn:E1; [lia|].
  destruct (t <? - cap_of sym cfg) eqn:E2; [lia|].
  apply Z.ltb_ge in E2.
  destruct (Z.gtb_spec t (cap_of sym cfg)); [discriminate | lia].
Qed.

(** While the net exposure of the clamped targets stays within
    [maxNetDeltaUSD] (no centering), every guarded target of a symbol with a
    non-negative cap lies within plus or minus that cap. *)
Theorem guarded_targets_within_caps (targets : gmap string Z) (cfg : Config)
    (s : string) (t : Z) :
  Z.abs (sum_values (cap_stage targets cfg)) <= Qint (maxNetDeltaUSD cfg * E6q) ->
  0 <= cap_of s cfg ->
  guarded_targets targets cfg !! s = Some t ->
  - cap_of s cfg <= t <= cap_of s cfg.
Proof.
  intros Hnet Hcap Ht. unfold guarded_targets, center_stage in Ht.
  destruct (Z.abs (sum_values (cap_stage targets cfg))
            >? Qint (maxNetDeltaUSD cfg * E6q)) eqn:E.
  - apply Z.gtb_lt in E. lia.
  - rewrite GuardFacts.lookup_cap_stage in Ht.
    destruct (targets !! s) as [t0|]; [|discriminate].
    simpl in Ht. injection Ht as <-. apply clamp_target_bounds. exact Hcap.
Qed.

(** The caps hold on a balanced book over the default cap. *)
Lemma guarded_targets_within_caps_witness :
  guarded_targets scenario_targets default_Config !! "BTC"%string
  = Some (usd 250000)
  /\ - cap_of "BTC" default_Config <= usd 250000 <= cap_of "BTC" default_Config.
Proof.
  split; [vm_compute; reflexivity|].
  apply (guarded_targets_within_caps scenario_targets default_Config "BTC").
  - vm_compute. discriminate.
  - vm_compute. discriminate.
  - vm_compute. reflexivity.
Defined.

(** When centering is triggered on a non-empty book, the net exposure it
    leaves is the remainder of the integer division: at least zero and
    below the number of symbols, whatever [maxNetDeltaUSD] is. *)
Theorem centering_residual (targets : gmap string Z) (cfg : Config) :
  targets <> ∅ ->
  Qint (maxNetDeltaUSD cfg * E6q) < Z.abs (sum_values (cap_stage targets cfg)) ->
  0 <= sum_values (guarded_targets targets cfg) < Z.of_nat (size targets).
Proof.
  intros Hne Hnet. unfold guarded_targets, center_stage.
  apply Z.gtb_lt in Hnet. rewrite Hnet.
  rewrite sum_values_shift.
  assert (Hs : size (cap_stage targets cfg) = size targets)
    by apply size_imap_total.
  rewrite !Hs.
  assert (Hsz : 0 < Z.of_nat (size targets)).
  { destruct (size targets) eqn:E; [|lia].
    apply map_size_empty_inv in E. contradiction. }
  replace (Z.max (Z.of_nat (size targets)) 1) with (Z.of_nat (size targets)) by lia.
  set (S := sum_values (cap_stage targets cfg)).
  set (N := Z.of_nat (size targets)) in *.
  replace (S - N * (S / N)) with (S mod N) by (rewrite Z.mod_eq by lia; lia).
  apply Z.mod_pos_bound. exact Hsz.
Qed.

(** Centering on [lopsided_targets]: three symbols, residual 1. *)
Lemma centering_residual_witness :
  sum_values (guarded_targets lopsided_targets default_Config) = 1
  /\ 0 <= sum_values (guarded_targets lopsided_targets default_Config)
     < Z.of_nat (size lopsided_targets).
Proof.
  split; [vm_compute; reflexivity|].
  apply centering_residual.
  - intros H. apply (f_equal (fun m : gmap string Z => m !! "BTC"%string)) in H.
    vm_compute in H. discriminate.
  - vm_compute. reflexivity.
Defined.

(** *** The turnover actually traded *)

Lemma sum_imap_insert (f : string -> Z -> Z) (m : gmap string Z) (i : string) (x : Z) :
  m !! i = None ->
  sum_values (map_imap (fun s t => Some (f s t)) (<[ i := x ]> m))
  = f i x + sum_values (map_imap (fun s t => Some (f s t)) m).
Proof.
  intros Hi.
  rewrite (map_imap_insert_Some _ i x m (f i x)) by reflexivity.
  apply sum_values_insert. rewrite map_lookup_imap, Hi. reflexivity.
Qed.

(** Sums of two per-symbol quantities related pointwise by
    [den * f <= num * g + den]. *)
Lemma sum_imap_scaled (f g : string -> Z -> Z) (num den : Z) (m : gmap string Z) :
  (forall i x, m !! i = Some x -> den * f i x <= num * g i x + den) ->
  den * sum_values (map_imap (fun s t => Some (f s t)) m)
  <= num * sum_values (map_imap (fun s t => Some (g s t)) m)
     + Z.of_nat (size m) * den.
Proof.
  induction m as [|i x m Hi IH] using map_ind; intros Hpt.
  - rewrite !map_imap_empty, sum_values_empty, map_size_empty. lia.
  - rewrite !sum_imap_insert, map_size_insert_None by assumption.
    assert (H1 : den * f i x <= num * g i x + den)
      by (apply Hpt; apply lookup_insert_eq).
    assert (H2 : den * sum_values (map_imap (fun s t => Some (f s t)) m)
                 <= num * sum_values (map_imap (fun s t => Some (g s t)) m)
                    + Z.of_nat (size m) * den).
    { apply IH. intros j y Hj. apply Hpt.
      rewrite lookup_insert_ne; [exact Hj|]. intros ->. congruence. }
    lia.
Qed.

Lemma abs_scaled_delta (d num den : Z) :
  0 <= num -> 0 < den ->
  den * Z.abs ((d * num) / den) <= num * Z.abs d + den.
Proof.
  intros Hnum Hden.
  pose proof (Z.div_mod (d * num) den ltac:(lia)) as Hdm.
  pose proof (Z.mod_pos_bound (d * num) den Hden) as Hr.
  destruct (Z.le_gt_cases 0 d) as [Hd|Hd].
  - assert (0 <= (d * num) / den) by (apply Z.div_pos; nia). nia.
  - assert ((d * num) / den <= 0).
    { assert ((d * num) / den <= 0 / den) as Hle by (apply Z.div_le_mono; nia).
      rewrite Z.div_0_l in Hle by lia. exact Hle. }
    nia.
Qed.

(** If the raw trades fit the turnover cap, the final positions are the
    guarded targets themselves.  If they do not, and the cap
    [gmax = NAV * turnoverCapBps // 10000] is non-negative, the gross
    turnover actually traded exceeds [gmax] by at most one fixed-point unit
    per symbol (the floor division rounds each sell away from zero). *)
Theorem turnover_stage_bound (nav : Z) (current targets : gmap string Z)
    (cfg : Config) :
  (scaling_active
     (gross_of (deltas_of current (guarded_targets targets cfg)))
     (gmax_of nav cfg) = false ->
   (apply_guards nav current targets cfg).2
   = (apply_guards nav current targets cfg).1)
  /\ (scaling_active
        (gross_of (deltas_of current (guarded_targets targets cfg)))
        (gmax_of nav cfg) = true ->
      0 <= gmax_of nav cfg ->
      gross_turnover current (apply_guards nav current targets cfg).2
      <= gmax_of nav cfg + Z.of_nat (size targets)).
Proof.
  unfold apply_guards. simpl.
  set (tg := guarded_targets targets cfg).
  set (gross := gross_of (deltas_of current tg)).
  split.
  - intros Hoff. apply map_eq. intros s.
    rewrite GuardFacts.lookup_turnover_stage. fold gross.
    unfold scale_of. rewrite Hoff. simpl.
    destruct (tg !! s) as [t|]; [|reflexivity]. simpl. f_equal.
    rewrite Z.mul_1_r, Z.div_1_r. lia.
  - intros Hon Hg.
    assert (Hact := Hon). unfold scaling_active in Hact.
    apply andb_prop in Hact as [_ Hpos]. apply Z.gtb_lt in Hpos.
    assert (Hfinal :
      Z.abs <$> map_imap (fun s f => Some (f - get0 current s))
                  (turnover_stage nav current tg cfg)
      = map_imap (fun s t =>
                    Some (Z.abs (((t - get0 current s) * gmax_of nav cfg) / gross)))
          tg).
    { apply map_eq. intros s.
      rewrite lookup_fmap, !map_lookup_imap, GuardFacts.lookup_turnover_stage.
      fold gross. unfold scale_of. rewrite Hon. simpl.
      destruct (tg !! s) as [t|]; [|reflexivity]. simpl. do 2 f_equal. lia. }
    assert (Hraw :
      Z.abs <$> deltas_of current tg
      = map_imap (fun s t => Some (Z.abs (t - get0 current s))) tg).
    { apply map_eq. intros s.
      rewrite lookup_fmap, GuardFacts.lookup_deltas_of, map_lookup_imap.
      destruct (tg !! s); reflexivity. }
    unfold gross_turnover. rewrite Hfinal.
    pose proof (sum_imap_scaled
                  (fun s t => Z.abs (((t - get0 current s) * gmax_of nav cfg) / gross))
                  (fun s t => Z.abs (t - get0 current s))
                  (gmax_of nav cfg) gross tg) as Hsum.
    cbv beta in Hsum. rewrite <- Hraw in Hsum. fold (gross_of (deltas_of current tg)) in Hsum.
    fold gross in Hsum.
    assert (Hsz : size tg = size targets)
      by (rewrite <- !size_dom; subst tg; rewrite dom_guarded_targets; reflexivity).
    rewrite Hsz in Hsum.
    specialize (Hsum ltac:(intros; apply abs_scaled_delta; assumption)).
    nia.
Qed.

(** *** Loading, then sizing *)

Lemma fill_bucket_sized (sign bucket : Z) (arr : list Alloc)
    (targets : gmap string Z) :
  Forall (fun x => sized x = true) arr ->
  exists m, fill_bucket sign bucket arr targets = Ok m.
Proof.
  intros Hall. revert targets.
  induction Hall as [|x rest Hx _ IH]; intros targets; cbn [fill_bucket].
  - eexists. reflexivity.
  - unfold sized in Hx.
    destruct (symbol x) as [sym|]; [|discriminate].
    destruct (bps x) as [[q|]|]; try discriminate.
    cbn [py_int mbind result_bind]. apply IH.
Qed.

Lemma fill_bucket_unsized (sign bucket : Z) (arr : list Alloc)
    (targets : gmap string Z) :
  Forall (fun x => bps x <> Some JNull) arr ->
  Exists (fun x => sized x = false) arr ->
  exists k, fill_bucket sign bucket arr targets = Raise (KeyError k)
            /\ (k = "symbol"%string \/ k = "bps"%string).
Proof.
  intros Hnn Hex. revert targets.
  induction Hex as [x rest Hx | x rest _ IH]; intros targets;
    apply Forall_cons in Hnn as [Hn Hrest]; cbn [fill_bucket].
  - unfold sized in Hx.
    destruct (symbol x) as [sym|]; [|exists "symbol"%string; auto].
    destruct (bps x) as [[q|]|]; [discriminate | contradiction |].
    exists "bps"%string. auto.
  - destruct (symbol x) as [sym|]; [|exists "symbol"%string; auto].
    destruct (bps x) as [[q|]|]; [| contradiction | exists "bps"%string; auto].
    cbn [py_int mbind result_bind]. apply IH, Hrest.
Qed.

Lemma sum_bps_no_null (arr : list Alloc) (z : Z) :
  sum_bps arr = Ok z -> Forall (fun x => bps x <> Some JNull) arr.
Proof.
  revert z. induction arr as [|x rest IH]; intros z Hz; [constructor|].
  cbn [sum_bps] in Hz.
  destruct (bps x) as [[q|]|] eqn:E; cbn in Hz; try discriminate;
    (destruct (sum_bps rest) as [r|] eqn:Er; [|discriminate]);
    (constructor; [congruence | eapply IH; reflexivity]).
Qed.

Lemma sum_bps_nonzero (arr : list Alloc) (z : Z) :
  sum_bps arr = Ok z -> z <> 0 -> arr <> [].
Proof. intros Hz Hne ->. cbn in Hz. congruence. Qed.

(** What [load_strategy] has checked when it returns a strategy without a
    [type] key. *)
Lemma loaded_untyped (s : Strategy) :
  s_type s = None -> load_strategy s = Ok s ->
  sum_bps (default [] (longs s)) = Ok 10000
  /\ sum_bps (default [] (shorts s)) = Ok 10000.
Proof.
  intros Hty Hload. unfold load_strategy in Hload. rewrite Hty in Hload.
  destruct (sum_bps (default [] (longs s))) as [zl|] eqn:El; [|discriminate].
  cbn [mbind result_bind] in Hload.
  destruct (zl =? 10000) eqn:E1; [|discriminate]. cbn [negb] in Hload.
  destruct (sum_bps (default [] (shorts s))) as [zs|] eqn:Es; [|discriminate].
  cbn [mbind result_bind] in Hload.
  destruct (zs =? 10000) eqn:E2; [|discriminate].
  apply Z.eqb_eq in E1, E2. subst. split; reflexivity.
Qed.

(** A strategy without a [type] key that [load_strategy] accepts has both
    its [longs] and its [shorts] list, neither empty.  Sizing it then
    succeeds when every entry carries a [symbol] and a [bps], and raises
    [KeyError('symbol')] or [KeyError('bps')] when one does not: the loader
    never reads [symbol] and counts a missing [bps] as 0, the sizer
    subscripts both. *)
Theorem loaded_bucket_sizes_iff_bps (s : Strategy) (nav : Z)
    (current : gmap string Z) (cfg : Config) :
  s_type s = None ->
  load_strategy s = Ok s ->
  exists ls ss,
    longs s = Some ls /\ shorts s = Some ss /\ ls <> [] /\ ss <> []
    /\ (Forall (fun x => sized x = true) (ls ++ ss) ->
        is_ok (guard_and_targets nav current s cfg) = true)
    /\ (Exists (fun x => sized x = false) (ls ++ ss) ->
        exists k,
          guard_and_targets nav current s cfg = Raise (KeyError k)
          /\ (k = "symbol"%string \/ k = "bps"%string)).
Proof.
  intros Hty Hload. destruct (loaded_untyped s Hty Hload) as [E1 E2].
  destruct (longs s) as [ls|] eqn:El; [|cbn in E1; discriminate].
  destruct (shorts s) as [ss|] eqn:Es; [|cbn in E2; discriminate].
  cbn [default] in E1, E2.
  exists ls, ss. split; [reflexivity|]. split; [reflexivity|].
  split; [apply (sum_bps_nonzero _ _ E1); lia|].
  split; [apply (sum_bps_nonzero _ _ E2); lia|].
  pose proof (sum_bps_no_null _ _ E1) as Nl.
  pose proof (sum_bps_no_null _ _ E2) as Ns.
  unfold guard_and_targets, raw_bucket_targets. rewrite El, Es. split.
  - intros Hall. apply Forall_app in Hall as [Hl Hs].
    destruct (fill_bucket_sized 1 (Qint (inject_Z nav * leverage cfg)) ls ∅ Hl)
      as [m1 H1].
    rewrite H1. cbn [mbind result_bind].
    destruct (fill_bucket_sized (-1) (Qint (inject_Z nav * leverage cfg)) ss m1 Hs)
      as [m2 H2].
    rewrite H2. reflexivity.
  - intros Hex. apply Exists_app in Hex.
    destruct (decide (Exists (fun x => sized x = false) ls)) as [Hl|Hl].
    + destruct (fill_bucket_unsized 1 (Qint (inject_Z nav * leverage cfg)) ls ∅
                  Nl Hl) as (k & Hk & Hor).
      exists k. rewrite Hk. split; [reflexivity | exact Hor].
    + destruct Hex as [Hex|Hex]; [contradiction|].
      apply not_Exists_Forall in Hl; [|intros x; apply _].
      assert (Hl' : Forall (fun x => sized x = true) ls).
      { eapply Forall_impl; [exact Hl|]. intros x Hx. cbn in Hx.
        destruct (sized x); [reflexivity | contradiction]. }
      destruct (fill_bucket_sized 1 (Qint (inject_Z nav * leverage cfg)) ls ∅ Hl')
        as [m1 H1].
      rewrite H1. cbn [mbind result_bind].
      destruct (fill_bucket_unsized (-1) (Qint (inject_Z nav * leverage cfg)) ss
                  m1 Ns Hex) as (k & Hk & Hor).
      exists k. rewrite Hk. split; [reflexivity | exact Hor].
Qed.

(** The BTC/ETH bucket loads and sizes. *)
Lemma loaded_bucket_sizes_iff_bps_witness :
  exists ls ss,
    longs btc_eth_bucket = Some ls /\ shorts btc_eth_bucket = Some ss
    /\ is_ok (guard_and_targets (usd 1000000) flat_btc_eth btc_eth_bucket
                default_Config) = true.
Proof.
  destruct (loaded_bucket_sizes_iff_bps btc_eth_bucket (usd 1000000) flat_btc_eth
              default_Config eq_refl eq_refl)
    as (ls & ss & Hl & Hs & _ & _ & Hok & _).
  exists ls, ss. split; [exact Hl|]. split; [exact Hs|].
  vm_compute. reflexivity.
Defined.

End GuardExtras.

(** ** Further properties of the pair strategy *)

Module RegimeExtras.

Import Backtest Scenarios.

(** A regime in position whose NAV has moved since entry to the stop-loss
    or to the take-profit level goes to [neutral] in that evaluation,
    whatever [z] is and even inside the minimum hold. *)
Theorem stop_loss_or_take_profit_exits (nav : Z) (z k_in k_out : Q)
    (min_hold : Z) (stop tp : Q) (st : PairState) :
  regime st <> neutral ->
  0 < default nav (entry_nav_e6 st) ->
  ((0 < stop)%Q
   /\ (inject_Z (((nav - default nav (entry_nav_e6 st)) * 10000)
                 / default nav (entry_nav_e6 st)) <= - stop)%Q)
  \/ ((0 < tp)%Q
      /\ (tp <= inject_Z (((nav - default nav (entry_nav_e6 st)) * 10000)
                          / default nav (entry_nav_e6 st)))%Q) ->
  regime (regime_step nav z k_in k_out min_hold stop tp st) = neutral.
Proof.
  intros Hpos Hentry Hfire.
  assert (Hst : forall r h,
            stop_or_tp nav (default nav (entry_nav_e6 st)) stop tp r h = (neutral, 0)).
  { intros r h. unfold stop_or_tp.
    apply Z.gtb_lt in Hentry. rewrite Hentry.
    destruct Hfire as [[H1 H2]|[H1 H2]].
    - apply Qltb_lt in H1. apply Qleb_le in H2. rewrite H1, H2. reflexivity.
    - apply Qltb_lt in H1. apply Qleb_le in H2. rewrite H1, H2.
      destruct (_ && _); reflexivity. }
  assert (Hex : (hold_or_exit z k_out min_hold (neutral, 0)).1 = neutral).
  { unfold hold_or_exit. destruct (0 <? min_hold); [reflexivity|].
    destruct (Qleb _ _); reflexivity. }
  unfold regime_step.
  destruct (regime st); [contradiction | |]; rewrite Hst;
    destruct (hold_or_exit z k_out min_hold (neutral, 0)) as [r h];
    simpl in *; exact Hex.
Qed.

(** A long that is 100 bps under its entry NAV, five evaluations into a
    minimum hold of ten, with the stop at 50 bps. *)
Lemma stop_loss_or_take_profit_exits_witness :
  regime (regime_step (usd 990000) 3 2 1 10 50 100 held_long) = neutral.
Proof.
  apply stop_loss_or_take_profit_exits.
  - discriminate.
  - vm_compute. reflexivity.
  - left. split; vm_compute; congruence.
Defined.

(** With stop-loss and take-profit switched off, a regime in position
    leaves for [neutral] exactly when the minimum hold is served and
    [|z| <= k_out]; otherwise it keeps its side and counts one more step. *)
Theorem exit_needs_hold_and_k_out (nav : Z) (z k_in k_out : Q)
    (min_hold : Z) (stop tp : Q) (st : PairState) :
  regime st <> neutral -> (stop <= 0)%Q -> (tp <= 0)%Q ->
  (min_hold <= hold st /\ (Qabs z <= k_out)%Q ->
   regime_step nav z k_in k_out min_hold stop tp st
   = mkPairState neutral 0 (Some (default nav (entry_nav_e6 st))))
  /\ (hold st < min_hold \/ (k_out < Qabs z)%Q ->
      regime_step nav z k_in k_out min_hold stop tp st
      = mkPairState (regime st) (hold st + 1)
          (Some (default nav (entry_nav_e6 st)))).
Proof.
  intros Hpos Hstop Htp.
  assert (Hst : forall r h,
            stop_or_tp nav (default nav (entry_nav_e6 st)) stop tp r h = (r, h)).
  { intros r h. unfold stop_or_tp.
    apply Qltb_ge in Hstop. apply Qltb_ge in Htp. rewrite Hstop, Htp.
    destruct (_ >? _); reflexivity. }
  unfold regime_step. split.
  - intros [Hh Hz]. apply Qleb_le in Hz.
    destruct (regime st); [contradiction | |]; rewrite Hst; unfold hold_or_exit;
      (destruct (hold st <? min_hold) eqn:E; [apply Z.ltb_lt in E; lia|]);
      rewrite Hz; reflexivity.
  - intros Hor.
    destruct (regime st); [contradiction | |]; rewrite Hst; unfold hold_or_exit;
      (destruct (hold st <? min_hold) eqn:E; [reflexivity|]);
      (destruct Hor as [Hh|Hz]; [apply Z.ltb_ge in E; lia|]);
      apply Qleb_gt in Hz; rewrite Hz; reflexivity.
Qed.

(** Five evaluations into a minimum hold of ten, [z] back at zero: the long
    stays and the counter goes to six. *)
Lemma exit_needs_hold_and_k_out_witness :
  regime_step (usd 1000000) 0 2 1 10 0 0 held_long
  = mkPairState long 6 (Some (usd 1000000)).
Proof.
  destruct (exit_needs_hold_and_k_out (usd 1000000) 0 2 1 10 0 0 held_long)
    as [_ H].
  - discriminate.
  - vm_compute. discriminate.
  - vm_compute. discriminate.
  - apply H. left. vm_compute. reflexivity.
Defined.

(** *** The sides of the pair targets *)

Lemma Qint_nonneg (q : Q) : (0 <= q)%Q -> 0 <= Qint q.
Proof.
  intros Hq. unfold Qint. apply Z.quot_pos; [|lia].
  unfold Qle in Hq. simpl in Hq. lia.
Qed.

Lemma Qint_le_inject (q : Q) (z : Z) :
  (0 <= q)%Q -> (q <= inject_Z z)%Q -> Qint q <= z.
Proof.
  intros H0 Hz. unfold Qint.
  assert (Hn : 0 <= Qnum q) by (unfold Qle in H0; simpl in H0; lia).
  rewrite Z.quot_div_nonneg by lia.
  unfold Qle in Hz. simpl in Hz.
  apply Z.lt_succ_r. apply Z.div_lt_upper_bound; [lia|]. nia.
Qed.

(** When both prices are known, the pair strategy is long the first
    symbol and short the second, never the reverse: for a non-negative NAV
    and leverage the target of [symA] is [+l] and that of [symB] is [-s]
    with [l, s >= 0].  In the [neutral] regime (no skew) the two notionals
    add up to the whole gross [int(2 * nav * leverage)]. *)
Theorem pair_targets_sides (ln sqrt : Q -> Q) (nav : Z) (last_px : gmap string Q)
    (ret_hist : gmap string (list Q)) (symA symB : string) (p : PairParams)
    (cfg : Config) (state : PairState)
    (spread_hist : gmap (string * string) (list Q)) :
  is_Some (last_px !! symA) -> is_Some (last_px !! symB) ->
  0 <= nav -> (0 <= leverage cfg)%Q ->
  exists l s,
    (compute_targets_pair_breakout ln sqrt nav last_px ret_hist symA symB p cfg
       state spread_hist).1.1.1
    = <[ symB := - s ]> {[ symA := l ]}
    /\ 0 <= l /\ 0 <= s
    /\ (regime (compute_targets_pair_breakout ln sqrt nav last_px ret_hist symA
                  symB p cfg state spread_hist).1.2 = neutral ->
        l + s = Qint (inject_Z (2 * nav) * leverage cfg)).
Proof.
  intros [pxA HA] [pxB HB] Hnav Hlev.
  unfold compute_targets_pair_breakout. rewrite HA, HB. cbv zeta.
  set (total := Qint (inject_Z (2 * nav) * leverage cfg)).
  set (beta := if use_beta_of p then _ else 1%Q).
  set (ratio := Qmax beta (1 # 1000000)).
  set (s0 := Qint (inject_Z total / (ratio + 1))).
  set (state' := regime_step_params _ _ _ _).
  set (skew := skew_of _ _ _ _ _).
  assert (Htot : 0 <= total).
  { apply Qint_nonneg. apply Qmult_le_0_compat; [|exact Hlev].
    unfold Qle. simpl. lia. }
  assert (Hratio : (1 <= ratio + 1)%Q).
  { assert ((1 # 1000000) <= ratio)%Q by apply Q.le_max_r.
    assert (0 < 1 # 1000000)%Q by reflexivity. lra. }
  assert (Hq0 : (0 <= inject_Z total / (ratio + 1))%Q).
  { apply Qle_shift_div_l; [lra|]. rewrite Qmult_0_l.
    unfold Qle. simpl. lia. }
  assert (Hq1 : (inject_Z total / (ratio + 1) <= inject_Z total)%Q).
  { apply Qle_shift_div_r; [lra|].
    assert (0 <= inject_Z total)%Q by (unfold Qle; simpl; lia). nra. }
  assert (Hs0 : 0 <= s0) by (apply Qint_nonneg; exact Hq0).
  assert (Hs1 : s0 <= total) by (apply Qint_le_inject; assumption).
  destruct (skew =? 0) eqn:Esk.
  - exists (total - s0), s0. simpl.
    split; [reflexivity|]. split; [lia|]. split; [lia|]. intros _. lia.
  - exists (Z.max 0 (total - s0 + skew / 2)), (Z.max 0 (s0 - skew / 2)). simpl.
    split; [reflexivity|]. split; [lia|]. split; [lia|].
    intros Hneutral. exfalso. apply Z.eqb_neq in Esk. apply Esk.
    subst skew. unfold skew_of. rewrite Hneutral. reflexivity.
Qed.

(** On the first evaluation of a BTC/ETH pair at NAV 1,000,000 USD. *)
Lemma pair_targets_sides_witness :
  exists l s,
    (compute_targets_pair_breakout no_log no_sqrt (usd 1000000) pair_prices ∅
       "BTC" "ETH" no_params default_Config initial_pair_state ∅).1.1.1
    = <[ "ETH"%string := - s ]> {[ "BTC"%string := l ]}
    /\ 0 <= l /\ 0 <= s.
Proof.
  destruct (pair_targets_sides no_log no_sqrt (usd 1000000) pair_prices ∅
              "BTC" "ETH" no_params default_Config initial_pair_state ∅)
    as (l & s & H1 & H2 & H3 & _).
  - eexists. vm_compute. reflexivity.
  - eexists. vm_compute. reflexivity.
  - vm_compute. discriminate.
  - vm_compute. discriminate.
  - exists l, s. split; [exact H1|]. split; [exact H2 | exact H3].
Defined.

End RegimeExtras.

(** ** Further properties of the backtest loop *)

Module BacktestExtras.

Import Backtest Scenarios.

Section Rows.

Variable ln : Q -> Q.
Variable sqrt : Q -> Q.

(** What one time step does to the equity curve, the positions and the
    cooldown clock. *)
Lemma step_row (symbols : list string) (rows funding : gmap Z (gmap string Q))
    (strat : Strategy) (cfg : Config) (st st' : BtState) (ts : Z) :
  step ln sqrt symbols rows funding strat cfg st ts = Ok st' ->
  exists row,
    st_equity st' = st_equity st ++ [row]
    /\ row_ts row = ts
    /\ ((row_note row = "rebalance"%string
         /\ cooldown_elapsed (st_last_rebal_ts st) ts cfg = true
         /\ st_last_rebal_ts st' = Some ts)
        \/ (row_note row <> "rebalance"%string
            /\ row_fee_usd row = 0%Q
            /\ st_pos st' = st_pos st
            /\ st_last_rebal_ts st' = st_last_rebal_ts st
            /\ st_total_fee_usd st' = st_total_fee_usd st)).
Proof.
  unfold step. intros Hstep.
  destruct (apply_returns _ _ _ _ _ _) as [[pnl rh]|e]; [|discriminate].
  cbn [mbind result_bind] in Hstep.
  destruct (cooldown_elapsed (st_last_rebal_ts st) ts cfg) eqn:Ecd.
  - destruct (targets_and_guards _ _ _ _ _ _) as [[[[final meta] pstate] shist]|e];
      [|discriminate].
    cbn [mbind result_bind] in Hstep.
    destruct (match meta with Some _ => _ | None => _ end).
    + injection Hstep as <-. eexists. split; [reflexivity|].
      split; [reflexivity|]. right. repeat split; try reflexivity. discriminate.
    + destruct (_ && _ && _).
      * injection Hstep as <-. eexists. split; [reflexivity|].
        split; [reflexivity|]. right. repeat split; try reflexivity. discriminate.
      * injection Hstep as <-. eexists. split; [reflexivity|].
        split; [reflexivity|]. left. repeat split; reflexivity.
  - injection Hstep as <-. eexists. split; [reflexivity|].
    split; [reflexivity|]. right. repeat split; try reflexivity. discriminate.
Qed.

Lemma run_rows (symbols : list string) (rows funding : gmap Z (gmap string Q))
    (strat : Strategy) (cfg : Config) (timeline : list Z) (st st' : BtState) :
  run ln sqrt symbols rows funding strat cfg timeline st = Ok st' ->
  map row_ts (st_equity st') = map row_ts (st_equity st) ++ timeline.
Proof.
  revert st. induction timeline as [|ts rest IH]; intros st Hrun; simpl in Hrun.
  - injection Hrun as <-. rewrite app_nil_r. reflexivity.
  - destruct (step ln sqrt symbols rows funding strat cfg st ts) as [st1|e] eqn:E;
      [|discriminate].
    cbn [mbind result_bind] in Hrun.
    destruct (step_row _ _ _ _ _ _ _ _ E) as (row & Heq & Hts & _).
    rewrite (IH st1 Hrun), Heq, map_app. simpl. rewrite Hts, <- app_assoc.
    reflexivity.
Qed.

End Rows.

(** A time step moves positions, the cooldown clock and the fee total only
    when it records a [rebalance]: every other row (in cooldown, or one of
    the two skips) carries a zero fee and leaves all three as they were.  A
    [rebalance] row is only written once the cooldown has elapsed, and it
    restarts the clock at its own timestamp. *)
Theorem step_moves_only_on_rebalance (ln sqrt : Q -> Q) (symbols : list string)
    (rows funding : gmap Z (gmap string Q)) (strat : Strategy) (cfg : Config)
    (st st' : BtState) (ts : Z) :
  step ln sqrt symbols rows funding strat cfg st ts = Ok st' ->
  exists row,
    st_equity st' = st_equity st ++ [row]
    /\ row_ts row = ts
    /\ ((row_note row = "rebalance"%string
         /\ cooldown_elapsed (st_last_rebal_ts st) ts cfg = true
         /\ st_last_rebal_ts st' = Some ts)
        \/ (row_note row <> "rebalance"%string
            /\ row_fee_usd row = 0%Q
            /\ st_pos st' = st_pos st
            /\ st_last_rebal_ts st' = st_last_rebal_ts st
            /\ st_total_fee_usd st' = st_total_fee_usd st)).
Proof. apply step_row. Qed.

(** The first bar of [flat_prices] under the default config rebalances. *)
Lemma step_moves_only_on_rebalance_witness :
  exists st' row,
    step no_log no_sqrt (symbols_of flat_prices) (rows_by_ts_of flat_prices) ∅
      btc_eth_bucket default_Config
      (initial_state (symbols_of flat_prices) 1000000) 0 = Ok st'
    /\ st_equity st' = [row]
    /\ row_ts row = 0.
Proof.
  destruct (step no_log no_sqrt (symbols_of flat_prices)
              (rows_by_ts_of flat_prices) ∅ btc_eth_bucket default_Config
              (initial_state (symbols_of flat_prices) 1000000) 0)
    as [st'|e] eqn:E; [|vm_compute in E; discriminate].
  destruct (step_moves_only_on_rebalance _ _ _ _ _ _ _ _ _ _ E)
    as (row & Heq & Hts & _).
  exists st', row. split; [reflexivity|]. split; [exact Heq | exact Hts].
Defined.

(** A backtest that returns has written exactly one equity row per distinct
    timestamp of the price file, in ascending order of time. *)
Theorem backtest_one_row_per_timestamp (ln sqrt : Q -> Q)
    (pow : Q -> Q -> result (option Q))
    (prices : list PriceRow) (strat : Strategy) (cfg : Config)
    (start_nav_usd : Q) (st : BtState) (metrics : option Metrics) :
  backtest ln sqrt pow prices strat cfg start_nav_usd = Ok (st, metrics) ->
  map row_ts (st_equity st) = timeline_of (rows_by_ts_of prices)
  /\ Sorted Z.le (map row_ts (st_equity st))
  /\ NoDup (map row_ts (st_equity st))
  /\ (forall ts, ts ∈ map row_ts (st_equity st)
                 <-> exists sym px f, (ts, sym, px, f) ∈ prices).
Proof.
  unfold backtest. intros Hret.
  destruct (backtest_loop ln sqrt prices strat cfg start_nav_usd)
    as [st0|e] eqn:Hrun; [|discriminate].
  cbn [mbind result_bind] in Hret.
  destruct (compute_metrics sqrt pow _ _) as [m0|e]; [|discriminate].
  cbn [mbind result_bind] in Hret.
  destruct (json_dump m0); [|discriminate].
  cbn [mbind result_bind] in Hret. injection Hret as -> ->.
  unfold backtest_loop in Hrun.
  apply run_rows in Hrun. simpl in Hrun.
  rewrite Hrun. split; [reflexivity|].
  unfold timeline_of.
  split; [apply Sorted_merge_sort; intros x y; lia|].
  split.
  - rewrite merge_sort_Permutation. apply NoDup_elements.
  - intros ts. rewrite merge_sort_Permutation, elem_of_elements, elem_of_dom.
    unfold rows_by_ts_of.
    assert (Hgen : forall (l : list PriceRow) (m : gmap Z (gmap string Q)),
              is_Some (foldl (fun m r =>
                         let '(ts, sym, px, _) := r in
                         <[ ts := <[ sym := px ]> (default ∅ (m !! ts)) ]> m) m l
                       !! ts)
              <-> is_Some (m !! ts) \/ exists sym px f, (ts, sym, px, f) ∈ l).
    { induction l as [|[[[ts0 sym0] px0] f0] rest IH]; intros m; simpl.
      - split; [intros H; left; exact H|].
        intros [H|(sym & px & f & H)]; [exact H|]. inversion H.
      - rewrite IH. split.
        + intros [H|(sym & px & f & H)].
          * destruct (decide (ts0 = ts)) as [->|Hne].
            -- right. exists sym0, px0, f0. left.
            -- rewrite lookup_insert_ne in H by assumption. left. exact H.
          * right. exists sym, px, f. right. exact H.
        + intros [H|(sym & px & f & H)].
          * left. destruct (decide (ts0 = ts)) as [->|Hne].
            -- rewrite lookup_insert_eq. eauto.
            -- rewrite lookup_insert_ne by assumption. exact H.
          * apply elem_of_cons in H as [Heq|H].
            -- injection Heq as -> -> -> ->. left. rewrite lookup_insert_eq. eauto.
            -- right. exists sym, px, f. exact H. }
    rewrite Hgen. split.
    + intros [H|H]; [|exact H]. rewrite lookup_empty in H. destruct H. discriminate.
    + intros H. right. exact H.
Qed.

(** Two bars, two rows. *)
Lemma backtest_one_row_per_timestamp_witness :
  exists st m,
    backtest no_log no_sqrt no_pow flat_prices btc_eth_bucket default_Config
      1000000
    = Ok (st, m)
    /\ map row_ts (st_equity st) = [0; 3600].
Proof.
  destruct (backtest no_log no_sqrt no_pow flat_prices btc_eth_bucket
              default_Config 1000000) as [[st m]|e] eqn:E;
    [|vm_compute in E; discriminate].
  destruct (backtest_one_row_per_timestamp _ _ _ _ _ _ _ _ _ E) as (H & _).
  exists st, m. split; [reflexivity|]. rewrite H. vm_compute. reflexivity.
Defined.

(** *** Funding *)

(** Positive funding charges longs: when every symbol with a funding rate
    this step has a non-negative rate and a non-negative position, the
    funding booked is at most zero; with non-positive positions (shorts) it
    is at least zero. *)
Theorem funding_charges_longs (pos : gmap string Z) (fund : gmap string Q) :
  (forall s f, fund !! s = Some f -> (0 <= f)%Q) ->
  ((forall s f, fund !! s = Some f -> 0 <= get0 pos s) ->
   (funding_of pos fund <= 0)%Q)
  /\ ((forall s f, fund !! s = Some f -> get0 pos s <= 0) ->
      (0 <= funding_of pos fund)%Q).
Proof.
  intros Hf. unfold funding_of. split; intros Hp.
  - revert Hf Hp.
    apply (map_fold_weak_ind
             (fun (r : Q) (m : gmap string Q) =>
                (forall s f, m !! s = Some f -> (0 <= f)%Q) ->
                (forall s f, m !! s = Some f -> 0 <= get0 pos s) ->
                (r <= 0)%Q)).
    + intros _ _. apply Qle_refl.
    + intros i x m r Hi IH Hf Hp.
      assert (Hr : (r <= 0)%Q).
      { apply IH; intros s f Hs; [apply (Hf s f) | apply (Hp s f)];
          (rewrite lookup_insert_ne; [exact Hs | intros ->; congruence]). }
      destruct (_ && _); [|exact Hr].
      assert (Hx : (0 <= x)%Q) by (apply (Hf i x), lookup_insert_eq).
      assert (Hpi : 0 <= get0 pos i) by (apply (Hp i x), lookup_insert_eq).
      assert (Hq : (0 <= inject_Z (get0 pos i) / E6q)%Q).
      { apply Qle_shift_div_l; [reflexivity|]. rewrite Qmult_0_l.
        unfold Qle. simpl. lia. }
      assert (Hx' : (0 <= x / 10000)%Q).
      { apply Qle_shift_div_l; [reflexivity|]. rewrite Qmult_0_l. exact Hx. }
      nra.
  - revert Hf Hp.
    apply (map_fold_weak_ind
             (fun (r : Q) (m : gmap string Q) =>
                (forall s f, m !! s = Some f -> (0 <= f)%Q) ->
                (forall s f, m !! s = Some f -> get0 pos s <= 0) ->
                (0 <= r)%Q)).
    + intros _ _. apply Qle_refl.
    + intros i x m r Hi IH Hf Hp.
      assert (Hr : (0 <= r)%Q).
      { apply IH; intros s f Hs; [apply (Hf s f) | apply (Hp s f)];
          (rewrite lookup_insert_ne; [exact Hs | intros ->; congruence]). }
      destruct (_ && _); [|exact Hr].
      assert (Hx : (0 <= x)%Q) by (apply (Hf i x), lookup_insert_eq).
      assert (Hpi : get0 pos i <= 0) by (apply (Hp i x), lookup_insert_eq).
      assert (Hq : (inject_Z (get0 pos i) / E6q <= 0)%Q).
      { apply Qle_shift_div_r; [reflexivity|]. rewrite Qmult_0_l.
        unfold Qle. simpl. lia. }
      assert (Hx' : (0 <= x / 10000)%Q).
      { apply Qle_shift_div_l; [reflexivity|]. rewrite Qmult_0_l. exact Hx. }
      nra.
Qed.

(** A long of 500,000 USD at 1 bp of funding pays 50 USD. *)
Lemma funding_charges_longs_witness :
  (funding_of scenario_final {[ "BTC"%string := 1%Q ]} == -50)%Q
  /\ (funding_of scenario_final {[ "BTC"%string := 1%Q ]} <= 0)%Q.
Proof.
  split; [vm_compute; reflexivity|].
  destruct (funding_charges_longs scenario_final {[ "BTC"%string := 1%Q ]})
    as [H _].
  - intros s f Hs. apply lookup_singleton_Some in Hs as [_ <-]. discriminate.
  - apply H. intros s f Hs. apply lookup_singleton_Some in Hs as [<- _].
    vm_compute. discriminate.
Defined.

End BacktestExtras.

(** ** A further property of the solver *)

Module SolverExtras.

Import Etf Scenarios.

Lemma risk_parity_weights_abs_sum (sig_b sig_e sign_b sign_e : Q) :
  (Qabs (risk_parity_weights sig_b sig_e sign_b sign_e).1
   + Qabs (risk_parity_weights sig_b sig_e sign_b sign_e).2 == 1)%Q.
Proof.
  unfold risk_parity_weights.
  set (a := (inv_vol sig_b * sign_of sign_b)%Q).
  set (b := (inv_vol sig_e * sign_of sign_e)%Q).
  destruct (Qeqb (Qabs a + Qabs b) 0) eqn:E.
  - reflexivity.
  - apply Qeqb_neq in E. cbn [fst snd].
    assert (Hs : (0 <= Qabs a + Qabs b)%Q).
    { pose proof (Qabs_nonneg a). pose proof (Qabs_nonneg b). lra. }
    unfold Qdiv. rewrite !Qabs_Qmult, !Qabs_Qinv.
    rewrite (Qabs_pos (Qabs a + Qabs b)) by exact Hs.
    field. exact E.
Qed.

(** The docstring of [risk_parity_weights]: whatever the sigmas and the
    signs, the absolute values of the two weights add up to 1. *)
Theorem risk_parity_weights_normalised (sig_b sig_e sign_b sign_e : Q) :
  (Qabs (risk_parity_weights sig_b sig_e sign_b sign_e).1
   + Qabs (risk_parity_weights sig_b sig_e sign_b sign_e).2 == 1)%Q.
Proof. apply risk_parity_weights_abs_sum. Qed.

End SolverExtras.

(** ** Further properties of the vault, the index and the tick *)

Module EngineExtras.

Import Etf Scenarios.

(** *** A vault without positions *)

Lemma accrue_flat (asset : string) (px : Q) (v : Vault) (c : Q) :
  (pos_of v asset == 0)%Q -> Dec.exact c -> (accrue asset px v c == c)%Q.
Proof.
  intros Hpos Hc. unfold accrue.
  destruct (last_px v !! asset) as [lp|]; [|reflexivity].
  destruct (Qltb 0 lp); [|reflexivity].
  assert (Hqty : (if negb (Qeqb lp 0) then Dec.div (pos_of v asset) lp else 0%Q)
                 = 0%Q).
  { destruct (negb (Qeqb lp 0)); [|reflexivity].
    unfold Dec.div. apply EtfFacts.round_zero. rewrite Hpos.
    unfold Qdiv. ring. }
  rewrite Hqty. unfold Dec.add, Dec.mul.
  rewrite (EtfFacts.round_zero (0 * _)) by ring.
  apply EtfFacts.round_exact; [ring | exact Hc].
Qed.

(** A vault that holds no position is worth its cash at any prices: marking
    it books no PnL, whatever the last prices were (the cash being a value
    the decimal context represents). *)
Theorem nav_of_flat_vault (v : Vault) (pxs : Q * Q) :
  (pos_of v "BTC" == 0)%Q -> (pos_of v "ETH" == 0)%Q -> Dec.exact (cash v) ->
  ((nav v pxs).1 == cash v)%Q
  /\ positions_usd (nav v pxs).2 = positions_usd v
  /\ total_shares (nav v pxs).2 = total_shares v.
Proof.
  destruct pxs as [b e]. intros Hb He Hc.
  split; [|split; reflexivity].
  rewrite EtfFacts.nav_first.
  pose proof (accrue_flat "BTC" b v (cash v) Hb Hc) as H1.
  rewrite (accrue_flat "ETH" e v _ He).
  - exact H1.
  - apply (EtfFacts.exact_Qeq (cash v)); [symmetry; exact H1 | exact Hc].
Qed.

(** A fresh vault of 10,000 USD marked at the mock prices. *)
Lemma nav_of_flat_vault_witness :
  ((nav (new_Vault 10000) market).1 == 10000)%Q.
Proof.
  destruct (nav_of_flat_vault (new_Vault 10000) market) as [H _].
  - reflexivity.
  - reflexivity.
  - vm_compute. reflexivity.
  - exact H.
Defined.

(** *** Dry runs *)

Section DryRun.

Context {A : Type} `{Adapter A}.
Variable ln : Q -> Q.
Variable sqrt : Q -> Q.

Lemma chunk_dry (is_btc : bool) (asset : string) (part : Q) (cap_bps : Z)
    (t : Trade A) :
  t_adapter (chunk is_btc asset part cap_bps true t).1 = t_adapter t
  /\ t_vault (chunk is_btc asset part cap_bps true t).1 = t_vault t
  /\ pos_b_after (chunk is_btc asset part cap_bps true t).1 = pos_b_after t
  /\ pos_e_after (chunk is_btc asset part cap_bps true t).1 = pos_e_after t.
Proof.
  unfold chunk. destruct (check_slippage _ _ _ _); [|repeat split; reflexivity].
  destruct is_btc; repeat split; reflexivity.
Qed.

Lemma chunks_loop_dry (n : nat) (is_btc : bool) (asset : string) (part : Q)
    (cap_bps : Z) (t : Trade A) :
  t_adapter (chunks_loop n is_btc asset part cap_bps true t).1 = t_adapter t
  /\ t_vault (chunks_loop n is_btc asset part cap_bps true t).1 = t_vault t
  /\ pos_b_after (chunks_loop n is_btc asset part cap_bps true t).1 = pos_b_after t
  /\ pos_e_after (chunks_loop n is_btc asset part cap_bps true t).1 = pos_e_after t.
Proof.
  revert t. induction n as [|n IH]; intros t; simpl.
  - repeat split; reflexivity.
  - pose proof (chunk_dry is_btc asset part cap_bps t) as (H1 & H2 & H3 & H4).
    destruct (chunk is_btc asset part cap_bps true t) as [t' [e|]]; simpl in *.
    + repeat split; assumption.
    + destruct (IH t') as (I1 & I2 & I3 & I4).
      repeat split; congruence.
Qed.

Lemma trade_asset_dry (is_btc : bool) (asset : string) (delta min_trade : Q)
    (cap_bps : Z) (t : Trade A) :
  t_adapter (trade_asset is_btc asset delta min_trade cap_bps true t) = t_adapter t
  /\ t_vault (trade_asset is_btc asset delta min_trade cap_bps true t) = t_vault t
  /\ pos_b_after (trade_asset is_btc asset delta min_trade cap_bps true t)
     = pos_b_after t
  /\ pos_e_after (trade_asset is_btc asset delta min_trade cap_bps true t)
     = pos_e_after t.
Proof.
  unfold trade_asset. destruct (Qltb _ _); [repeat split; reflexivity|].
  match goal with
  | |- context [chunks_loop ?n is_btc asset ?part cap_bps true t] =>
      pose proof (chunks_loop_dry n is_btc asset part cap_bps t) as (H1 & H2 & H3 & H4);
      destruct (chunks_loop n is_btc asset part cap_bps true t) as [t' [e|]]
  end; simpl in *; repeat split; assumption.
Qed.

(** A dry run places no order: whatever the tick computes and logs, it
    returns the adapter as it was, leaves the vault's positions and share
    count untouched, and reports positions after equal to positions
    before. *)
Theorem dry_run_places_no_order (a a' : A) (vault v' : Vault)
    (index ix' : IndexCalculator) (cfg : EtfConfig) (mode : Mode)
    (ov : option Q) (row : Row) :
  engine_tick ln sqrt a vault index cfg mode true ov = Ok (row, v', ix', a') ->
  a' = a
  /\ positions_usd v' = positions_usd vault
  /\ total_shares v' = total_shares vault
  /\ btc_pos_usd_after row = btc_pos_usd_before row
  /\ eth_pos_usd_after row = eth_pos_usd_before row.
Proof.
  unfold engine_tick. intros Htick.
  destruct (fetch a) as [[[b e] [fb fe]]|err].
  - destruct (update ln sqrt index (b, e) (fb, fe) (w_BTC cfg) (w_ETH cfg))
      as [[vix ix1]|err]; [|discriminate].
    cbn [mbind result_bind] in Htick.
    destruct (nav vault (b, e)) as [n v1] eqn:En.
    assert (Hv1 : positions_usd v1 = positions_usd vault
                  /\ total_shares v1 = total_shares vault).
    { change v1 with (n, v1).2. rewrite <- En, EtfFacts.nav_second.
      split; reflexivity. }
    destruct (targets_of sqrt mode ix1 cfg n vix ov) as [[[tb te] L]|err];
      [|discriminate].
    cbn [mbind result_bind] in Htick.
    destruct (_ ← check_leverage tb te n (L_max cfg);
              check_asset_caps tb te n (asset_cap cfg)).
    + match type of Htick with
      | context [trade_asset false "ETH" ?dE ?mt ?cap true
                   (trade_asset true "BTC" ?dB ?mt ?cap true ?t0)] =>
          pose proof (trade_asset_dry true "BTC" dB mt cap t0) as (B1 & B2 & B3 & B4);
          pose proof (trade_asset_dry false "ETH" dE mt cap
                        (trade_asset true "BTC" dB mt cap true t0))
            as (E1 & E2 & E3 & E4);
          set (t2 := trade_asset false "ETH" dE mt cap true
                       (trade_asset true "BTC" dB mt cap true t0)) in *
      end.
      destruct (nav (t_vault t2) (b, e)) as [n2 v2] eqn:En2.
      assert (Hv2 : positions_usd v2 = positions_usd (t_vault t2)
                    /\ total_shares v2 = total_shares (t_vault t2)).
      { change v2 with (n2, v2).2. rewrite <- En2, EtfFacts.nav_second.
        split; reflexivity. }
      injection Htick as <- <- <- <-. simpl in *.
      destruct Hv1 as [P1 T1]. destruct Hv2 as [P2 T2].
      repeat split; congruence.
    + injection Htick as <- <- <- <-. destruct Hv1. repeat split; assumption.
  - destruct (nav vault placeholder_pxs) as [n v1] eqn:En.
    injection Htick as <- <- <- <-.
    change v1 with (n, v1).2. rewrite <- En.
    unfold placeholder_pxs. rewrite EtfFacts.nav_second.
    repeat split; reflexivity.
Qed.

End DryRun.

(** A dry run of Mode A against the mock adapter. *)
Lemma dry_run_places_no_order_witness :
  exists row v' ix',
    engine_tick no_log no_sqrt new_MockAdapter (new_Vault 10000)
      new_IndexCalculator etf_config ModeA true None
    = Ok (row, v', ix', new_MockAdapter)
    /\ positions_usd v' = positions_usd (new_Vault 10000).
Proof.
  destruct (engine_tick no_log no_sqrt new_MockAdapter (new_Vault 10000)
              new_IndexCalculator etf_config ModeA true None)
    as [[[[row v'] ix'] a']|e] eqn:E; [|vm_compute in E; discriminate].
  destruct (dry_run_places_no_order no_log no_sqrt _ _ _ _ _ _ _ _ _ _ E)
    as (Ha & Hp & _).
  exists row, v', ix'. split; [rewrite Ha; reflexivity | exact Hp].
Defined.

(** *** The index update *)

Lemma getq_seed_px_pos (asset : string) (px : Q) (m : gmap string Q) :
  (0 < px)%Q -> (0 < getq (seed_px asset px m) asset)%Q.
Proof.
  intros Hpx. unfold seed_px, getq.
  destruct (m !! asset) as [lp|] eqn:E.
  - destruct (Qleb lp 0) eqn:El.
    + rewrite lookup_insert_eq. exact Hpx.
    + rewrite E. simpl. apply Qleb_gt. exact El.
  - rewrite lookup_insert_eq. exact Hpx.
Qed.

Lemma getq_seed_px_other (asset other : string) (px : Q) (m : gmap string Q) :
  asset <> other -> getq (seed_px asset px m) other = getq m other.
Proof.
  intros Hne. unfold seed_px, getq.
  destruct (m !! asset) as [lp|]; [destruct (Qleb lp 0)|];
    rewrite ?lookup_insert_ne by exact Hne; reflexivity.
Qed.

Lemma seed_px_kept (asset : string) (px lp : Q) (m : gmap string Q) :
  m !! asset = Some lp -> (0 < lp)%Q -> seed_px asset px m = m.
Proof.
  intros Hm Hlp. unfold seed_px. rewrite Hm.
  apply Qleb_gt in Hlp. rewrite Hlp. reflexivity.
Qed.

Section IndexFacts.

Variable ln : Q -> Q.
Variable sqrt : Q -> Q.

Lemma log_return_positive (px lp : Q) :
  (0 < px)%Q -> (0 < lp)%Q -> log_return ln px lp = Ok (ln (px / lp)).
Proof.
  intros Hpx Hlp. unfold log_return, py_log.
  apply Qltb_lt in Hlp as Hb. rewrite Hb.
  assert (Hq : (0 < px / lp)%Q).
  { apply Qlt_shift_div_l; [exact Hlp|]. rewrite Qmult_0_l. exact Hpx. }
  apply Qleb_gt in Hq. rewrite Hq. reflexivity.
Qed.

Lemma ewma_nonneg (a old r : Q) :
  (0 <= a)%Q -> (a <= 1)%Q -> (0 <= old)%Q -> (0 <= (1 - a) * old + a * (r * r))%Q.
Proof. intros. nra. Qed.

(** On positive prices the index update returns: it records the two
    prices as the last ones and, for a decay [alpha] in [[0, 1]], keeps both
    EWMA variances non-negative, so that [get_sigmas] on the updated index
    returns as well. *)
Theorem index_update_on_positive_prices (ix : IndexCalculator)
    (b e fb fe wB wE : Q) :
  (0 < b)%Q -> (0 < e)%Q ->
  (0 <= alpha ix)%Q -> (alpha ix <= 1)%Q ->
  (0 <= getq (ewma_var ix) "BTC")%Q -> (0 <= getq (ewma_var ix) "ETH")%Q ->
  exists vix ix',
    update ln sqrt ix (b, e) (fb, fe) wB wE = Ok (vix, ix')
    /\ ix_last_px ix' !! "BTC"%string = Some b
    /\ ix_last_px ix' !! "ETH"%string = Some e
    /\ (0 <= getq (ewma_var ix') "BTC")%Q
    /\ (0 <= getq (ewma_var ix') "ETH")%Q
    /\ is_ok (get_sigmas sqrt ix') = true.
Proof.
  intros Hb He Ha0 Ha1 Hvb Hve. unfold update.
  set (lp := seed_px "ETH" e (seed_px "BTC" b (ix_last_px ix))).
  assert (HlpB : (0 < getq lp "BTC")%Q).
  { subst lp. rewrite getq_seed_px_other by discriminate.
    apply getq_seed_px_pos. exact Hb. }
  assert (HlpE : (0 < getq lp "ETH")%Q).
  { subst lp. apply getq_seed_px_pos. exact He. }
  rewrite (log_return_positive b _ Hb HlpB). cbn [mbind result_bind].
  rewrite (log_return_positive e _ He HlpE). cbn [mbind result_bind].
  set (r_b := ln (b / getq lp "BTC")). set (r_e := ln (e / getq lp "ETH")).
  unfold py_sqrt at 1.
  match goal with
  | |- context [Qltb (Qmax ?x 0) 0] =>
      assert (Em : Qltb (Qmax x 0) 0 = false)
        by (apply Qltb_ge; apply Q.le_max_r);
      rewrite Em
  end.
  cbn [mbind result_bind].
  eexists. eexists. split; [reflexivity|].
  cbn [ix_last_px ewma_var].
  assert (HvB : (0 <= (1 - alpha ix) * getq (ewma_var ix) "BTC"
                      + alpha ix * (r_b * r_b))%Q)
    by (apply ewma_nonneg; assumption).
  assert (HvE : (0 <= (1 - alpha ix) * getq (ewma_var ix) "ETH"
                      + alpha ix * (r_e * r_e))%Q)
    by (apply ewma_nonneg; assumption).
  assert (GB : forall (x y : Q) (m : gmap string Q),
            getq (<[ "ETH"%string := y ]> (<[ "BTC"%string := x ]> m)) "BTC" = x).
  { intros x y m. unfold getq.
    rewrite lookup_insert_ne by discriminate. rewrite lookup_insert_eq. reflexivity. }
  assert (GE : forall (x y : Q) (m : gmap string Q),
            getq (<[ "ETH"%string := y ]> (<[ "BTC"%string := x ]> m)) "ETH" = y).
  { intros x y m. unfold getq. rewrite lookup_insert_eq. reflexivity. }
  split; [rewrite lookup_insert_ne by discriminate; apply lookup_insert_eq|].
  split; [apply lookup_insert_eq|].
  rewrite GB, GE. split; [exact HvB|]. split; [exact HvE|].
  unfold get_sigmas, py_sqrt. cbn [ewma_var]. rewrite GB, GE.
  apply Qltb_ge in HvB. apply Qltb_ge in HvE. rewrite HvB. cbn [mbind result_bind].
  rewrite HvE. reflexivity.
Qed.

(** After a positive last price of BTC, a BTC price at or below zero makes
    the index update take the logarithm of a non-positive ratio: the update
    raises [ValueError('math domain error')], and [engine_tick], which
    calls it outside any [try], raises with it instead of returning an
    ERROR row. *)
Theorem nonpositive_price_raises {A} `{Adapter A} (a : A) (vault : Vault)
    (index : IndexCalculator) (cfg : EtfConfig) (mode : Mode) (dry_run : bool)
    (ov : option Q) (b e fb fe lp : Q) :
  fetch a = Ok ((b, e), (fb, fe)) ->
  ix_last_px index !! "BTC"%string = Some lp -> (0 < lp)%Q -> (b <= 0)%Q ->
  exists msg : string,
    update ln sqrt index (b, e) (fb, fe) (w_BTC cfg) (w_ETH cfg)
    = Raise (ValueError msg)
    /\ engine_tick ln sqrt a vault index cfg mode dry_run ov
       = Raise (ValueError msg).
Proof.
  intros Hf Hlast Hlp Hb. exists "math domain error"%string.
  assert (Hup : update ln sqrt index (b, e) (fb, fe) (w_BTC cfg) (w_ETH cfg)
                = Raise (ValueError "math domain error")).
  { unfold update.
    rewrite (seed_px_kept "BTC" b lp _ Hlast Hlp).
    assert (Hg : getq (seed_px "ETH" e (ix_last_px index)) "BTC" = lp).
    { rewrite (getq_seed_px_other "ETH" "BTC") by discriminate.
      unfold getq. rewrite Hlast. reflexivity. }
    rewrite Hg.
    assert (Hr : log_return ln b lp = Raise (ValueError "math domain error")).
    { unfold log_return, py_log.
      apply Qltb_lt in Hlp as Hl. rewrite Hl.
      assert (Hq : (b / lp <= 0)%Q).
      { apply Qle_shift_div_r; [exact Hlp|]. rewrite Qmult_0_l. exact Hb. }
      apply Qleb_le in Hq. rewrite Hq. reflexivity. }
    rewrite Hr. reflexivity. }
  split; [exact Hup|].
  unfold engine_tick. rewrite Hf, Hup. reflexivity.
Qed.

End IndexFacts.

(** A first update of a fresh index at the mock prices. *)
Lemma index_update_on_positive_prices_witness :
  exists vix ix',
    update no_log no_sqrt new_IndexCalculator market (4%Q, (-5)%Q) (6 # 10)
      (- (4 # 10))
    = Ok (vix, ix')
    /\ ix_last_px ix' !! "BTC"%string = Some 60000%Q.
Proof.
  destruct (index_update_on_positive_prices no_log no_sqrt new_IndexCalculator
              60000 2400 4 (-5) (6 # 10) (- (4 # 10)))
    as (vix & ix' & H1 & H2 & _);
    try first [reflexivity | vm_compute; discriminate].
  exists vix, ix'. split; [exact H1 | exact H2].
Defined.

(** The mock adapter nudged to a BTC price of zero, on an index that has
    seen 60,000. *)
Lemma nonpositive_price_raises_witness :
  exists msg : string,
    engine_tick no_log no_sqrt halted_mock (new_Vault 10000) seen_index
      etf_config ModeA false None
    = Raise (ValueError msg).
Proof.
  destruct (nonpositive_price_raises no_log no_sqrt halted_mock
              (new_Vault 10000) seen_index etf_config ModeA false None
              0 2400 4 (-5) 60000) as (msg & _ & Ht).
  - reflexivity.
  - reflexivity.
  - reflexivity.
  - vm_compute. discriminate.
  - exists msg. exact Ht.
Defined.

End EngineExtras.

(** ** Summary statistics

    The slippage percentile of [hl-vix-etf/main.py] and the max-drawdown
    loop of [backtest/engine.py]. *)

Module MetricsExtras.

Import Backtest Metrics.

Lemma Qint_mono (x y : Q) : (0 <= x)%Q -> (x <= y)%Q -> Qint x <= Qint y.
Proof.
  intros H0 Hxy. unfold Qint.
  destruct x as [a b], y as [c d]. unfold Qle in *. simpl in *.
  assert (Ha : 0 <= a) by lia.
  assert (Hc : 0 <= c) by nia.
  rewrite !Z.quot_div_nonneg by lia.
  apply Z.div_le_lower_bound; [lia|].
  pose proof (Z.mul_div_le a (Z.pos b) ltac:(lia)) as Hq.
  nia.
Qed.

Lemma py_index_in_range {A} (s : list A) (k : Z) :
  0 <= k < Z.of_nat (length s) -> py_index s k = s !! Z.to_nat k.
Proof.
  intros Hk. unfold py_index.
  replace (0 <=? k) with true by (symmetry; apply Z.leb_le; lia).
  replace (k <? Z.of_nat (length s)) with true by (symmetry; apply Z.ltb_lt; lia).
  reflexivity.
Qed.

Lemma fraction_bounds (p : Q) :
  (0 <= p)%Q -> (p <= 100)%Q -> (0 <= p / 100)%Q /\ (p / 100 <= 1)%Q.
Proof.
  intros H0 H1. split.
  - apply Qle_shift_div_l; [reflexivity|]. rewrite Qmult_0_l. exact H0.
  - apply Qle_shift_div_r; [reflexivity|]. rewrite Qmult_1_l. exact H1.
Qed.

Lemma rank_bounds (p : Q) (n : Z) :
  1 <= n -> (0 <= p)%Q -> (p <= 100)%Q ->
  0 <= Qint (p / 100 * inject_Z (n - 1)) <= n - 1.
Proof.
  intros Hn H0 H1.
  destruct (fraction_bounds p H0 H1) as [Hf0 Hf1].
  assert (Hm : (0 <= inject_Z (n - 1))%Q) by (unfold Qle; simpl; lia).
  assert (Hp0 : (0 <= p / 100 * inject_Z (n - 1))%Q)
    by (apply Qmult_le_0_compat; assumption).
  split.
  - apply RegimeExtras.Qint_nonneg. exact Hp0.
  - apply RegimeExtras.Qint_le_inject; [exact Hp0|].
    rewrite <- (Qmult_1_l (inject_Z (n - 1))) at 2.
    apply Qmult_le_compat_r; assumption.
Qed.

Lemma sorted_vals (vals : list Z) : StronglySorted Z.le (merge_sort Z.le vals).
Proof.
  apply Sorted_StronglySorted; [intros x y z; lia|].
  apply Sorted_merge_sort. intros x y; lia.
Qed.

Lemma length_sorted (vals : list Z) :
  length (merge_sort Z.le vals) = length vals.
Proof. apply Permutation_length, merge_sort_Permutation. Qed.

Lemma StronglySorted_lookup_le (s : list Z) (i j : nat) (x y : Z) :
  StronglySorted Z.le s -> (i <= j)%nat ->
  s !! i = Some x -> s !! j = Some y -> x <= y.
Proof.
  intros Hs. revert i j.
  induction Hs as [|a l Hl IH Ha]; intros i j Hij Hi Hj.
  - discriminate.
  - destruct i as [|i], j as [|j]; simpl in *.
    + assert (x = y) by congruence. lia.
    + inversion Hi; subst. rewrite Forall_forall in Ha. apply Ha.
      eapply list_elem_of_lookup_2; eassumption.
    + lia.
    + eapply (IH i j); [lia|assumption..].
Qed.

(** The rank [_percentile] reads, as a position of the sorted sample. *)
Lemma percentile_lookup (vals : list Z) (p : Q) :
  vals <> [] -> (0 <= p)%Q -> (p <= 100)%Q ->
  exists k : nat,
    Z.of_nat k = Qint (p / 100 * inject_Z (Z.of_nat (length vals) - 1))
    /\ (k < length vals)%nat
    /\ _percentile vals p = merge_sort Z.le vals !! k.
Proof.
  intros Hne H0 H1.
  assert (Hn : 1 <= Z.of_nat (length vals)).
  { destruct vals; [congruence | simpl; lia]. }
  pose proof (rank_bounds p _ Hn H0 H1) as Hk.
  exists (Z.to_nat (Qint (p / 100 * inject_Z (Z.of_nat (length vals) - 1)))).
  split; [lia|]. split; [lia|].
  unfold _percentile. destruct vals as [|v vals']; [congruence|].
  cbv zeta. rewrite length_sorted.
  apply py_index_in_range. rewrite length_sorted. lia.
Qed.

Lemma percentile_some (vals : list Z) (p : Q) :
  vals <> [] -> (0 <= p)%Q -> (p <= 100)%Q ->
  exists (k : nat) (x : Z),
    Z.of_nat k = Qint (p / 100 * inject_Z (Z.of_nat (length vals) - 1))
    /\ merge_sort Z.le vals !! k = Some x
    /\ _percentile vals p = Some x.
Proof.
  intros Hne H0 H1.
  destruct (percentile_lookup vals p Hne H0 H1) as (k & Hk & Hlt & Hp).
  destruct (lookup_lt_is_Some_2 (merge_sort Z.le vals) k) as [x Hx].
  { rewrite length_sorted. exact Hlt. }
  exists k, x. split; [exact Hk|]. split; [exact Hx|]. rewrite Hp. exact Hx.
Qed.

(** [_percentile] of a non-empty sample at a level [p] between 0 and 100
    returns a value of the sample; level 0 returns the minimum of the sample
    and level 100 its maximum, so that every value of the sample lies
    between the two. *)
Theorem percentile_in_sample (vals : list Z) (p : Q) :
  vals <> [] -> (0 <= p)%Q -> (p <= 100)%Q ->
  exists lo x hi,
    _percentile vals 0 = Some lo
    /\ _percentile vals p = Some x
    /\ _percentile vals 100 = Some hi
    /\ lo ∈ vals /\ x ∈ vals /\ hi ∈ vals
    /\ Forall (fun v => lo <= v <= hi) vals.
Proof.
  intros Hne H0 H1.
  destruct (percentile_some vals 0 Hne) as (k0 & lo & Hk0 & Hlo & Plo);
    [apply Qle_refl | discriminate |].
  destruct (percentile_some vals p Hne H0 H1) as (k & x & _ & Hx & Px).
  destruct (percentile_some vals 100 Hne) as (k1 & hi & Hk1 & Hhi & Phi);
    [discriminate | apply Qle_refl |].
  exists lo, x, hi.
  assert (Hin : forall (j : nat) (v : Z),
            merge_sort Z.le vals !! j = Some v -> v ∈ vals).
  { intros j v Hj. rewrite <- (merge_sort_Permutation Z.le vals).
    eapply list_elem_of_lookup_2; exact Hj. }
  repeat (split; [solve [assumption | eapply Hin; eassumption]|]).
  rewrite (Qint_zero (0 / 100 * inject_Z (Z.of_nat (length vals) - 1)))
    in Hk0 by (unfold Qdiv; ring).
  rewrite (Qint_Qeq (100 / 100 * inject_Z (Z.of_nat (length vals) - 1))
             (inject_Z (Z.of_nat (length vals) - 1))) in Hk1 by field.
  rewrite Qint_inject_Z in Hk1.
  rewrite Forall_forall. intros v Hv.
  rewrite <- (merge_sort_Permutation Z.le vals) in Hv.
  apply list_elem_of_lookup_1 in Hv as [j Hj].
  pose proof (lookup_lt_Some _ _ _ Hj) as Hjn. rewrite length_sorted in Hjn.
  split.
  - apply (StronglySorted_lookup_le _ k0 j lo v (sorted_vals vals));
      [lia | assumption..].
  - apply (StronglySorted_lookup_le _ j k1 v hi (sorted_vals vals));
      [lia | assumption..].
Qed.

(** The median and the extremes of five slippages. *)
Lemma percentile_in_sample_witness :
  exists lo x hi,
    _percentile [7; -2; 12; 3; 5] 0 = Some lo
    /\ _percentile [7; -2; 12; 3; 5] 50 = Some x
    /\ _percentile [7; -2; 12; 3; 5] 100 = Some hi
    /\ lo = -2 /\ x = 5 /\ hi = 12.
Proof.
  destruct (percentile_in_sample [7; -2; 12; 3; 5] 50)
    as (lo & x & hi & Hlo & Hx & Hhi & _); try discriminate.
  exists lo, x, hi.
  split; [exact Hlo|]. split; [exact Hx|]. split; [exact Hhi|].
  vm_compute in Hlo, Hx, Hhi.
  repeat split; congruence.
Defined.

(** [_percentile] does not decrease with the level: for levels
    [0 <= p <= q <= 100] on a non-empty sample both calls return and the
    value at [p] is at most the value at [q]. *)
Theorem percentile_monotone (vals : list Z) (p q : Q) :
  vals <> [] -> (0 <= p)%Q -> (p <= q)%Q -> (q <= 100)%Q ->
  exists x y,
    _percentile vals p = Some x /\ _percentile vals q = Some y /\ x <= y.
Proof.
  intros Hne H0 Hpq H1.
  assert (Hp1 : (p <= 100)%Q) by (eapply Qle_trans; eassumption).
  assert (Hq0 : (0 <= q)%Q) by (eapply Qle_trans; eassumption).
  destruct (percentile_some vals p Hne H0 Hp1) as (i & x & Hi & Hx & Px).
  destruct (percentile_some vals q Hne Hq0 H1) as (j & y & Hj & Hy & Py).
  exists x, y. split; [exact Px|]. split; [exact Py|].
  apply (StronglySorted_lookup_le _ i j x y (sorted_vals vals));
    [|assumption..].
  assert (Hn : 1 <= Z.of_nat (length vals)).
  { destruct vals; [congruence | simpl; lia]. }
  assert (Hm : (0 <= inject_Z (Z.of_nat (length vals) - 1))%Q)
    by (unfold Qle; simpl; lia).
  destruct (fraction_bounds p H0 Hp1) as [Hf0 _].
  assert (Hle : Qint (p / 100 * inject_Z (Z.of_nat (length vals) - 1))
                <= Qint (q / 100 * inject_Z (Z.of_nat (length vals) - 1))).
  { apply Qint_mono; [apply Qmult_le_0_compat; assumption|].
    apply Qmult_le_compat_r; [|exact Hm].
    apply Qmult_le_compat_r; [exact Hpq | discriminate]. }
  lia.
Qed.

(** The median and the 95th percentile of five slippages. *)
Lemma percentile_monotone_witness :
  exists x y,
    _percentile [7; -2; 12; 3; 5] 50 = Some x
    /\ _percentile [7; -2; 12; 3; 5] 95 = Some y
    /\ x = 5 /\ y = 7.
Proof.
  destruct (percentile_monotone [7; -2; 12; 3; 5] 50 95)
    as (x & y & Hx & Hy & _); try discriminate.
  exists x, y. split; [exact Hx|]. split; [exact Hy|].
  vm_compute in Hx, Hy. split; congruence.
Defined.

Lemma ratio_le_one (v p : Q) :
  (0 < v)%Q -> (0 < p)%Q -> (v <= p)%Q -> (-1 <= v / p - 1)%Q /\ (v / p - 1 <= 0)%Q.
Proof.
  intros Hv Hp Hvp.
  assert (H0 : (0 <= v / p)%Q).
  { apply Qle_shift_div_l; [exact Hp|]. rewrite Qmult_0_l. apply Qlt_le_weak, Hv. }
  assert (H1 : (v / p <= 1)%Q).
  { apply Qle_shift_div_r; [exact Hp|]. rewrite Qmult_1_l. exact Hvp. }
  split; lra.
Qed.

Lemma ratio_antitone (w p p' : Q) :
  (0 < w)%Q -> (0 < p)%Q -> (p <= p')%Q -> (w / p' - 1 <= w / p - 1)%Q.
Proof.
  intros Hw Hp Hpp.
  assert (Hp' : (0 < p')%Q) by (eapply Qlt_le_trans; eassumption).
  assert (Hr : (0 <= w / p)%Q).
  { apply Qle_shift_div_l; [exact Hp|]. rewrite Qmult_0_l. apply Qlt_le_weak, Hw. }
  assert (Hwp : (w == w / p * p)%Q) by (field; intros E; rewrite E in Hp; discriminate).
  assert (Hle : (w / p' <= w / p)%Q).
  { apply Qle_shift_div_r; [exact Hp'|].
    set (r := (w / p)%Q) in *. nra. }
  lra.
Qed.

(** The invariant of the max-drawdown loop on positive NAVs. *)
Lemma drawdown_loop_positive (l : list Q) :
  forall peak mdd : Q,
  (0 < peak)%Q -> Forall (fun v => (0 < v)%Q) l ->
  (-1 <= mdd)%Q -> (mdd <= 0)%Q ->
  exists m, drawdown_loop l peak mdd = Ok m
    /\ (-1 <= m)%Q /\ (m <= mdd)%Q
    /\ (forall w, w ∈ l -> (m <= w / peak - 1)%Q)
    /\ (forall (i j : nat) (u w : Q), (i <= j)%nat ->
          l !! i = Some u -> l !! j = Some w -> (m <= w / u - 1)%Q).
Proof.
  induction l as [|v rest IH]; intros peak mdd Hpeak Hpos Hlo Hhi.
  - exists mdd. split; [reflexivity|]. split; [exact Hlo|].
    split; [apply Qle_refl|]. split.
    + intros w Hw. inversion Hw.
    + intros i j u w _ Hi. discriminate.
  - apply Forall_cons in Hpos as [Hv Hrest].
    cbn [drawdown_loop].
    set (peak' := if Qltb peak v then v else peak).
    assert (Hp' : (peak <= peak')%Q /\ (v <= peak')%Q).
    { subst peak'. destruct (Qltb peak v) eqn:E.
      - apply Qltb_lt in E. split; [apply Qlt_le_weak, E | apply Qle_refl].
      - apply Qltb_ge in E. split; [apply Qle_refl | exact E]. }
    destruct Hp' as [Hpp Hvp].
    assert (Hpeak' : (0 < peak')%Q) by (eapply Qlt_le_trans; eassumption).
    assert (Hz : Qeqb peak' 0 = false).
    { apply Qeqb_neq. intros E. rewrite E in Hpeak'. discriminate. }
    rewrite Hz.
    destruct (ratio_le_one v peak' Hv Hpeak' Hvp) as [Hd0 Hd1].
    set (dd := (v / peak' - 1)%Q) in *.
    set (mdd' := if Qltb dd mdd then dd else mdd).
    assert (Hm' : (mdd' <= dd)%Q /\ (mdd' <= mdd)%Q /\ (-1 <= mdd')%Q).
    { subst mdd'. destruct (Qltb dd mdd) eqn:E.
      - apply Qltb_lt in E.
        split; [apply Qle_refl|]. split; [apply Qlt_le_weak, E | exact Hd0].
      - apply Qltb_ge in E.
        split; [exact E|]. split; [apply Qle_refl | exact Hlo]. }
    destruct Hm' as (Hmd & Hmm & Hml).
    assert (Hmh : (mdd' <= 0)%Q) by (eapply Qle_trans; eassumption).
    destruct (IH peak' mdd' Hpeak' Hrest Hml Hmh)
      as (m & Hrun & Hm0 & Hm1 & Hall & Hpairs).
    exists m. split; [exact Hrun|]. split; [exact Hm0|].
    split; [eapply Qle_trans; eassumption|].
    assert (Hhead : (m <= dd)%Q) by (eapply Qle_trans; eassumption).
    rewrite Forall_forall in Hrest.
    split.
    + intros w Hw. apply elem_of_cons in Hw as [->|Hw].
      * eapply Qle_trans; [exact Hhead|].
        apply ratio_antitone; assumption.
      * eapply Qle_trans; [apply Hall, Hw|].
        apply ratio_antitone; [apply Hrest, Hw | assumption..].
    + intros i j u w Hij Hi Hj. destruct i as [|i].
      * cbn in Hi. injection Hi as <-. destruct j as [|j].
        -- cbn in Hj. injection Hj as <-.
           eapply Qle_trans; [exact Hhead|].
           apply ratio_antitone; [assumption..|exact Hvp].
        -- cbn in Hj. apply list_elem_of_lookup_2 in Hj.
           eapply Qle_trans; [apply Hall, Hj|].
           apply ratio_antitone; [apply Hrest, Hj | assumption..].
      * destruct j as [|j]; [lia|]. cbn in Hi, Hj.
        apply (Hpairs i j u w); [lia | assumption..].
Qed.

(** On a series of positive NAVs the max-drawdown loop of
    [compute_metrics] returns a value [m] between -1 and 0, and no move from
    an earlier NAV [u] to a later NAV [w] of the series loses more than it:
    [m <= w / u - 1]. *)
Theorem max_drawdown_bounds_every_loss (v0 : Q) (rest : list Q) :
  (0 < v0)%Q -> Forall (fun v => (0 < v)%Q) rest ->
  exists m, max_drawdown v0 rest = Ok m
    /\ (-1 <= m)%Q /\ (m <= 0)%Q
    /\ (forall (i j : nat) (u w : Q), (i <= j)%nat ->
          (v0 :: rest) !! i = Some u -> (v0 :: rest) !! j = Some w ->
          (m <= w / u - 1)%Q).
Proof.
  intros Hv0 Hrest. unfold max_drawdown.
  destruct (drawdown_loop_positive (v0 :: rest) v0 0 Hv0)
    as (m & Hrun & Hm0 & Hm1 & _ & Hpairs).
  - apply Forall_cons. split; assumption.
  - discriminate.
  - apply Qle_refl.
  - exists m. repeat (split; [assumption|]). exact Hpairs.
Qed.

(** A NAV that climbs to 120, falls to 90 and recovers to 110: the max
    drawdown is the fall from 120 to 90. *)
Lemma max_drawdown_bounds_every_loss_witness :
  exists m, max_drawdown 100 [120%Q; 90%Q; 110%Q] = Ok m
    /\ (m == - (1 # 4))%Q.
Proof.
  destruct (max_drawdown_bounds_every_loss 100 [120%Q; 90%Q; 110%Q])
    as (m & Hm & _).
  - reflexivity.
  - repeat constructor.
  - exists m. split; [exact Hm|].
    vm_compute in Hm. injection Hm as <-. reflexivity.
Defined.

End MetricsExtras.

(** ** The hedge ratio of the pair strategy *)

Module BetaExtras.

Import Backtest.

Lemma clamp_between (c lo hi : Q) :
  (lo <= hi)%Q -> (lo <= Qmin (Qmax c lo) hi)%Q /\ (Qmin (Qmax c lo) hi <= hi)%Q.
Proof.
  intros Hlh. split; [|apply Q.le_min_r].
  apply Q.min_glb; [apply Q.le_max_r | exact Hlh].
Qed.

(** With bounds on either side of one, [beta_min <= 1 <= beta_max],
    [_safe_beta] always returns a hedge ratio inside the bounds, whichever
    branch it takes: mismatched or short histories and a variance at or
    below zero fall back to 1, and a computed ratio is clamped. *)
Theorem safe_beta_within_bounds (beta_min beta_max : Q)
    (ret_a ret_b : list Q) :
  (beta_min <= 1)%Q -> (1 <= beta_max)%Q ->
  (beta_min <= _safe_beta ret_a ret_b beta_min beta_max)%Q
  /\ (_safe_beta ret_a ret_b beta_min beta_max <= beta_max)%Q.
Proof.
  intros Hlo Hhi.
  assert (Hlh : (beta_min <= beta_max)%Q) by (eapply Qle_trans; eassumption).
  unfold _safe_beta.
  destruct (negb (length ret_a =? length ret_b)%nat || (length ret_a <? 2)%nat);
    [split; assumption|].
  cbv zeta.
  match goal with |- context [Qleb ?v 0] => destruct (Qleb v 0) end;
    [split; assumption|].
  apply clamp_between. exact Hlh.
Qed.

(** The default bounds 0.2 and 5, on two three-step return histories whose
    raw ratio, 8, is clamped to 5. *)
Lemma safe_beta_within_bounds_witness :
  (_safe_beta [4 # 100; - (2 # 100); 9 # 100]
     [1 # 100; 1 # 100; 2 # 100] (2 # 10) 5 == 5)%Q
  /\ ((2 # 10) <= _safe_beta [4 # 100; - (2 # 100); 9 # 100]
                    [1 # 100; 1 # 100; 2 # 100] (2 # 10) 5)%Q.
Proof.
  split; [vm_compute; reflexivity|].
  exact (proj1 (safe_beta_within_bounds (2 # 10) 5
                  [4 # 100; - (2 # 100); 9 # 100]%Q
                  [1 # 100; 1 # 100; 2 # 100]%Q
                  ltac:(discriminate) ltac:(discriminate))).
Defined.

End BetaExtras.

(** ** Leaving the vault *)

Module VaultExtras.

Import Etf.

Lemma nav_keeps_shares (v : Vault) (pxs : Q * Q) :
  total_shares (nav v pxs).2 = total_shares v /\ cash (nav v pxs).2 = (nav v pxs).1.
Proof. destruct pxs as [b e]. rewrite EtfFacts.nav_second. split; reflexivity. Qed.

(** Redeeming every share, when the NAV and the price per share are
    represented without rounding, pays out the whole NAV and leaves a vault
    with no cash and no shares; its price per share then reads 0, and the
    next deposit is minted at one share per dollar. *)
Theorem withdraw_all_empties_vault (v : Vault) (pxs : Q * Q) :
  ~ (total_shares v == 0)%Q ->
  Dec.exact (nav v pxs).1 ->
  Dec.exact ((nav v pxs).1 / total_shares v) ->
  let out := withdraw v (total_shares v) pxs in
  (out.1 == (nav v pxs).1)%Q
  /\ cash out.2 = 0%Q
  /\ total_shares out.2 = 0%Q
  /\ (price_per_share out.2 pxs).1 = 0%Q
  /\ (forall usd : Q, (deposit out.2 usd pxs).1 = Dec.round usd).
Proof.
  intros HT En Epps out.
  destruct (nav_keeps_shares v pxs) as [Hts Hcash].
  assert (Hb : Qeqb (total_shares v) 0 = false) by (apply Qeqb_neq; exact HT).
  assert (Hpay : (Dec.mul (total_shares v)
                    (Dec.div (nav v pxs).1 (total_shares v))
                  == (nav v pxs).1)%Q).
  { unfold Dec.mul, Dec.div. apply EtfFacts.round_exact; [|exact En].
    assert (E : (Dec.round ((nav v pxs).1 / total_shares v)
                 == (nav v pxs).1 / total_shares v)%Q) by exact Epps.
    rewrite E. field. exact HT. }
  assert (Hout : out = (Dec.mul (total_shares v)
                          (Dec.div (nav v pxs).1 (total_shares v)),
                        mkVault
                          (Dec.sub (nav v pxs).1
                             (Dec.mul (total_shares v)
                                (Dec.div (nav v pxs).1 (total_shares v))))
                          (positions_usd (nav v pxs).2)
                          (Dec.sub (total_shares v) (total_shares v))
                          (last_px (nav v pxs).2))).
  { subst out. unfold withdraw, price_per_share. rewrite Hb. simpl negb. cbv iota.
    destruct (nav v pxs) as [n v1] eqn:E. cbn [fst snd] in *.
    rewrite Hts, Hcash. reflexivity. }
  assert (Hc0 : Dec.sub (nav v pxs).1
                  (Dec.mul (total_shares v)
                     (Dec.div (nav v pxs).1 (total_shares v))) = 0%Q).
  { unfold Dec.sub. apply EtfFacts.round_zero. rewrite Hpay. ring. }
  assert (Hs0 : Dec.sub (total_shares v) (total_shares v) = 0%Q).
  { unfold Dec.sub. apply EtfFacts.round_zero. ring. }
  rewrite Hc0, Hs0 in Hout. rewrite Hout. cbn [fst snd cash total_shares].
  split; [exact Hpay|]. split; [reflexivity|]. split; [reflexivity|].
  split; [reflexivity|].
  intros usd.
  set (v0 := mkVault 0 (positions_usd (nav v pxs).2) 0 (last_px (nav v pxs).2)).
  unfold deposit.
  pose proof (nav_keeps_shares v0 pxs) as [Hts1 _].
  destruct (nav v0 pxs) as [n1 v1]. cbn [snd] in Hts1.
  rewrite Hts1. subst v0. cbn [total_shares].
  change (Qltb 0 0) with false. cbv iota.
  change (negb (Qeqb 1 0)) with true. cbv iota. cbn [fst].
  unfold Dec.div. apply EtfFacts.round_Qeq. field.
Qed.

(** The fresh vault of 10,000 USD and 10,000 shares at the mock prices. *)
Lemma withdraw_all_empties_vault_witness :
  ((withdraw (new_Vault 10000) 10000 Scenarios.market).1 == 10000)%Q
  /\ total_shares (withdraw (new_Vault 10000) 10000 Scenarios.market).2 = 0%Q.
Proof.
  destruct (withdraw_all_empties_vault (new_Vault 10000) Scenarios.market)
    as (H1 & _ & H3 & _).
  - vm_compute. discriminate.
  - vm_compute. reflexivity.
  - vm_compute. reflexivity.
  - split; [exact H1 | exact H3].
Defined.

End VaultExtras.

(** ** Trading against the mock adapter *)

Module MockExtras.

Import Etf.

Lemma mock_slippage_range (d : Q) : 5 <= mock_slippage d <= 35.
Proof.
  unfold mock_slippage. cbv zeta.
  destruct (Qleb (Qabs d) 1000); [lia|].
  destruct (Qleb (Qabs d) 5000); [lia|].
  destruct (Qleb (Qabs d) 20000); lia.
Qed.

(** The slippage estimate of the mock adapter lies between 5 and 35 bps
    and does not decrease with the size of the order; so [check_slippage]
    on the mock adapter passes every order under a cap of 35 bps or more,
    and refuses every order under a cap below 5 bps. *)
Theorem mock_slippage_guard (m : MockAdapter) (asset : string) (cap_bps : Z) :
  (forall d1 d2 : Q, (Qabs d1 <= Qabs d2)%Q -> mock_slippage d1 <= mock_slippage d2)
  /\ (35 <= cap_bps ->
      forall d : Q, check_slippage m asset d cap_bps = Ok (mock_slippage d))
  /\ (cap_bps < 5 ->
      forall d : Q, is_ok (check_slippage m asset d cap_bps) = false).
Proof.
  split; [|split].
  - intros d1 d2 Hd. unfold mock_slippage. cbv zeta.
    destruct (Qleb (Qabs d1) 1000) eqn:E1;
      [destruct (Qleb (Qabs d2) 1000); [lia|];
       destruct (Qleb (Qabs d2) 5000); [lia|];
       destruct (Qleb (Qabs d2) 20000); lia|].
    apply Qleb_gt in E1.
    destruct (Qleb (Qabs d2) 1000) eqn:F1.
    { apply Qleb_le in F1. exfalso. apply (Qlt_irrefl 1000).
      eapply Qlt_le_trans; [exact E1|]. eapply Qle_trans; eassumption. }
    destruct (Qleb (Qabs d1) 5000) eqn:E2;
      [destruct (Qleb (Qabs d2) 5000); [lia|];
       destruct (Qleb (Qabs d2) 20000); lia|].
    apply Qleb_gt in E2.
    destruct (Qleb (Qabs d2) 5000) eqn:F2.
    { apply Qleb_le in F2. exfalso. apply (Qlt_irrefl 5000).
      eapply Qlt_le_trans; [exact E2|]. eapply Qle_trans; eassumption. }
    destruct (Qleb (Qabs d1) 20000) eqn:E3;
      [destruct (Qleb (Qabs d2) 20000); lia|].
    apply Qleb_gt in E3.
    destruct (Qleb (Qabs d2) 20000) eqn:F3; [|lia].
    apply Qleb_le in F3. exfalso. apply (Qlt_irrefl 20000).
    eapply Qlt_le_trans; [exact E3|]. eapply Qle_trans; eassumption.
  - intros Hcap d. unfold check_slippage. cbn.
    pose proof (mock_slippage_range d) as Hr.
    replace (mock_slippage d >? cap_bps) with false
      by (symmetry; rewrite Z.gtb_ltb; apply Z.ltb_ge; lia).
    reflexivity.
  - intros Hcap d. unfold check_slippage. cbn.
    pose proof (mock_slippage_range d) as Hr.
    replace (mock_slippage d >? cap_bps) with true
      by (symmetry; rewrite Z.gtb_ltb; apply Z.ltb_lt; lia).
    reflexivity.
Qed.

Lemma check_slippage_mock (m : MockAdapter) (asset : string) (d : Q) (cap_bps : Z) :
  35 <= cap_bps -> check_slippage m asset d cap_bps = Ok (mock_slippage d).
Proof.
  intros Hcap. unfold check_slippage. cbn.
  pose proof (mock_slippage_range d) as Hr.
  replace (mock_slippage d >? cap_bps) with false
    by (symmetry; rewrite Z.gtb_ltb; apply Z.ltb_ge; lia).
  reflexivity.
Qed.

Lemma signed_fill (p part : Q) :
  (match (if Qltb 0 part then BUY else SELL) with
   | BUY => p + Qabs (Qabs part)
   | SELL => p - Qabs (Qabs part)
   end == p + part)%Q.
Proof.
  assert (Ha : (Qabs (Qabs part) == Qabs part)%Q)
    by (apply Qabs_pos, Qabs_nonneg).
  destruct (Qltb 0 part) eqn:E; rewrite Ha.
  - apply Qltb_lt in E. rewrite Qabs_pos by (apply Qlt_le_weak, E). reflexivity.
  - apply Qltb_ge in E. rewrite Qabs_neg by exact E. ring.
Qed.

Lemma getq_insert (m : gmap string Q) (k : string) (x : Q) :
  getq (<[ k := x ]> m) k = x.
Proof. unfold getq. rewrite lookup_insert_eq. reflexivity. Qed.

(** One chunk against the mock adapter, slippage cap permitting: the
    order is placed, the adapter's book moves by the chunk and the vault
    copies the adapter's new position. *)
Lemma chunk_mock (is_btc : bool) (part : Q) (cap_bps : Z) (t : Trade MockAdapter) :
  35 <= cap_bps ->
  let asset := (if is_btc then "BTC" else "ETH")%string in
  exists t',
    chunk is_btc asset part cap_bps false t = (t', None)
    /\ (getq (m_pos_usd (t_adapter t')) asset
        == getq (m_pos_usd (t_adapter t)) asset + part)%Q
    /\ pos_of (t_vault t') asset = getq (m_pos_usd (t_adapter t')) asset
    /\ ((if is_btc then ord_b t' else ord_e t')
        == (if is_btc then ord_b t else ord_e t) + Qabs part)%Q
    /\ (if is_btc then orders_b t' else orders_e t')
       = (if is_btc then orders_b t else orders_e t) + 1
    /\ t_status t' = t_status t /\ t_err_reason t' = t_err_reason t.
Proof.
  intros Hcap asset. subst asset. unfold chunk.
  rewrite (check_slippage_mock _ _ part cap_bps Hcap).
  destruct is_btc; cbn [place_order_usd mock_adapter t_adapter t_vault];
    unfold mock_place; cbv zeta;
    (eexists; split; [reflexivity|]);
    cbn [t_adapter t_vault ord_b ord_e orders_b orders_e t_status t_err_reason
         m_pos_usd set_position];
    rewrite getq_insert;
    (split; [apply signed_fill|]);
    (split; [unfold pos_of, set_position; cbn [positions_usd];
             rewrite lookup_insert_eq; reflexivity|]);
    (split; [reflexivity|]); (split; [reflexivity|]); split; reflexivity.
Qed.

Lemma chunks_loop_mock (n : nat) (is_btc : bool) (part : Q) (cap_bps : Z) :
  35 <= cap_bps ->
  let asset := (if is_btc then "BTC" else "ETH")%string in
  forall t : Trade MockAdapter,
  exists t',
    chunks_loop n is_btc asset part cap_bps false t = (t', None)
    /\ (getq (m_pos_usd (t_adapter t')) asset
        == getq (m_pos_usd (t_adapter t)) asset + inject_Z (Z.of_nat n) * part)%Q
    /\ ((0 < n)%nat
          \/ pos_of (t_vault t) asset = getq (m_pos_usd (t_adapter t)) asset ->
        pos_of (t_vault t') asset = getq (m_pos_usd (t_adapter t')) asset)
    /\ ((if is_btc then ord_b t' else ord_e t')
        == (if is_btc then ord_b t else ord_e t)
           + inject_Z (Z.of_nat n) * Qabs part)%Q
    /\ (if is_btc then orders_b t' else orders_e t')
       = (if is_btc then orders_b t else orders_e t) + Z.of_nat n
    /\ t_status t' = t_status t /\ t_err_reason t' = t_err_reason t.
Proof.
  intros Hcap asset. subst asset. induction n as [|n IH]; intros t.
  - exists t. split; [reflexivity|].
    split; [change (inject_Z (Z.of_nat 0)) with 0%Q; ring|].
    split; [intros [Hn|Hv]; [lia | exact Hv]|].
    split; [change (inject_Z (Z.of_nat 0)) with 0%Q; ring|].
    split; [simpl; lia|]. split; reflexivity.
  - destruct (chunk_mock is_btc part cap_bps t Hcap)
      as (t1 & Hc & Hp1 & Hv1 & Ho1 & Hn1 & Hs1 & He1).
    destruct (IH t1) as (t' & Hl & Hp & Hv & Ho & Hn & Hs & He).
    exists t'. cbn [chunks_loop]. rewrite Hc.
    split; [exact Hl|].
    assert (HS : (inject_Z (Z.of_nat (S n)) == 1 + inject_Z (Z.of_nat n))%Q).
    { rewrite Nat2Z.inj_succ. unfold Z.succ. rewrite inject_Z_plus. ring. }
    split; [rewrite Hp, Hp1, HS; ring|].
    split; [intros _; apply Hv; right; exact Hv1|].
    split; [rewrite Ho, Ho1, HS; ring|].
    split; [rewrite Hn, Hn1; lia|].
    split; congruence.
Qed.

(** A trade of at least the minimum size against the mock adapter, under
    a slippage cap of 35 bps or more, succeeds in one or three orders that
    add up to the requested change: the adapter's position moves by [delta]
    and the traded total grows by [|delta|].  The vault's position is set to
    the adapter's new position, whatever the vault held before. *)
Theorem mock_trade_fills_delta (is_btc : bool) (delta min_trade : Q)
    (cap_bps : Z) (t : Trade MockAdapter) :
  35 <= cap_bps -> (min_trade <= Qabs delta)%Q ->
  let asset := (if is_btc then "BTC" else "ETH")%string in
  let t' := trade_asset is_btc asset delta min_trade cap_bps false t in
  (getq (m_pos_usd (t_adapter t')) asset
   == getq (m_pos_usd (t_adapter t)) asset + delta)%Q
  /\ pos_of (t_vault t') asset = getq (m_pos_usd (t_adapter t')) asset
  /\ ((if is_btc then ord_b t' else ord_e t')
      == (if is_btc then ord_b t else ord_e t) + Qabs delta)%Q
  /\ (if is_btc then orders_b t' else orders_e t')
     = (if is_btc then orders_b t else orders_e t)
       + (if Qleb (Qabs delta) 5000 then 1 else 3)
  /\ t_status t' = t_status t /\ t_err_reason t' = t_err_reason t.
Proof.
  intros Hcap Hmin asset t'. subst t'. unfold trade_asset.
  apply Qltb_ge in Hmin. rewrite Hmin. cbv zeta.
  set (n := if Qleb (Qabs delta) 5000 then 1%nat else 3%nat).
  assert (Hn : (0 < n)%nat) by (subst n; destruct (Qleb _ _); lia).
  assert (Hq : (0 < inject_Z (Z.of_nat n))%Q)
    by (subst n; destruct (Qleb _ _); reflexivity).
  destruct (chunks_loop_mock n is_btc (delta / inject_Z (Z.of_nat n)) cap_bps
              Hcap t) as (t' & Hl & Hp & Hv & Ho & Hc & Hs & He).
  fold asset in Hl, Hp, Hv. rewrite Hl.
  assert (Hne : ~ (inject_Z (Z.of_nat n) == 0)%Q).
  { intros E. rewrite E in Hq. discriminate. }
  split; [rewrite Hp; field; exact Hne|].
  split; [apply Hv; left; exact Hn|].
  split.
  { rewrite Ho. apply Qplus_inj_l.
    unfold Qdiv. rewrite Qabs_Qmult.
    rewrite (Qabs_pos (/ inject_Z (Z.of_nat n)))
      by (apply Qlt_le_weak, Qinv_lt_0_compat, Hq).
    field. exact Hne. }
  split; [rewrite Hc; subst n; destruct (Qleb _ _); reflexivity|].
  split; assumption.
Qed.

(** The first BTC trade of the engine against the mock adapter: the vault
    holds nothing, the adapter 10,800 USD of BTC, and the engine asks for
    6,000 USD more. *)
Lemma mock_trade_fills_delta_witness :
  (pos_of
     (t_vault
        (trade_asset true "BTC" 6000 10 50 false
           (mkTrade new_MockAdapter (new_Vault 10000) 0 0 None None 0 0 0 0
              "OK" "")))
     "BTC"
   == 16800)%Q.
Proof.
  destruct (mock_trade_fills_delta true 6000 10 50
              (mkTrade new_MockAdapter (new_Vault 10000) 0 0 None None 0 0 0 0
                 "OK" ""))
    as (Hp & Hv & _); [lia | vm_compute; discriminate |].
  cbv zeta in Hp, Hv. rewrite Hv, Hp. reflexivity.
Defined.

End MockExtras.
